(** * Sunset-Map: geographic batching, cache-aware fetch and statistics

    A shallow embedding of [Avg_Timezone_optimized.py].

    Conventions of the embedding:
    - Python [int] is [Z]; a finite Python [float] is the rational it
      denotes, in [Q] (with [GRID_SIZE = 1.0] the grid arithmetic is exact);
    - Python [str] is [string], restricted to ASCII text;
    - an exception is a value of [exn]; code that can raise returns
      [result];
    - wall-clock time is an explicit logical clock carried by the world
      state, advanced by delays chosen by the environment. *)

From Stdlib Require Import ZArith QArith Qround Qabs Lqa Lia List String Ascii Bool.
From Stdlib Require Import DecimalString DecimalZ DecimalPos Eqdep_dec.
From stdpp Require Import gmap strings.
Import ListNotations.

Open Scope string_scope.
Open Scope Z_scope.

Set Warnings "-register-all".

(** ** Exceptions and results *)

Inductive exn : Type :=
| ValueError
| TypeError
| KeyError
| StatisticsError
| ZeroDivisionError
| ClientError.

Inductive result (A : Type) : Type :=
| Ok (a : A)
| Raise (e : exn).

Arguments Ok {A} a.
Arguments Raise {A} e.

Definition rbind {A B} (r : result A) (f : A -> result B) : result B :=
  match r with
  | Ok a => f a
  | Raise e => Raise e
  end.

Fixpoint rmap {A B} (f : A -> result B) (l : list A) : result (list B) :=
  match l with
  | [] => Ok []
  | x :: l' => rbind (f x) (fun y => rbind (rmap f l') (fun ys => Ok (y :: ys)))
  end.

(** ** JSON values, as Python sees them after [response.json()] *)

Inductive json : Type :=
| JNull
| JBool (b : bool)
| JNum (q : Q)
| JStr (s : string)
| JArr (l : list json)
| JObj (d : list (string * json)).

(** A Python dict with string keys: association list, first binding wins. *)
Definition pydict : Type := list (string * json).

Fixpoint dict_get (d : pydict) (k : string) : option json :=
  match d with
  | [] => None
  | (k', v) :: d' => if String.eqb k' k then Some v else dict_get d' k
  end.

(** ** Text helpers *)

Definition code (c : ascii) : N := N_of_ascii c.

Definition in_range (lo hi : ascii) : ascii -> bool :=
  fun c => (code lo <=? code c)%N && (code c <=? code hi)%N.

Definition is_digit : ascii -> bool := in_range "0" "9".

(** [\s] on ASCII text: tab, LF, VT, FF, CR, the four separators 28..31
    and the space. *)
Definition is_space (c : ascii) : bool :=
  ((9 <=? code c)%N && (code c <=? 13)%N)
  || ((28 <=? code c)%N && (code c <=? 32)%N).

Definition lower (c : ascii) : ascii :=
  if in_range "A" "Z" c then ascii_of_N (code c + 32) else c.

Definition ci_eqb (a b : ascii) : bool := Ascii.eqb (lower a) (lower b).

(** [str(n)] for an [int]. *)
Definition str_int (n : Z) : string := NilZero.string_of_int (Z.to_int n).

(** [int(text)] on a run of decimal digits. *)
Definition digit_val (c : ascii) : Z := Z.of_N (code c) - 48.

Fixpoint int_of_digits_from (acc : Z) (s : string) : Z :=
  match s with
  | EmptyString => acc
  | String c s' => int_of_digits_from (10 * acc + digit_val c) s'
  end.

Definition int_of_digits (s : string) : Z := int_of_digits_from 0 s.

Fixpoint zeros (n : nat) : string :=
  match n with
  | O => EmptyString
  | S n' => String "0" (zeros n')
  end.

(** [format(n, "0{w}d")]: sign first, then zeros up to the width. *)
Definition fmt_0d (w : nat) (n : Z) : string :=
  let digits := str_int (Z.abs n) in
  let sign := if n <? 0 then "-" else EmptyString in
  let used := (String.length sign + String.length digits)%nat in
  sign +:+ zeros (w - used) +:+ digits.

(** [s.endswith(suffix)] and [s[:-1]]. *)
Fixpoint endswith_char (s : string) (c : ascii) : bool :=
  match s with
  | EmptyString => false
  | String a EmptyString => Ascii.eqb a c
  | String _ s' => endswith_char s' c
  end.

Fixpoint drop_last (s : string) : string :=
  match s with
  | EmptyString => EmptyString
  | String _ EmptyString => EmptyString
  | String a s' => String a (drop_last s')
  end.

(** [needle in hay] for two strings. *)
Fixpoint prefixb (p s : string) : bool :=
  match p, s with
  | EmptyString, _ => true
  | String a p', String b s' => Ascii.eqb a b && prefixb p' s'
  | String _ _, EmptyString => false
  end.

Fixpoint contains (hay needle : string) : bool :=
  prefixb needle hay ||
  match hay with
  | EmptyString => false
  | String _ hay' => contains hay' needle
  end.

(** ** [datetime.strptime], after CPython's [_strptime.py]

    [TimeRE.pattern] turns a format into a regular expression: every
    directive becomes a named group of alternatives, every run of white
    space becomes [\s+], everything else is literal.  The expression is
    compiled with [IGNORECASE] and matched by a backtracking matcher that
    takes the first alternative that lets the rest of the pattern match. *)

Inductive item : Type :=
| ILit (c : ascii)
| IWs
| IGroup (name : ascii) (alts : list (list (ascii -> bool))).

Definition captures : Type := list (ascii * string).

(** The directives the program uses, as in [TimeRE.__init__]:
    [%H] is [2[0-3]|[0-1]\d|\d], [%I] is [1[0-2]|0[1-9]|[1-9]],
    [%M] is [[0-5]\d|\d], [%S] is [6[0-1]|[0-5]\d|\d], [%p] is [am|pm]. *)
Definition directive (d : ascii) : option item :=
  if Ascii.eqb d "H" then
    Some (IGroup "H" [ [in_range "2" "2"; in_range "0" "3"];
                       [in_range "0" "1"; is_digit];
                       [is_digit] ])
  else if Ascii.eqb d "I" then
    Some (IGroup "I" [ [in_range "1" "1"; in_range "0" "2"];
                       [in_range "0" "0"; in_range "1" "9"];
                       [in_range "1" "9"] ])
  else if Ascii.eqb d "M" then
    Some (IGroup "M" [ [in_range "0" "5"; is_digit]; [is_digit] ])
  else if Ascii.eqb d "S" then
    Some (IGroup "S" [ [in_range "6" "6"; in_range "0" "1"];
                       [in_range "0" "5"; is_digit];
                       [is_digit] ])
  else if Ascii.eqb d "p" then
    Some (IGroup "p" [ [ci_eqb "a"; ci_eqb "m"]; [ci_eqb "p"; ci_eqb "m"] ])
  else None.

(** [TimeRE.pattern]; [None] stands for the [KeyError] of an unknown
    directive, which [_strptime] reports as a [ValueError]. *)
Fixpoint pattern (format : string) : option (list item) :=
  match format with
  | EmptyString => Some []
  | String "%" (String d rest) =>
      match directive d, pattern rest with
      | Some it, Some p => Some (it :: p)
      | _, _ => None
      end
  | String "%" EmptyString => None
  | String c rest =>
      if is_space c then
        match pattern rest with
        | Some (IWs :: p) => Some (IWs :: p)
        | Some p => Some (IWs :: p)
        | None => None
        end
      else option_map (cons (ILit c)) (pattern rest)
  end.

(** One alternative of a group: a fixed run of character classes. *)
Fixpoint match_alt (cs : list (ascii -> bool)) (s : string)
  : option (string * string) :=
  match cs with
  | [] => Some (EmptyString, s)
  | c :: cs' =>
      match s with
      | String a s' =>
          if c a then
            match match_alt cs' s' with
            | Some (m, r) => Some (String a m, r)
            | None => None
            end
          else None
      | EmptyString => None
      end
  end.

Section Backtracking.
Variable k : string -> option (captures * string).

(** Alternatives in order; the first whose continuation succeeds wins. *)
Fixpoint try_alts (name : ascii) (alts : list (list (ascii -> bool)))
                  (s : string) : option (captures * string) :=
  match alts with
  | [] => None
  | cs :: alts' =>
      match match_alt cs s with
      | Some (m, r) =>
          match k r with
          | Some (caps, rest) => Some ((name, m) :: caps, rest)
          | None => try_alts name alts' s
          end
      | None => try_alts name alts' s
      end
  end.

(** Greedy [\s*]: longest run first, giving characters back on failure. *)
Fixpoint ws_star (s : string) : option (captures * string) :=
  match s with
  | String a s' =>
      if is_space a then
        match ws_star s' with
        | Some r => Some r
        | None => k s
        end
      else k s
  | EmptyString => k s
  end.

Definition ws_plus (s : string) : option (captures * string) :=
  match s with
  | String a s' => if is_space a then ws_star s' else None
  | EmptyString => None
  end.
End Backtracking.

(** [re.match]: the captures and the unconsumed rest of the text. *)
Fixpoint re_match (p : list item) (s : string) : option (captures * string) :=
  match p with
  | [] => Some ([], s)
  | ILit c :: p' =>
      match s with
      | String a s' => if ci_eqb c a then re_match p' s' else None
      | EmptyString => None
      end
  | IWs :: p' => ws_plus (re_match p') s
  | IGroup name alts :: p' => try_alts (re_match p') name alts s
  end.

Fixpoint found_get (found : captures) (name : ascii) : option string :=
  match found with
  | [] => None
  | (n, m) :: found' => if Ascii.eqb n name then Some m else found_get found' name
  end.

Fixpoint lower_str (s : string) : string :=
  match s with
  | EmptyString => EmptyString
  | String a s' => String (lower a) (lower_str s')
  end.

(** A [datetime]'s time of day.  The constructor validates its fields, so
    every object that exists has them in range. *)
Definition time_fields_ok (h m s : Z) : bool :=
  (0 <=? h) && (h <? 24) && (0 <=? m) && (m <? 60) && (0 <=? s) && (s <? 60).

Record time_obj : Type := mk_time_obj {
  hour : Z;
  minute : Z;
  second : Z;
  time_ok : time_fields_ok hour minute second = true
}.

Definition datetime_new (h m s : Z) : result time_obj :=
  match bool_dec (time_fields_ok h m s) true with
  | left ok => Ok (mk_time_obj h m s ok)
  | right _ => Raise ValueError
  end.

(** The hour of a match, as [_strptime] computes it from [%H], or from
    [%I] and [%p]. *)
Definition found_hour (found : captures) : Z :=
  match found_get found "H" with
  | Some h => int_of_digits h
  | None =>
      match found_get found "I" with
      | Some i =>
          let hour := int_of_digits i in
          let ampm := match found_get found "p" with
                      | Some t => lower_str t
                      | None => EmptyString
                      end in
          if String.eqb ampm EmptyString || String.eqb ampm "am" then
            (if hour =? 12 then 0 else hour)
          else if String.eqb ampm "pm" then
            (if hour =? 12 then hour else hour + 12)
          else hour
      | None => 0
      end
  end.

Definition found_field (found : captures) (name : ascii) : Z :=
  match found_get found name with
  | Some t => int_of_digits t
  | None => 0
  end.

Definition strptime (data_string format : string) : result time_obj :=
  match pattern format with
  | None => Raise ValueError
  | Some p =>
      match re_match p data_string with
      | None => Raise ValueError
      | Some (found, EmptyString) =>
          datetime_new (found_hour found) (found_field found "M")
                       (found_field found "S")
      | Some (_, String _ _) => Raise ValueError
      end
  end.

(** ** TimeCodec *)

Definition seconds_of (t : time_obj) : Z :=
  hour t * 3600 + minute t * 60 + second t.

Section TimeCodec.
(** [datetime.fromisoformat(text).time()]: the standard library's
    ISO-8601 parser, taken as given. *)
Variable fromisoformat : string -> result time_obj.

Definition time_to_seconds (time_str : json) : result Z :=
  match time_str with
  | JStr text =>
      match strptime text "%I:%M:%S %p" with
      | Ok time_obj => Ok (seconds_of time_obj)
      | Raise ValueError =>
          match strptime text "%H:%M:%S" with
          | Ok time_obj => Ok (seconds_of time_obj)
          | Raise ValueError =>
              let text' := if endswith_char text "Z"
                           then drop_last text +:+ "+00:00" else text in
              rbind (fromisoformat text') (fun time_obj => Ok (seconds_of time_obj))
          | Raise e => Raise e
          end
      | Raise e => Raise e
      end
  | _ => Raise TypeError
  end.
End TimeCodec.

Definition seconds_to_time (seconds : Z) : string :=
  let hours := (seconds / 3600) mod 24 in
  let minutes := (seconds mod 3600) / 60 in
  let secs := seconds mod 60 in
  fmt_0d 2 hours +:+ ":" +:+ fmt_0d 2 minutes +:+ ":" +:+ fmt_0d 2 secs.


(** ** StatsEngine *)

(** One output record per location. *)
Record FetchResult : Type := mk_FetchResult {
  zip_code : string;
  sunset_time : json;
  timezone_offset : Q
}.

Definition sum_Z (data : list Z) : Z := fold_right Z.add 0 data.

Definition len {A} (l : list A) : Z := Z.of_nat (length l).

(** [int(x)] on a number: truncation towards zero. *)
Definition int_of_Q (x : Q) : Z := Z.quot (Qnum x) (Zpos (Qden x)).

Fixpoint insert_sorted (x : Z) (l : list Z) : list Z :=
  match l with
  | [] => [x]
  | y :: l' => if x <=? y then x :: l else y :: insert_sorted x l'
  end.

Definition sorted (data : list Z) : list Z := fold_right insert_sorted [] data.

(** [statistics.mean]: the exact quotient, in lowest terms (the module
    sums exactly; the final conversion to [float] is not modelled). *)
Definition mean (data : list Z) : result Q :=
  match data with
  | [] => Raise StatisticsError
  | _ :: _ => Ok (Qred (sum_Z data # Pos.of_nat (length data)))
  end.

(** [statistics.median]: the middle element, or the half-sum of the two
    middle elements. *)
Definition median (data : list Z) : result Q :=
  let data' := sorted data in
  let n := length data' in
  match n with
  | O => Raise StatisticsError
  | _ =>
      if Nat.odd n then Ok (inject_Z (nth (n / 2) data' 0))
      else
        let i := (n / 2)%nat in
        let two_middle := nth (i - 1) data' 0 + nth i data' 0 in
        Ok (Qred (inject_Z two_middle / 2))%Q
  end.

(** [statistics.variance]: the sum of squared deviations over [n - 1]. *)
Definition variance (data : list Z) : result Q :=
  if (length data <? 2)%nat then Raise StatisticsError
  else
    let n := len data in
    let total := sum_Z data in
    let ss := sum_Z (map (fun x => (n * x - total) * (n * x - total)) data) in
    Ok (Qred (ss # Pos.of_nat (length data * length data * (length data - 1))))%Q.

(** A standard deviation is the square root of a variance; it is kept as
    its radicand. *)
Inductive surd : Type := Sqrt (radicand : Q).

(** [statistics.stdev]: it raises on fewer than two values. *)
Definition stdev (data : list Z) : result surd :=
  rbind (variance data) (fun v => Ok (Sqrt v)).

(** [min], [max] and [list.index] on a non-empty list. *)
Definition list_min (data : list Z) : Z :=
  match data with
  | [] => 0
  | x :: l => fold_left Z.min l x
  end.

Definition list_max (data : list Z) : Z :=
  match data with
  | [] => 0
  | x :: l => fold_left Z.max l x
  end.

Fixpoint index_of (x : Z) (data : list Z) : nat :=
  match data with
  | [] => O
  | y :: l => if y =? x then O else S (index_of x l)
  end.

(** [f"{secs / 60:.2f}"] for an integer number of seconds.  A multiple of
    1/60 is never half-way between two hundredths (100/60 = 5/3), and the
    nearest [float] is far closer to it than to any such midpoint, so the
    rendering is the nearest hundredth of the exact quotient. *)
Definition fmt_minutes_2f (secs : Z) : string :=
  let hundredths := (10 * Z.abs secs + 3) / 6 in
  (if secs <? 0 then "-" else EmptyString)
  +:+ str_int (hundredths / 100) +:+ "." +:+ fmt_0d 2 (hundredths mod 100).

(** Sunset seconds grouped by key, in order of first appearance
    ([defaultdict(list)] and [append]). *)
Fixpoint group_append (k : Q) (v : Z) (groups : list (Q * list Z))
  : list (Q * list Z) :=
  match groups with
  | [] => [(k, [v])]
  | (k', vs) :: groups' =>
      if Qeq_bool k' k then (k', (vs ++ [v])%list) :: groups'
      else (k', vs) :: group_append k v groups'
  end.

(** Occurrences per hour, by increasing hour ([defaultdict(int)], then
    [sorted(items())]). *)
Fixpoint count_insert (h : Z) (counts : list (Z * Z)) : list (Z * Z) :=
  match counts with
  | [] => [(h, 1)]
  | (h', n) :: counts' =>
      if h =? h' then (h', n + 1) :: counts'
      else if h <? h' then (h, 1) :: counts
      else (h', n) :: count_insert h counts'
  end.

(** The parts of the summary, named after the keys of the dict the source
    builds. *)
Record TimezoneStats : Type := mk_TimezoneStats {
  tz_count : Z;
  tz_average : string;
  std_dev_minutes : string
}.

Record HourStats : Type := mk_HourStats {
  hour_count : Z;
  hour_percentage : string
}.

Record SummaryStatistics : Type := mk_SummaryStatistics {
  average_sunset : string;
  median_sunset : string;
  standard_deviation_minutes : string;
  total_locations : Z
}.

Record SunsetEntry : Type := mk_SunsetEntry {
  entry_time : json;
  entry_zip_code : string;
  entry_timezone_offset : Q
}.

Record RangeAnalysis : Type := mk_RangeAnalysis {
  earliest_sunset : SunsetEntry;
  latest_sunset : SunsetEntry;
  time_range_minutes : string
}.

Record PercentileDistribution : Type := mk_PercentileDistribution {
  percentile_10th : string;
  percentile_25th : string;
  percentile_median : string;
  percentile_75th : string;
  percentile_90th : string
}.

Record Statistics : Type := mk_Statistics {
  summary_statistics : SummaryStatistics;
  range_analysis : RangeAnalysis;
  percentile_distribution : PercentileDistribution;
  hour_distribution : list (string * HourStats);
  timezone_analysis : list (Q * TimezoneStats)
}.

Definition entry_of (r : FetchResult) : SunsetEntry :=
  mk_SunsetEntry (sunset_time r) (zip_code r) (timezone_offset r).

Section StatsEngine.
Variable fromisoformat : string -> result time_obj.

(** Floating-point renderings, taken as given:
    [fmt_sqrt_minutes_2f x] is [f"{(x / 60):.2f}"] for a standard
    deviation [x]; [percentile_seconds data q] is
    [int(np.percentile(data, q))]; [fmt_percentage c n] is
    [f"{(c / n * 100):.1f}%"]. *)
Variable fmt_sqrt_minutes_2f : surd -> string.
Variable percentile_seconds : list Z -> Z -> Z.
Variable fmt_percentage : Z -> Z -> string.

Definition timezone_entry (group : Q * list Z) : result (Q * TimezoneStats) :=
  let '(offset, times) := group in
  rbind (mean times) (fun avg =>
  rbind (if (1 <? length times)%nat
         then rbind (stdev times) (fun sd => Ok (fmt_sqrt_minutes_2f sd))
         else Ok "N/A") (fun sd =>
  Ok (offset, mk_TimezoneStats (len times) (seconds_to_time (int_of_Q avg)) sd))).

(** [calculate_statistics]; [Ok None] is the empty dict returned for no
    results.  The keys of [timezone_analysis] are the offsets themselves;
    the source renders each with [str]. *)
Definition calculate_statistics (results : list FetchResult)
  : result (option Statistics) :=
  match results with
  | [] => Ok None
  | first :: _ =>
      rbind (rmap (fun r => time_to_seconds fromisoformat (sunset_time r)) results)
        (fun seconds_list =>
      rbind (mean seconds_list) (fun avg_seconds =>
      rbind (median seconds_list) (fun median_seconds =>
      rbind (stdev seconds_list) (fun std_seconds =>
      let earliest_idx := index_of (list_min seconds_list) seconds_list in
      let latest_idx := index_of (list_max seconds_list) seconds_list in
      let earliest_data := nth earliest_idx results first in
      let latest_data := nth latest_idx results first in
      let time_range_seconds := list_max seconds_list - list_min seconds_list in
      let hours_distribution :=
        fold_left (fun acc seconds => count_insert (seconds / 3600) acc)
                  seconds_list [] in
      let percentile := fun q =>
        seconds_to_time (percentile_seconds seconds_list q) in
      rbind (rmap (fun r =>
               rbind (time_to_seconds fromisoformat (sunset_time r))
                     (fun t => Ok (timezone_offset r, t))) results)
        (fun keyed =>
      let timezone_groups :=
        fold_left (fun acc kt => group_append (fst kt) (snd kt) acc) keyed [] in
      rbind (rmap timezone_entry timezone_groups) (fun timezone_stats =>
      Ok (Some {|
        summary_statistics := {|
          average_sunset := seconds_to_time (int_of_Q avg_seconds);
          median_sunset := seconds_to_time (int_of_Q median_seconds);
          standard_deviation_minutes := fmt_sqrt_minutes_2f std_seconds;
          total_locations := len results
        |};
        range_analysis := {|
          earliest_sunset := entry_of earliest_data;
          latest_sunset := entry_of latest_data;
          time_range_minutes := fmt_minutes_2f time_range_seconds
        |};
        percentile_distribution := {|
          percentile_10th := percentile 10;
          percentile_25th := percentile 25;
          percentile_median := percentile 50;
          percentile_75th := percentile 75;
          percentile_90th := percentile 90
        |};
        hour_distribution :=
          map (fun hc => (str_int (fst hc),
                          mk_HourStats (snd hc)
                                       (fmt_percentage (snd hc) (len results))))
              hours_distribution;
        timezone_analysis := timezone_stats
      |})))))))
  end.
End StatsEngine.

(** ** Configuration *)

Definition GRID_SIZE : Q := 1.
Definition REDIS_EXPIRY : Q := 86400.
Definition BATCH_SIZE : nat := 100.

(** ** GeographicBatcher *)

(** A resolved location, as [prepare_batches] stores it. *)
Record Location : Type := mk_Location {
  loc_zip_code : string;
  loc_lat : Q;
  loc_lon : Q;
  loc_timezone_offset : Q
}.

(** One entry of the postal-code database, with its coordinates already
    read as numbers. *)
Record ZipRecord : Type := mk_ZipRecord {
  zr_state : option string;
  zr_lat : Q;
  zr_long : Q
}.

Definition np_floor (x : Q) : Q := inject_Z (Qfloor x).

Definition _get_grid_coordinates (lat lon : Q) : Q * Q :=
  let lat_grid := (np_floor (lat / GRID_SIZE) * GRID_SIZE)%Q in
  let lon_grid := (np_floor (lon / GRID_SIZE) * GRID_SIZE)%Q in
  (lat_grid, lon_grid).

Definition _is_contiguous_us (location : ZipRecord) : bool :=
  match zr_state location with
  | Some state =>
      negb (existsb (String.eqb state) ["AK"; "HI"; "PR"])
  | None => true
  end.

Definition cell_eqb (a b : Q * Q) : bool :=
  Qeq_bool (fst a) (fst b) && Qeq_bool (snd a) (snd b).

(** [grid_map[cell].append(loc)] on a [defaultdict(list)]: a new cell goes
    last, a known cell keeps its place and grows at the end. *)
Fixpoint grid_append (cell : Q * Q) (loc : Location)
                     (grid_map : list ((Q * Q) * list Location))
  : list ((Q * Q) * list Location) :=
  match grid_map with
  | [] => [(cell, [loc])]
  | (cell', locs) :: grid_map' =>
      if cell_eqb cell' cell then (cell', (locs ++ [loc])%list) :: grid_map'
      else (cell', locs) :: grid_append cell loc grid_map'
  end.

Record GeographicBatcher : Type := mk_GeographicBatcher {
  zip_codes : list string;
  grid_map : list ((Q * Q) * list Location)
}.

Definition GeographicBatcher_init (zip_codes : list string) : GeographicBatcher :=
  mk_GeographicBatcher zip_codes [].

Section Batcher.
(** The collaborators: [zipcodes.matching] (which raises on a malformed
    code), [TimezoneFinder.timezone_at], and the current UTC offset in
    hours of a named zone ([pytz], which raises on an unknown name). *)
Variable zipcodes_matching : string -> result (list ZipRecord).
Variable timezone_at : Q -> Q -> option string.
Variable utc_offset_hours : string -> result Q.

(** The body of the loop for one code: [Ok None] is a [continue]. *)
Definition locate (zip_code : string) : result (option Location) :=
  rbind (zipcodes_matching zip_code) (fun location =>
  match location with
  | [] => Ok None
  | location :: _ =>
      if negb (_is_contiguous_us location) then Ok None
      else
        let lat := zr_lat location in
        let lon := zr_long location in
        match timezone_at lat lon with
        | None => Ok None
        | Some timezone_str =>
            if String.eqb timezone_str EmptyString then Ok None
            else
              rbind (utc_offset_hours timezone_str) (fun utc_offset =>
              Ok (Some (mk_Location zip_code lat lon utc_offset)))
        end
  end).

Fixpoint prepare_from (codes : list string)
                      (grid_map : list ((Q * Q) * list Location))
  : result (list ((Q * Q) * list Location)) :=
  match codes with
  | [] => Ok grid_map
  | zip_code :: codes' =>
      rbind (locate zip_code) (fun found =>
      match found with
      | None => prepare_from codes' grid_map
      | Some loc =>
          let grid_coords := _get_grid_coordinates (loc_lat loc) (loc_lon loc) in
          prepare_from codes' (grid_append grid_coords loc grid_map)
      end)
  end.

(** [prepare_batches]: the batcher after the loop; the grid map is also
    what the method returns. *)
Definition prepare_batches (self : GeographicBatcher) : result GeographicBatcher :=
  rbind (prepare_from (zip_codes self) (grid_map self)) (fun gm =>
  Ok (mk_GeographicBatcher (zip_codes self) gm)).
End Batcher.

(** ** The world: Redis, the clock, the limiter and what was observed *)

Inductive event : Type :=
| EvAcquire (granted_at : Q)
| EvRequest (lat lng : Q)
| EvPrint
| EvProgress (n : Z).

Record RateLimiter : Type := mk_RateLimiter {
  calls_per_second : Z;
  min_interval : Q;
  last_call : Q
}.

(** The world a run acts on.  [redis] maps a key to its value and the
    instant it expires; [future] lists the delays the environment inserts,
    one at each reading of the clock or wake-up, in order; [trace] is the
    history of observable actions, latest first. *)
Record World : Type := mk_World {
  redis : gmap string (pydict * Q);
  clock : Q;
  future : list Q;
  limiter : RateLimiter;
  trace : list event
}.

Definition set_redis (w : World) (r : gmap string (pydict * Q)) : World :=
  mk_World r (clock w) (future w) (limiter w) (trace w).

Definition set_limiter (w : World) (l : RateLimiter) : World :=
  mk_World (redis w) (clock w) (future w) l (trace w).

(** The clock moves on by the next delay of the environment and by [d]. *)
Definition advance (w : World) (d : Q) : World :=
  mk_World (redis w) (clock w + d + hd 0%Q (future w))%Q (tl (future w))
           (limiter w) (trace w).

Definition record (w : World) (e : event) : World :=
  mk_World (redis w) (clock w) (future w) (limiter w) (e :: trace w).

(** Stateful code that may raise. *)
Definition M (A : Type) : Type := World -> result A * World.

Definition ret {A} (a : A) : M A := fun w => (Ok a, w).

Definition bind {A B} (c : M A) (f : A -> M B) : M B :=
  fun w =>
    match c w with
    | (Ok a, w') => f a w'
    | (Raise e, w') => (Raise e, w')
    end.

Definition lift {A} (r : result A) : M A := fun w => (r, w).

(** [try: body except Exception: handler]. *)
Definition try_except {A} (body : M A) (handler : exn -> M A) : M A :=
  fun w =>
    match body w with
    | (Ok a, w') => (Ok a, w')
    | (Raise e, w') => handler e w'
    end.

Notation "x <- c ;; k" := (bind c (fun x => k))
  (at level 100, c at next level, right associativity).
Notation "c ;;; k" := (bind c (fun _ => k))
  (at level 100, right associativity).

Definition emit (e : event) : M unit := fun w => (Ok tt, record w e).

Fixpoint for_each {A B} (f : A -> M B) (l : list A) : M (list B) :=
  match l with
  | [] => ret []
  | x :: l' => y <- f x ;; ys <- for_each f l' ;; ret (y :: ys)
  end.

(** ** GridCache *)

(** [f"{x:.1f}"]: the nearest tenth of the exact value, ties to even,
    with the sign of [x]. *)
Definition round_half_even (x : Q) : Z :=
  let f := Qfloor x in
  match ((x - inject_Z f) ?= 1 # 2)%Q with
  | Lt => f
  | Gt => f + 1
  | Eq => if Z.even f then f else f + 1
  end.

Definition fmt_1f (x : Q) : string :=
  let tenths := round_half_even (Qabs x * 10)%Q in
  (if Qle_bool 0 x then EmptyString else "-")
  +:+ str_int (tenths / 10) +:+ "." +:+ str_int (tenths mod 10).

Definition get_cache_key (lat_grid lon_grid : Q) : string :=
  "sunset:grid:" +:+ fmt_1f lat_grid +:+ ":" +:+ fmt_1f lon_grid.

Definition Qltb (a b : Q) : bool := negb (Qle_bool b a).

(** [redis.get]: an entry past its expiry is gone. *)
Definition redis_get (key : string) : M (option pydict) :=
  fun w =>
    match redis w !! key with
    | Some (value, expires) =>
        if Qltb (clock w) expires then (Ok (Some value), w) else (Ok None, w)
    | None => (Ok None, w)
    end.

(** [redis.setex]. *)
Definition redis_setex (key : string) (ttl : Q) (value : pydict) : M unit :=
  fun w => (Ok tt, set_redis w (<[key := (value, (clock w + ttl)%Q)]> (redis w))).

(** Pickling is the identity on the embedded value. *)
Definition get_cached_result (lat_grid lon_grid : Q) : M (option pydict) :=
  let key := get_cache_key lat_grid lon_grid in
  redis_get key.

Definition set_cached_result (lat_grid lon_grid : Q) (data : pydict) : M unit :=
  let key := get_cache_key lat_grid lon_grid in
  redis_setex key REDIS_EXPIRY data.

(** ** RateLimiter *)

Definition RateLimiter_init (calls_per_second : Z) : result RateLimiter :=
  if calls_per_second =? 0 then Raise ZeroDivisionError
  else Ok (mk_RateLimiter calls_per_second (1 / inject_Z calls_per_second)%Q 0%Q).

(** [time.time()]. *)
Definition time_time : M Q :=
  fun w => let w' := advance w 0%Q in (Ok (clock w'), w').

(** [await asyncio.sleep(d)]: at least [d], nothing for a negative [d]. *)
Definition asyncio_sleep (d : Q) : M unit :=
  fun w => (Ok tt, advance w (if Qltb 0 d then d else 0%Q)).

(** [acquire]; the lock makes the whole body one step. *)
Definition acquire : M unit :=
  now <- time_time ;;
  (fun w =>
     let self := limiter w in
     let elapsed := (now - last_call self)%Q in
     (if Qltb elapsed (min_interval self)
      then asyncio_sleep (min_interval self - elapsed)%Q
      else ret tt) w) ;;;
  granted <- time_time ;;
  (fun w =>
     let self := limiter w in
     (Ok tt, set_limiter w (mk_RateLimiter (calls_per_second self)
                                           (min_interval self) granted))) ;;;
  emit (EvAcquire granted).

(** ** FetchOrchestrator *)

(** What [session.get] and [response.json()] can come to: the request
    raises (time-out, connection error), or a response arrives whose body
    parses or does not. *)
Inductive api_outcome : Type :=
| Failed (e : exn)
| Response (status : Z) (body : result json).

(** The remote service as the session shows it: the answer to a request
    made at a given instant for a latitude and a longitude. *)
Definition Session : Type := Q -> Q -> Q -> api_outcome.

(** Python truth value of a JSON value. *)
Definition truthy (v : json) : bool :=
  match v with
  | JNull => false
  | JBool b => b
  | JNum q => negb (Qeq_bool q 0)
  | JStr s => negb (String.eqb s EmptyString)
  | JArr l => match l with [] => false | _ => true end
  | JObj d => match d with [] => false | _ => true end
  end.

(** [key in v]. *)
Definition py_in (key : string) (v : json) : result bool :=
  match v with
  | JObj d => Ok (match dict_get d key with Some _ => true | None => false end)
  | JStr s => Ok (contains s key)
  | JArr l =>
      Ok (existsb (fun x => match x with
                            | JStr s => String.eqb s key
                            | _ => false
                            end) l)
  | _ => Raise TypeError
  end.

(** [v[key]]. *)
Definition py_getitem (v : json) (key : string) : result json :=
  match v with
  | JObj d =>
      match dict_get d key with
      | Some x => Ok x
      | None => Raise KeyError
      end
  | _ => Raise TypeError
  end.

Definition request (session : Session) (lat lng : Q) : M api_outcome :=
  fun w =>
    let w' := advance (record w (EvRequest lat lng)) 0%Q in
    (Ok (session (clock w) lat lng), w').

Definition pbar_update (n : Z) : M unit := emit (EvProgress n).

Definition results_for (sunset : json) (locations : list Location)
  : list FetchResult :=
  map (fun loc => mk_FetchResult (loc_zip_code loc) sunset
                                 (loc_timezone_offset loc)) locations.

Definition fetch_grid_sunset (session : Session) (grid_lat grid_lon : Q)
                             (locations : list Location)
  : M (list FetchResult) :=
  try_except
    (cached_result <- get_cached_result grid_lat grid_lon ;;
     match cached_result with
     | Some ((_ :: _) as cached) =>
         results <- for_each (fun loc =>
                      sunset <- lift (py_getitem (JObj cached) "sunset_time") ;;
                      ret (mk_FetchResult (loc_zip_code loc) sunset
                                          (loc_timezone_offset loc)))
                    locations ;;
         pbar_update (len locations) ;;;
         ret results
     | _ =>
         acquire ;;;
         let center_lat := (grid_lat + GRID_SIZE / 2)%Q in
         let center_lon := (grid_lon + GRID_SIZE / 2)%Q in
         response <- request session center_lat center_lon ;;
         match response with
         | Failed e => lift (Raise e)
         | Response status body =>
             if negb (status =? 200) then
               emit EvPrint ;;; pbar_update (len locations) ;;; ret []
             else
               data <- lift body ;;
               missing <- lift
                 (if negb (truthy data) then Ok true
                  else rbind (py_in "results" data) (fun has_results =>
                       if negb has_results then Ok true
                       else rbind (py_getitem data "results") (fun res =>
                            rbind (py_in "sunset" res) (fun has_sunset =>
                            Ok (negb has_sunset))))) ;;
               if (missing : bool) then
                 emit EvPrint ;;; pbar_update (len locations) ;;; ret []
               else
                 sunset_time <- lift (rbind (py_getitem data "results")
                                            (fun res => py_getitem res "sunset")) ;;
                 set_cached_result grid_lat grid_lon
                                   [("sunset_time", sunset_time)] ;;;
                 pbar_update (len locations) ;;;
                 ret (results_for sunset_time locations)
         end
     end)
    (fun e =>
       emit EvPrint ;;; pbar_update (len locations) ;;; ret []).

(** [grid_items[i:i + BATCH_SIZE]] for [i] in steps of [BATCH_SIZE]; the
    fuel is the number of items. *)
Fixpoint batches {A} (fuel : nat) (grid_items : list A) : list (list A) :=
  match fuel, grid_items with
  | _, [] => []
  | O, _ :: _ => []
  | S fuel', _ :: _ =>
      firstn BATCH_SIZE grid_items :: batches fuel' (skipn BATCH_SIZE grid_items)
  end.

Definition fetch_cell (session : Session) (item : (Q * Q) * list Location)
  : M (list FetchResult) :=
  let '((grid_lat, grid_lon), locations) := item in
  fetch_grid_sunset session grid_lat grid_lon locations.

(** [await asyncio.gather] on the tasks of a batch: the fetches are
    started together and their results come back in the order of the
    tasks.  They are modelled one after the other, in that order. *)
Definition gather (session : Session) (batch : list ((Q * Q) * list Location))
  : M (list (list FetchResult)) :=
  for_each (fetch_cell session) batch.

(** The loop over the batches, with the results gathered so far. *)
Fixpoint process_batches (session : Session)
                         (todo : list (list ((Q * Q) * list Location)))
                         (results : list FetchResult)
  : M (list FetchResult) :=
  match todo with
  | [] => ret results
  | batch :: todo' =>
      batch_results <- gather session batch ;;
      process_batches session todo' (results ++ concat batch_results)%list
  end.

(** The same run, cell by cell. *)
Fixpoint process_cells (session : Session)
                       (grid_items : list ((Q * Q) * list Location))
  : M (list FetchResult) :=
  match grid_items with
  | [] => ret []
  | item :: rest =>
      grid_results <- fetch_cell session item ;;
      results <- process_cells session rest ;;
      ret (grid_results ++ results)%list
  end.

Section Run.
Variable zipcodes_matching : string -> result (list ZipRecord).
Variable timezone_at : Q -> Q -> option string.
Variable utc_offset_hours : string -> result Q.
Variable fromisoformat : string -> result time_obj.
Variable fmt_sqrt_minutes_2f : surd -> string.
Variable percentile_seconds : list Z -> Z -> Z.
Variable fmt_percentage : Z -> Z -> string.

(** [process_all_zips], up to the files it writes: the results of the run
    and, when there are any, their statistics. *)
Definition process_all_zips (ZIP_CODES : list string) (session : Session)
  : M (list FetchResult * option Statistics) :=
  batcher <- lift (prepare_batches zipcodes_matching timezone_at utc_offset_hours
                                   (GeographicBatcher_init ZIP_CODES)) ;;
  let grid_items := grid_map batcher in
  rate_limiter <- lift (RateLimiter_init 10) ;;
  (fun w => (Ok tt, set_limiter w rate_limiter)) ;;;
  results <- process_batches session (batches (length grid_items) grid_items) [] ;;
  match results with
  | [] => emit EvPrint ;;; ret (results, None)
  | _ :: _ =>
      stats <- lift (calculate_statistics fromisoformat fmt_sqrt_minutes_2f
                                          percentile_seconds fmt_percentage results) ;;
      ret (results, stats)
  end.
End Run.

(** ** Vocabulary of the statements *)

(** What the cache would answer for a cell in a given world. *)
Definition cached_at (w : World) (grid_lat grid_lon : Q) : option pydict :=
  match redis w !! get_cache_key grid_lat grid_lon with
  | Some (value, expires) => if Qltb (clock w) expires then Some value else None
  | None => None
  end.

(** The cell is served from the cache with sunset text [v]: the store has
    an unexpired entry for it, and the entry carries [v], as every entry
    the program stores carries a sunset text. *)
Definition cache_hit (w : World) (grid_lat grid_lon : Q) (v : json) : Prop :=
  exists d, cached_at w grid_lat grid_lon = Some d
            /\ dict_get d "sunset_time" = Some v.

Definition cache_miss (w : World) (grid_lat grid_lon : Q) : Prop :=
  cached_at w grid_lat grid_lon = None.

(** The sunset text of a body: a JSON object whose [results] is an object
    with a [sunset]. *)
Definition body_sunset (body : result json) : option json :=
  match body with
  | Ok (JObj d) =>
      match dict_get d "results" with
      | Some (JObj r) => dict_get r "sunset"
      | _ => None
      end
  | _ => None
  end.

(** The sunset text of a successful answer: status 200 and a body with
    [results.sunset]. *)
Definition response_sunset (o : api_outcome) : option json :=
  match o with
  | Response status body => if status =? 200 then body_sunset body else None
  | Failed _ => None
  end.

(** The three ways a fetch fails: the request raises (I/O error or
    time-out), the status is not 200, or the body lacks the field. *)
Inductive fetch_fails : api_outcome -> Prop :=
| fails_io (e : exn) : fetch_fails (Failed e)
| fails_status (status : Z) (body : result json) :
    status <> 200 -> fetch_fails (Response status body)
| fails_malformed (status : Z) (body : result json) :
    body_sunset body = None -> fetch_fails (Response status body).

(** The request a miss on a cell leads to: made once the limiter has let
    the caller through, for the centre of the cell. *)
Definition center (grid : Q) : Q := (grid + GRID_SIZE / 2)%Q.

Definition answer_at (session : Session) (w : World) (grid_lat grid_lon : Q)
  : api_outcome :=
  session (clock (snd (acquire w))) (center grid_lat) (center grid_lon).

Definition is_request (e : event) : bool :=
  match e with EvRequest _ _ => true | _ => false end.

Definition is_acquire (e : event) : bool :=
  match e with EvAcquire _ => true | _ => false end.

Definition count_events (p : event -> bool) (w : World) : nat :=
  length (filter p (trace w)).

(** Every entry of the store has the field the hit path reads. *)
Definition cache_wf (w : World) : Prop :=
  forall key d expires,
    redis w !! key = Some (d, expires) ->
    exists v, dict_get d "sunset_time" = Some v.

Definition delays_ok (w : World) : Prop := Forall (fun d => 0 <= d)%Q (future w).

Section BatcherVocabulary.
Variable zipcodes_matching : string -> result (list ZipRecord).
Variable timezone_at : Q -> Q -> option string.

(** Resolution fails: the code is not in the database, or no time zone is
    known for its coordinates.  An excluded region is a filter, not a
    failure. *)
Definition resolution_fails (zip_code : string) : bool :=
  match zipcodes_matching zip_code with
  | Ok [] => true
  | Ok (location :: _) =>
      _is_contiguous_us location &&
      match timezone_at (zr_lat location) (zr_long location) with
      | None => true
      | Some timezone_str => String.eqb timezone_str EmptyString
      end
  | Raise _ => false
  end.
End BatcherVocabulary.

Definition placed (grid_map : list ((Q * Q) * list Location)) : list Location :=
  concat (map snd grid_map).

(** The scenario of the statistics tests. *)
Definition scenario : list FetchResult :=
  [ mk_FetchResult "A" (JStr "7:00:00 PM") (-4 # 1);
    mk_FetchResult "B" (JStr "7:30:00 PM") (-4 # 1);
    mk_FetchResult "C" (JStr "8:00:00 PM") (-5 # 1) ].

(** Bounded enumeration over [Z]. *)
Fixpoint all_below (P : Z -> Prop) (n : nat) : Prop :=
  match n with
  | O => True
  | S n' => all_below P n' /\ P (Z.of_nat n')
  end.

Definition alts_of (d : ascii) : list (list (ascii -> bool)) :=
  match directive d with
  | Some (IGroup _ alts) => alts
  | _ => []
  end.

(** What a two-digit field does under a group whose last alternative is a
    single digit: first both digits, then, on failure, the first digit
    alone. *)
Definition two_digit_shape (name : ascii) (n : Z) : Prop :=
  forall (k : string -> option (captures * string)) (rest : string),
    try_alts k name (alts_of name) (fmt_0d 2 n +:+ rest) =
    match k rest with
    | Some (caps, r) => Some ((name, fmt_0d 2 n) :: caps, r)
    | None => try_alts k name [[is_digit]] (fmt_0d 2 n +:+ rest)
    end.

(** A continuation that gives up on a digit. *)
Definition rejects_digits (k : string -> option (captures * string)) : Prop :=
  forall d r, is_digit d = true -> k (String d r) = None.

Definition tail_24h (m c : Z) : string :=
  String ":" (fmt_0d 2 m +:+ String ":" (fmt_0d 2 c +:+ EmptyString)).

(** The world after [acquire], written out. *)
Definition after_acquire (w : World) : World :=
  let w1 := advance w 0%Q in
  let elapsed := (clock w1 - last_call (limiter w))%Q in
  let w2 := if Qltb elapsed (min_interval (limiter w))
            then advance w1 (if Qltb 0 (min_interval (limiter w) - elapsed)
                             then (min_interval (limiter w) - elapsed)%Q else 0%Q)
            else w1 in
  let w3 := advance w2 0%Q in
  record (set_limiter w3 (mk_RateLimiter (calls_per_second (limiter w))
                                         (min_interval (limiter w)) (clock w3)))
         (EvAcquire (clock w3)).

(** Each element is at least [m] after the one before, starting from
    [prev]. *)
Fixpoint spaced_from (m prev : Q) (l : list Q) : Prop :=
  match l with
  | [] => True
  | g :: l' => (prev + m <= g)%Q /\ spaced_from m g l'
  end.

(** A fresh limiter for ten calls a second in a world whose clock reads
    1000, with a few delays to come. *)
Definition limiter_10 : RateLimiter := mk_RateLimiter 10 (1 / inject_Z 10)%Q 0%Q.

Definition world_0 : World :=
  mk_World ∅ 1000%Q [1 # 100; 0; 0; 1 # 20; 0; 3 # 10]%Q limiter_10 [].

(** The world once a miss on a cell has sent its request. *)
Definition after_request (w : World) (grid_lat grid_lon : Q) : World :=
  advance (record (after_acquire w)
                  (EvRequest (center grid_lat) (center grid_lon))) 0%Q.

(** The same world with the sunset text [v] stored for the cell. *)
Definition after_store (w : World) (grid_lat grid_lon : Q) (v : json) : World :=
  let w2 := after_request w grid_lat grid_lon in
  set_redis w2 (<[get_cache_key grid_lat grid_lon :=
                    ([("sunset_time", v)], (clock w2 + REDIS_EXPIRY)%Q)]> (redis w2)).

(** Worlds, sessions and databases used as examples. *)
Definition sunset_730 : json := JStr "7:30:00 PM".

Definition world_hit : World :=
  mk_World {[ get_cache_key 40 (-75) := ([("sunset_time", sunset_730)], 2000%Q) ]}
           1000%Q [] limiter_10 [].

Definition session_ok : Session :=
  fun _ _ _ => Response 200 (Ok (JObj [("results", JObj [("sunset", sunset_730)])])).

Definition session_timeout : Session := fun _ _ _ => Failed ClientError.

Definition five_locations : list Location :=
  [ mk_Location "19101" (3995 # 100) (-7516 # 100) (-4 # 1);
    mk_Location "19102" (3995 # 100) (-7517 # 100) (-4 # 1);
    mk_Location "19103" (3995 # 100) (-7517 # 100) (-4 # 1);
    mk_Location "19104" (3996 # 100) (-7520 # 100) (-4 # 1);
    mk_Location "19106" (3995 # 100) (-7514 # 100) (-4 # 1) ].

Definition db_unknown : string -> result (list ZipRecord) := fun _ => Ok [].

Definition db_alaska : string -> result (list ZipRecord) :=
  fun _ => Ok [mk_ZipRecord (Some "AK") (6122 # 100) (-14986 # 100)].

Definition db_philadelphia : string -> result (list ZipRecord) :=
  fun z => if String.eqb z "19101"
           then Ok [mk_ZipRecord (Some "PA") (3995 # 100) (-7516 # 100)]
           else Ok [].

Definition tz_eastern : Q -> Q -> option string := fun _ _ => Some "America/New_York".

Definition offset_minus_4 : string -> result Q := fun _ => Ok (-4 # 1)%Q.

(** ** Further vocabulary *)

(** The 12-hour text of a time, as the API gives it: the hour without a
    leading zero, then minutes, seconds and the meridiem. *)
Definition text_12h (h m c : Z) (meridiem : string) : string :=
  str_int h +:+ String ":" (fmt_0d 2 m +:+ String ":"
    (fmt_0d 2 c +:+ String " " meridiem)).

(** The text holds the character. *)
Fixpoint has_char (c : ascii) (s : string) : bool :=
  match s with
  | EmptyString => false
  | String a s' => Ascii.eqb a c || has_char c s'
  end.

(** The same world read at another instant. *)
Definition at_clock (w : World) (t : Q) : World :=
  mk_World (redis w) t (future w) (limiter w) (trace w).

(** What the progress bar has been advanced by, in all. *)
Definition progress_of (e : event) : Z :=
  match e with
  | EvProgress n => n
  | _ => 0
  end.

Definition progress_total (w : World) : Z := sum_Z (map progress_of (trace w)).

(** The locations of a grid map, counted ([total_locations] of the run). *)
Definition total_in (grid_items : list ((Q * Q) * list Location)) : Z :=
  sum_Z (map (fun item => len (snd item)) grid_items).

Definition is_text (v : json) : bool :=
  match v with
  | JStr _ => true
  | _ => false
  end.

(** A store whose entry for the cell lacks the field the hit path reads. *)
Definition world_poisoned : World :=
  mk_World {[ get_cache_key 40 (-75) := ([("sunset", sunset_730)], 2000%Q) ]}
           1000%Q [] limiter_10 [].

Definition session_null : Session :=
  fun _ _ _ => Response 200 (Ok (JObj [("results", JObj [("sunset", JNull)])])).

(** The world after the five locations were fetched from the API. *)
Definition world_fetched : World :=
  snd (fetch_grid_sunset session_ok 40 (-75) five_locations world_0).

(** The cell a location falls in, and whether it falls in a given cell. *)
Definition cell_of (loc : Location) : Q * Q :=
  _get_grid_coordinates (loc_lat loc) (loc_lon loc).

Definition in_cell (cell : Q * Q) (loc : Location) : bool :=
  cell_eqb cell (cell_of loc).

(** No two entries of a grid map have the same cell. *)
Fixpoint keys_distinct (grid_map : list ((Q * Q) * list Location)) : Prop :=
  match grid_map with
  | [] => True
  | (cell, _) :: grid_map' =>
      (forall cell' locs', In (cell', locs') grid_map' -> cell_eqb cell cell' = false)
      /\ keys_distinct grid_map'
  end.

(** A grid map sorts the locations [added] by cell: every entry holds the
    locations of its cell, in the order they were added, and has at least
    one; every location added has the entry of its cell. *)
Definition sorts_by_cell (grid_map : list ((Q * Q) * list Location))
                         (added : list Location) : Prop :=
  keys_distinct grid_map
  /\ (forall cell locs, In (cell, locs) grid_map ->
        locs <> [] /\ locs = List.filter (in_cell cell) added)
  /\ (forall loc, In loc added ->
        exists cell locs, In (cell, locs) grid_map /\ in_cell cell loc = true).

Section ResolvedVocabulary.
Variable zipcodes_matching : string -> result (list ZipRecord).
Variable timezone_at : Q -> Q -> option string.
Variable utc_offset_hours : string -> result Q.

(** The locations of the codes that resolve, in the order of the codes. *)
Fixpoint resolved (codes : list string) : list Location :=
  match codes with
  | [] => []
  | zip_code :: codes' =>
      match locate zipcodes_matching timezone_at utc_offset_hours zip_code with
      | Ok (Some loc) => loc :: resolved codes'
      | _ => resolved codes'
      end
  end.

End ResolvedVocabulary.

(** The location [prepare_batches] builds for Philadelphia's code. *)
Definition philadelphia : Location :=
  mk_Location "19101" (3995 # 100) (-7516 # 100) (-4 # 1).

(** A database that refuses a malformed code, as [zipcodes.matching]
    does. *)
Definition db_strict : string -> result (list ZipRecord) :=
  fun z => if String.eqb z "1910" then Raise ValueError else db_philadelphia z.

(** A database of two cities and one Alaskan code. *)
Definition db_cities : string -> result (list ZipRecord) :=
  fun z => if String.eqb z "10001"
           then Ok [mk_ZipRecord (Some "NY") (4075 # 100) (-7399 # 100)]
           else if String.eqb z "99501"
           then Ok [mk_ZipRecord (Some "AK") (6122 # 100) (-14986 # 100)]
           else db_philadelphia z.

Definition new_york : Location :=
  mk_Location "10001" (4075 # 100) (-7399 # 100) (-4 # 1).

Definition codes_cities : list string := ["19101"; "99501"; "10001"].

Definition batcher_cities : GeographicBatcher :=
  mk_GeographicBatcher codes_cities
    [((39%Q, (-76)%Q), [philadelphia]); ((40%Q, (-74)%Q), [new_york])].

(** The counts a summary reports, added up over the hours and over the
    time-zone groups. *)
Definition hour_total (st : Statistics) : Z :=
  sum_Z (map (fun h => hour_count (snd h)) (hour_distribution st)).

Definition timezone_total (st : Statistics) : Z :=
  sum_Z (map (fun g => tz_count (snd g)) (timezone_analysis st)).

(** ** The web application (app/app.py) *)

(** [results_cache]; [JNull] in [last_run] is Python's [None]. *)
Record ResultsCache : Type := mk_ResultsCache {
  processing : bool;
  last_run : json;
  error : option string
}.

(** What [jsonify] is given: a status with a message, a status with data
    (the status is then "success"), or the report of [get_status]. *)
Inductive reply_body : Type :=
| Message (status message : string)
| Data (data : json)
| StatusReport (processing : bool) (error : option string) (has_results : bool).

Record Reply : Type := mk_Reply {
  payload : reply_body;
  status_code : Z
}.

(** The server between two requests: the cache of the module, the file
    [sunset_summary.json] (absent, or holding what [json.load] reads from
    it) and the world the runs act on.  Requests are served one at a
    time. *)
Record Server : Type := mk_Server {
  results_cache : ResultsCache;
  summary_file : option json;
  world : World
}.

Definition results_cache_init : ResultsCache := mk_ResultsCache false JNull None.

(** [str(e)] for the [FileNotFoundError] of [open]. *)
Definition file_not_found : string :=
  "[Errno 2] No such file or directory: 'sunset_summary.json'".

Definition is_null (v : json) : bool :=
  match v with JNull => true | _ => false end.

Section App.
Variable zipcodes_matching : string -> result (list ZipRecord).
Variable timezone_at : Q -> Q -> option string.
Variable utc_offset_hours : string -> result Q.
Variable fromisoformat : string -> result time_obj.
Variable fmt_sqrt_minutes_2f : surd -> string.
Variable percentile_seconds : list Z -> Z -> Z.
Variable fmt_percentage : Z -> Z -> string.

(** The values of the three keys of the summary as [json.load] reads them
    back after [json.dump]: they render the results, the statistics, the
    constants and the time stamp of the run.  [str_of_exception] is
    [str(e)]. *)
Variable rendered : World -> list FetchResult -> option Statistics -> json * json * json.
Variable str_of_exception : exn -> string.

(** The [summary] dict of [process_all_zips]. *)
Definition summary_of (w : World) (results : list FetchResult)
                      (stats : option Statistics) : json :=
  let '(data_summary, sunset_statistics, processing_info) := rendered w results stats in
  JObj [("data_summary", data_summary);
        ("sunset_statistics", sunset_statistics);
        ("processing_info", processing_info)].

(** [start_processing].  The run writes the summary file only when it has
    results; an exception of the run, or of [open], ends in the handler. *)
Definition start_processing (ZIP_CODES : list string) (session : Session)
                            (s : Server) : Reply * Server :=
  let cache := results_cache s in
  if processing cache
  then (mk_Reply (Message "error" "Processing is already in progress") 409, s)
  else
    let cache := mk_ResultsCache true (last_run cache) None in
    let '(outcome, w') :=
      process_all_zips zipcodes_matching timezone_at utc_offset_hours fromisoformat
                       fmt_sqrt_minutes_2f percentile_seconds fmt_percentage
                       ZIP_CODES session (world s) in
    match outcome with
    | Raise e =>
        (mk_Reply (Message "error" (str_of_exception e)) 500,
         mk_Server (mk_ResultsCache false (last_run cache) (Some (str_of_exception e)))
                   (summary_file s) w')
    | Ok (results, stats) =>
        let file := match results with
                    | [] => summary_file s
                    | _ :: _ => Some (summary_of w' results stats)
                    end in
        match file with
        | None =>
            (mk_Reply (Message "error" file_not_found) 500,
             mk_Server (mk_ResultsCache false (last_run cache) (Some file_not_found))
                       file w')
        | Some results =>
            (mk_Reply (Data results) 200,
             mk_Server (mk_ResultsCache false results (error cache)) file w')
        end
    end.
End App.

(** [get_status]. *)
Definition get_status (s : Server) : Reply :=
  let cache := results_cache s in
  mk_Reply (StatusReport (processing cache) (error cache)
                         (negb (is_null (last_run cache)))) 200.

(** [get_results]. *)
Definition get_results (s : Server) : Reply :=
  let cache := results_cache s in
  if negb (truthy (last_run cache))
  then mk_Reply (Message "error" "No results available") 404
  else mk_Reply (Data (last_run cache)) 200.

(** A server that has served nothing yet, and one that finds the summary
    of an earlier run on disk. *)
Definition server_0 : Server := mk_Server results_cache_init None world_0.

Definition server_stale : Server :=
  mk_Server results_cache_init (Some (JObj [("data_summary", JStr "yesterday")])) world_0.

(** ** RateLimiter on the stamps the source computes with *)

(** The source reads [time.time()], a double, and subtracts doubles.  The
    clock of the world is the real instant; [stamp t] is the double read
    at the instant [t], and [fl x] is the double a difference or quotient
    [x] is rounded to.  With the identity for both, this is [acquire]. *)
Section StampedClock.
Variable stamp : Q -> Q.
Variable fl : Q -> Q.

Definition RateLimiter_init_stamped (calls_per_second : Z) : result RateLimiter :=
  if calls_per_second =? 0 then Raise ZeroDivisionError
  else Ok (mk_RateLimiter calls_per_second (fl (1 / inject_Z calls_per_second))%Q 0%Q).

Definition time_time_stamped : M Q :=
  fun w => let w' := advance w 0%Q in (Ok (stamp (clock w')), w').

Definition acquire_stamped : M unit :=
  now <- time_time_stamped ;;
  (fun w =>
     let self := limiter w in
     let elapsed := fl (now - last_call self)%Q in
     (if Qltb elapsed (min_interval self)
      then asyncio_sleep (fl (min_interval self - elapsed))%Q
      else ret tt) w) ;;;
  granted <- time_time_stamped ;;
  (fun w =>
     let self := limiter w in
     (Ok tt, set_limiter w (mk_RateLimiter (calls_per_second self)
                                           (min_interval self) granted))) ;;;
  emit (EvAcquire granted).

(** The world after one call, written out. *)
Definition after_acquire_stamped (w : World) : World :=
  let w1 := advance w 0%Q in
  let elapsed := fl (stamp (clock w1) - last_call (limiter w))%Q in
  let w2 := if Qltb elapsed (min_interval (limiter w))
            then advance w1 (if Qltb 0 (fl (min_interval (limiter w) - elapsed))
                             then fl (min_interval (limiter w) - elapsed)%Q else 0%Q)
            else w1 in
  let w3 := advance w2 0%Q in
  record (set_limiter w3 (mk_RateLimiter (calls_per_second (limiter w))
                                         (min_interval (limiter w)) (stamp (clock w3))))
         (EvAcquire (stamp (clock w3))).

(** [n] calls in a row: for each, the instant at which it returns and the
    stamp the limiter keeps for it. *)
Fixpoint acquires_stamped (n : nat) (w : World) : list (Q * Q) * World :=
  match n with
  | O => ([], w)
  | S n' =>
      let w1 := snd (acquire_stamped w) in
      let '(served, w2) := acquires_stamped n' w1 in
      ((clock w1, last_call (limiter w1)) :: served, w2)
  end.
End StampedClock.

(** The doubles between 2^30 and 2^31, where the stamps of these years
    lie, are the multiples of 2^-22: the nearest one to an instant (a tie
    goes up).  A tenth of a second is 419430.4 such steps, so the stamp
    read 0.1 s after a whole second is 419430 steps after it. *)
Definition stamp_near (t : Q) : Q :=
  (inject_Z (Qfloor (t * inject_Z (2 ^ 22) + (1 # 2))) / inject_Z (2 ^ 22))%Q.

Definition exact (x : Q) : Q := x.

(** A limiter of ten calls a second that has just granted a call, at an
    instant of these years, with no delay from the environment; and the
    same with a few delays. *)
Definition world_now : World :=
  mk_World ∅ 1700000000%Q []
           (mk_RateLimiter 10 (1 / inject_Z 10)%Q 1700000000%Q) [].

Definition world_busy : World :=
  mk_World ∅ 1700000000%Q [1 # 100; 0; 0; 1 # 20; 0; 3 # 10]%Q
           (mk_RateLimiter 10 (1 / inject_Z 10)%Q 0%Q) [].

(** A fresh limiter at an instant of these years, with no delay from the
    environment. *)
Definition world_idle : World := mk_World ∅ 1700000000%Q [] limiter_10 [].

(** A world whose clock is set back by a twentieth of a second while the
    second call sleeps. *)
Definition world_set_back : World :=
  mk_World ∅ 1000%Q [0; 0; 0; -(1 # 20); 0]%Q limiter_10 [].

(** * Properties *)

(** ** Auxiliary facts *)

Lemma all_below_spec (P : Z -> Prop) (n : nat) :
  all_below P n -> forall z, 0 <= z < Z.of_nat n -> P z.
Proof.
  induction n as [|n IH]; intros Hall z Hz.
  - exfalso; lia.
  - destruct Hall as [Hrest Hlast].
    destruct (Z.eq_dec z (Z.of_nat n)) as [->|Hne]; [exact Hlast|].
    apply IH; [exact Hrest | lia].
Qed.

Ltac enumerate_below n :=
  match goal with
  | |- forall z, 0 <= z < ?b -> @?P z =>
      apply (all_below_spec P n); cbn [all_below]; repeat split
  end.

Lemma group_H_shape : forall h, 0 <= h < 24 -> two_digit_shape "H" h.
Proof.
  enumerate_below 24%nat; intros k rest; vm_compute;
    destruct (k rest) as [[? ?]|]; reflexivity.
Qed.

Lemma group_M_shape : forall m, 0 <= m < 60 -> two_digit_shape "M" m.
Proof.
  enumerate_below 60%nat; intros k rest; vm_compute;
    destruct (k rest) as [[? ?]|]; reflexivity.
Qed.

Lemma group_S_shape : forall s, 0 <= s < 60 -> two_digit_shape "S" s.
Proof.
  enumerate_below 60%nat; intros k rest; vm_compute;
    destruct (k rest) as [[? ?]|]; reflexivity.
Qed.

Lemma single_digit_fallback name :
  forall n, 0 <= n < 60 ->
    forall k rest, rejects_digits k ->
      try_alts k name [[is_digit]] (fmt_0d 2 n +:+ rest) = None.
Proof.
  enumerate_below 60%nat; intros k rest Hk; vm_compute;
    rewrite Hk by reflexivity; reflexivity.
Qed.

Lemma two_digit_fails name n k rest :
  0 <= n < 60 -> two_digit_shape name n -> rejects_digits k -> k rest = None ->
  try_alts k name (alts_of name) (fmt_0d 2 n +:+ rest) = None.
Proof.
  intros Hn Hshape Hk Hrest. rewrite Hshape, Hrest.
  apply single_digit_fallback; assumption.
Qed.

Lemma two_digit_matches name n k rest caps r :
  two_digit_shape name n -> k rest = Some (caps, r) ->
  try_alts k name (alts_of name) (fmt_0d 2 n +:+ rest)
  = Some ((name, fmt_0d 2 n) :: caps, r).
Proof. intros Hshape Hrest. rewrite Hshape, Hrest. reflexivity. Qed.

(** The 12-hour group on a two-digit hour: whatever it takes, a digit or
    the given rest is what the continuation sees. *)
Lemma group_I_fails :
  forall h, 0 <= h < 24 ->
    forall k rest, rejects_digits k -> k rest = None ->
      try_alts k "I" (alts_of "I") (fmt_0d 2 h +:+ rest) = None.
Proof.
  enumerate_below 24%nat; intros k rest Hk Hrest; vm_compute;
    rewrite ?Hrest; rewrite ?Hk by reflexivity; reflexivity.
Qed.

Lemma colon_rejects_digits p : rejects_digits (re_match (ILit ":" :: p)).
Proof.
  intros d r Hd. cbn [re_match].
  replace (ci_eqb ":" d) with false; [reflexivity|].
  symmetry. revert Hd. destruct d as [[] [] [] [] [] [] [] []]; vm_compute; congruence.
Qed.

Lemma ws_rejects_digits p : rejects_digits (re_match (IWs :: p)).
Proof.
  intros d r Hd. cbn [re_match]. unfold ws_plus.
  replace (is_space d) with false; [reflexivity|].
  symmetry. revert Hd. destruct d as [[] [] [] [] [] [] [] []]; vm_compute; congruence.
Qed.

Lemma int_of_fmt_0d_2 : forall n, 0 <= n < 60 -> int_of_digits (fmt_0d 2 n) = n.
Proof. enumerate_below 60%nat; reflexivity. Qed.

Lemma datetime_new_ok h m s :
  time_fields_ok h m s = true ->
  exists t, datetime_new h m s = Ok t /\ hour t = h /\ minute t = m /\ second t = s.
Proof.
  intros Hok. unfold datetime_new.
  destruct (bool_dec (time_fields_ok h m s) true) as [ok|bad]; [|contradiction].
  eexists; repeat split.
Qed.

Lemma seconds_of_range t : 0 <= seconds_of t <= 86399.
Proof.
  destruct t as [h m s ok]. unfold seconds_of, time_fields_ok in *. cbn.
  repeat (apply andb_prop in ok; destruct ok as [ok ?]). lia.
Qed.

Lemma append_empty_r (s : string) : s +:+ EmptyString = s.
Proof.
  induction s as [|a s IH]; [reflexivity|].
  change (String a s +:+ EmptyString) with (String a (s +:+ EmptyString)). now rewrite IH.
Qed.

Lemma seconds_to_time_fields s :
  0 <= s <= 86399 ->
  exists h m c,
    0 <= h < 24 /\ 0 <= m < 60 /\ 0 <= c < 60 /\ s = h * 3600 + m * 60 + c /\
    seconds_to_time s = fmt_0d 2 h +:+ tail_24h m c.
Proof.
  intros Hs. exists ((s / 3600) mod 24), ((s mod 3600) / 60), (s mod 60).
  assert (0 <= s / 3600 < 24)
    by (split; [apply Z.div_pos | apply Z.div_lt_upper_bound]; lia).
  assert (0 <= s mod 3600 < 3600) by (apply Z.mod_pos_bound; lia).
  assert (0 <= (s mod 3600) / 60 < 60)
    by (split; [apply Z.div_pos | apply Z.div_lt_upper_bound]; lia).
  assert (0 <= s mod 60 < 60) by (apply Z.mod_pos_bound; lia).
  rewrite (Z.mod_small (s / 3600) 24) by lia.
  repeat split; try lia.
  - pose proof (Z.div_mod s 3600 ltac:(lia)).
    pose proof (Z.div_mod (s mod 3600) 60 ltac:(lia)).
    assert ((s mod 3600) mod 60 = s mod 60).
    { apply Z.mod_mod_divide. exists 60; lia. }
    lia.
  - unfold seconds_to_time. rewrite (Z.mod_small (s / 3600) 24) by lia.
    unfold tail_24h. rewrite append_empty_r. reflexivity.
Qed.

(** The matcher's equations, one per kind of item. *)
Lemma re_match_group name alts p s :
  re_match (IGroup name alts :: p) s = try_alts (re_match p) name alts s.
Proof. reflexivity. Qed.

Lemma re_match_colon p s : re_match (ILit ":" :: p) (String ":" s) = re_match p s.
Proof. reflexivity. Qed.

Lemma re_match_ws_empty p : re_match (IWs :: p) EmptyString = None.
Proof. reflexivity. Qed.

Lemma re_match_end s : re_match [] s = Some ([], s).
Proof. reflexivity. Qed.

Lemma strptime_24h_of_fields h m c :
  0 <= h < 24 -> 0 <= m < 60 -> 0 <= c < 60 ->
  exists t,
    strptime (fmt_0d 2 h +:+ tail_24h m c) "%H:%M:%S" = Ok t
    /\ seconds_of t = h * 3600 + m * 60 + c.
Proof.
  intros Hh Hm Hc.
  assert (Hmatch :
    re_match [IGroup "H" (alts_of "H"); ILit ":"; IGroup "M" (alts_of "M");
              ILit ":"; IGroup "S" (alts_of "S")] (fmt_0d 2 h +:+ tail_24h m c)
    = Some ([("H"%char, fmt_0d 2 h); ("M"%char, fmt_0d 2 m); ("S"%char, fmt_0d 2 c)],
            EmptyString)).
  { rewrite re_match_group.
    apply two_digit_matches; [apply group_H_shape; exact Hh|].
    unfold tail_24h. rewrite re_match_colon, re_match_group.
    apply two_digit_matches; [apply group_M_shape; exact Hm|].
    rewrite re_match_colon, re_match_group.
    apply two_digit_matches; [apply group_S_shape; exact Hc|].
    apply re_match_end. }
  unfold strptime.
  change (pattern "%H:%M:%S")
    with (Some [IGroup "H" (alts_of "H"); ILit ":"; IGroup "M" (alts_of "M");
                ILit ":"; IGroup "S" (alts_of "S")]).
  cbv beta match. rewrite Hmatch.
  unfold found_hour, found_field. cbn [found_get Ascii.eqb Bool.eqb].
  rewrite !int_of_fmt_0d_2 by lia.
  destruct (datetime_new_ok h m c) as (t & -> & Eh & Em & Ec).
  - unfold time_fields_ok. repeat (apply andb_true_intro; split); lia.
  - exists t. split; [reflexivity|]. unfold seconds_of. now rewrite Eh, Em, Ec.
Qed.

Lemma strptime_12h_of_fields h m c :
  0 <= h < 24 -> 0 <= m < 60 -> 0 <= c < 60 ->
  strptime (fmt_0d 2 h +:+ tail_24h m c) "%I:%M:%S %p" = Raise ValueError.
Proof.
  intros Hh Hm Hc.
  assert (Hmatch :
    re_match [IGroup "I" (alts_of "I"); ILit ":"; IGroup "M" (alts_of "M");
              ILit ":"; IGroup "S" (alts_of "S"); IWs; IGroup "p" (alts_of "p")]
             (fmt_0d 2 h +:+ tail_24h m c) = None).
  { rewrite re_match_group.
    apply group_I_fails; [exact Hh | apply colon_rejects_digits |].
    unfold tail_24h. rewrite re_match_colon, re_match_group.
    apply two_digit_fails;
      [lia | apply group_M_shape; exact Hm | apply colon_rejects_digits |].
    rewrite re_match_colon, re_match_group.
    apply two_digit_fails;
      [exact Hc | apply group_S_shape; exact Hc | apply ws_rejects_digits |].
    apply re_match_ws_empty. }
  unfold strptime.
  change (pattern "%I:%M:%S %p")
    with (Some [IGroup "I" (alts_of "I"); ILit ":"; IGroup "M" (alts_of "M");
                ILit ":"; IGroup "S" (alts_of "S"); IWs; IGroup "p" (alts_of "p")]).
  cbv beta match. now rewrite Hmatch.
Qed.

Section RoundTrip.
Variable fromisoformat : string -> result time_obj.

(** C4. Re-parsing the text of [seconds_to_time] gives the seconds back,
    for every [s] from 0 to 86399: the 12-hour attempt rejects the text
    and the 24-hour attempt reads the three fields. *)
Theorem time_to_seconds_seconds_to_time (s : Z) :
  0 <= s <= 86399 ->
  time_to_seconds fromisoformat (JStr (seconds_to_time s)) = Ok s.
Proof.
  intros Hs.
  destruct (seconds_to_time_fields s Hs) as (h & m & c & Hh & Hm & Hc & -> & ->).
  unfold time_to_seconds.
  rewrite strptime_12h_of_fields by assumption.
  destruct (strptime_24h_of_fields h m c Hh Hm Hc) as (t & -> & Ht).
  now rewrite Ht.
Qed.
End RoundTrip.

Lemma time_to_seconds_seconds_to_time_witness :
  0 <= 69600 <= 86399 /\
  time_to_seconds (fun _ => Raise ValueError) (JStr (seconds_to_time 69600)) = Ok 69600.
Proof.
  split; [lia|]. apply time_to_seconds_seconds_to_time. lia.
Defined.

Section TimeOfDay.
Variable fromisoformat : string -> result time_obj.

(** C10. Whatever [time_to_seconds] returns is a time of day in seconds,
    from 0 to 86399, whichever of the three formats accepted the text:
    each path ends in the fields of a validated time object. *)
Theorem time_to_seconds_range (time_str : json) (v : Z) :
  time_to_seconds fromisoformat time_str = Ok v -> 0 <= v <= 86399.
Proof.
  unfold time_to_seconds. destruct time_str as [| | |text| |]; try discriminate.
  destruct (strptime text "%I:%M:%S %p") as [t|[]]; try discriminate.
  - intros [= <-]. apply seconds_of_range.
  - destruct (strptime text "%H:%M:%S") as [t|[]]; try discriminate.
    + intros [= <-]. apply seconds_of_range.
    + destruct (fromisoformat _) as [t|e]; cbn; [|discriminate].
      intros [= <-]. apply seconds_of_range.
Qed.
End TimeOfDay.

Lemma time_to_seconds_range_witness :
  time_to_seconds (fun _ => Raise ValueError) (JStr "7:03:48 PM") = Ok 68628
  /\ 0 <= 68628 <= 86399.
Proof.
  assert (H : time_to_seconds (fun _ => Raise ValueError) (JStr "7:03:48 PM")
              = Ok 68628) by reflexivity.
  split; [exact H|].
  exact (time_to_seconds_range (fun _ => Raise ValueError) (JStr "7:03:48 PM") 68628 H).
Defined.

(** The regular expression lets a second of 60 through; the constructor
    does not, and no other format takes the text. *)
Example leap_second_is_refused :
  time_to_seconds (fun _ => Raise ValueError) (JStr "7:00:60 PM") = Raise ValueError.
Proof. reflexivity. Qed.

Example cross_format_equivalence :
  time_to_seconds (fun _ => Raise ValueError) (JStr "7:30:00 PM") = Ok 70200
  /\ time_to_seconds (fun _ => Raise ValueError) (JStr "19:30:00") = Ok 70200.
Proof. split; reflexivity. Qed.

(** ** GridKeyer *)

Lemma floor_cell_bounds (x : Q) :
  (np_floor (x / GRID_SIZE) * GRID_SIZE <= x
   /\ x < np_floor (x / GRID_SIZE) * GRID_SIZE + GRID_SIZE)%Q.
Proof.
  unfold np_floor, GRID_SIZE.
  assert (Hx : (x / 1 == x)%Q) by (field).
  pose proof (Qfloor_le (x / 1)) as Hle.
  pose proof (Qlt_floor (x / 1)) as Hlt.
  rewrite inject_Z_plus in Hlt. change (inject_Z 1) with 1%Q in Hlt.
  rewrite Hx in Hle at 2. rewrite Hx in Hlt at 1.
  split; lra.
Qed.

Lemma floor_cell_unique (x : Q) (i : Z) :
  (inject_Z i * GRID_SIZE <= x /\ x < inject_Z i * GRID_SIZE + GRID_SIZE)%Q ->
  i = Qfloor (x / GRID_SIZE).
Proof.
  unfold GRID_SIZE. intros [Hle Hlt].
  assert (Hx : (x / 1 == x)%Q) by field.
  pose proof (Qfloor_le (x / 1)) as Fle.
  pose proof (Qlt_floor (x / 1)) as Flt.
  rewrite inject_Z_plus in Flt. change (inject_Z 1) with 1%Q in Flt.
  rewrite Hx in Fle at 2. rewrite Hx in Flt at 1.
  set (f := Qfloor (x / 1)) in *.
  assert (H1 : (inject_Z i < inject_Z (f + 1))%Q).
  { rewrite inject_Z_plus. change (inject_Z 1) with 1%Q. lra. }
  assert (H2 : (inject_Z f < inject_Z (i + 1))%Q).
  { rewrite inject_Z_plus. change (inject_Z 1) with 1%Q. lra. }
  rewrite <- Zlt_Qlt in H1, H2. lia.
Qed.

Lemma np_floor_comp (x y : Q) : (x == y)%Q -> np_floor x = np_floor y.
Proof. intros H. unfold np_floor. now rewrite (Qfloor_comp _ _ H). Qed.

(** C6. The cell of a coordinate pair is the corner [floor(x / step) *
    step] of the grid for each coordinate, a whole number of steps; it
    contains the pair, the corner being at or below the coordinate and
    less than one step away; it is the only cell of the grid that does;
    and it depends on nothing but the values of the two coordinates. *)
Theorem grid_cell_contains (lat lon : Q) :
  let '(cellLat, cellLon) := _get_grid_coordinates lat lon in
  (cellLat = (inject_Z (Qfloor (lat / GRID_SIZE)) * GRID_SIZE)%Q
   /\ cellLon = (inject_Z (Qfloor (lon / GRID_SIZE)) * GRID_SIZE)%Q)
  /\ (cellLat <= lat /\ lat < cellLat + GRID_SIZE
      /\ cellLon <= lon /\ lon < cellLon + GRID_SIZE)%Q
  /\ (forall i j : Z,
        (inject_Z i * GRID_SIZE <= lat /\ lat < inject_Z i * GRID_SIZE + GRID_SIZE)%Q ->
        (inject_Z j * GRID_SIZE <= lon /\ lon < inject_Z j * GRID_SIZE + GRID_SIZE)%Q ->
        ((inject_Z i * GRID_SIZE)%Q, (inject_Z j * GRID_SIZE)%Q) = (cellLat, cellLon))
  /\ (forall lat' lon' : Q,
        (lat' == lat)%Q -> (lon' == lon)%Q ->
        _get_grid_coordinates lat' lon' = (cellLat, cellLon)).
Proof.
  unfold _get_grid_coordinates.
  destruct (floor_cell_bounds lat) as [? ?], (floor_cell_bounds lon) as [? ?].
  split; [split; reflexivity|]. split; [repeat split; assumption|]. split.
  - intros i j Hi Hj.
    rewrite (floor_cell_unique lat i Hi), (floor_cell_unique lon j Hj). reflexivity.
  - intros lat' lon' Hlat Hlon.
    assert (Ha : (lat' / GRID_SIZE == lat / GRID_SIZE)%Q) by now rewrite Hlat.
    assert (Hb : (lon' / GRID_SIZE == lon / GRID_SIZE)%Q) by now rewrite Hlon.
    now rewrite (np_floor_comp _ _ Ha), (np_floor_comp _ _ Hb).
Qed.

(** The identity is no such function: a point off the grid is not its own
    cell. *)
Example grid_cell_is_not_the_point :
  _get_grid_coordinates (407128 # 10000) (-740060 # 10000)
  <> ((407128 # 10000)%Q, (-740060 # 10000)%Q).
Proof. discriminate. Qed.

Example grid_cell_of_new_york :
  _get_grid_coordinates (407128 # 10000) (-740060 # 10000) = (40%Q, (-75)%Q).
Proof. reflexivity. Qed.

(** ** RateLimiter *)

Lemma Qltb_true a b : Qltb a b = true <-> (a < b)%Q.
Proof.
  unfold Qltb. rewrite negb_true_iff. split.
  - intros H. apply Qnot_le_lt. intros Hle.
    apply Qle_bool_iff in Hle. congruence.
  - intros H. destruct (Qle_bool b a) eqn:E; [|reflexivity].
    apply Qle_bool_iff in E. lra.
Qed.

Lemma Qltb_false a b : Qltb a b = false <-> (b <= a)%Q.
Proof.
  unfold Qltb. rewrite negb_false_iff. apply Qle_bool_iff.
Qed.

Lemma acquire_run w : acquire w = (Ok tt, after_acquire w).
Proof.
  unfold acquire, after_acquire, bind, time_time, asyncio_sleep, ret, emit.
  cbn. destruct (Qltb _ _); reflexivity.
Qed.

Lemma after_acquire_redis w : redis (after_acquire w) = redis w.
Proof. unfold after_acquire. cbn. destruct (Qltb _ _); reflexivity. Qed.

Lemma after_acquire_trace w :
  trace (after_acquire w) = EvAcquire (last_call (limiter (after_acquire w))) :: trace w.
Proof. unfold after_acquire. cbn. destruct (Qltb _ _); reflexivity. Qed.

Lemma after_acquire_interval w :
  min_interval (limiter (after_acquire w)) = min_interval (limiter w).
Proof. reflexivity. Qed.

Lemma advance_delays_ok w d : delays_ok w -> delays_ok (advance w d).
Proof.
  unfold delays_ok, advance. cbn. intros H.
  destruct (future w) as [|x l]; [constructor|]. now inversion H.
Qed.

Lemma next_delay_nonneg w : delays_ok w -> (0 <= hd 0 (future w))%Q.
Proof.
  unfold delays_ok. intros H. destruct (future w) as [|x l]; cbn; [lra|].
  now inversion H.
Qed.

Lemma Forall_tl {A} (P : A -> Prop) (l : list A) : Forall P l -> Forall P (tl l).
Proof. intros H. destruct l; [constructor | now inversion H]. Qed.

(** The exact limiter is the stamped one with nothing rounded. *)
Lemma acquire_stamped_exact w : acquire_stamped exact exact w = acquire w.
Proof. reflexivity. Qed.

Lemma spaced_from_consecutive m :
  forall l prev i a b,
    spaced_from m prev l ->
    nth_error l i = Some a -> nth_error l (S i) = Some b -> (a + m <= b)%Q.
Proof.
  induction l as [|g l IH]; intros prev i a b Hs Ha Hb; [destruct i; discriminate|].
  destruct Hs as [Hg Hs]. destruct i as [|i].
  - cbn in Ha. injection Ha as ->. destruct l as [|g' l]; [discriminate|].
    cbn in Hb. injection Hb as ->. exact (proj1 Hs).
  - exact (IH g i a b Hs Ha Hb).
Qed.

Lemma spaced_from_span m :
  forall l prev i x,
    spaced_from m prev l -> nth_error l i = Some x ->
    (prev + inject_Z (Z.of_nat (S i)) * m <= x)%Q.
Proof.
  induction l as [|g l IH]; intros prev i x Hs Hx; [destruct i; discriminate|].
  destruct Hs as [Hg Hs]. destruct i as [|i].
  - cbn in Hx. injection Hx as ->.
    change (inject_Z (Z.of_nat 1)) with 1%Q. lra.
  - specialize (IH g i x Hs Hx).
    rewrite Nat2Z.inj_succ, <- Z.add_1_r, inject_Z_plus.
    change (inject_Z 1) with 1%Q. lra.
Qed.

Section StampedSpacing.
Variable stamp : Q -> Q.
Variable fl : Q -> Q.
Variable eps : Q.
Variable delta : Q.
Hypothesis stamp_close : forall t, (Qabs (stamp t - t) <= eps)%Q.
Hypothesis fl_close : forall x, (Qabs (fl x - x) <= delta)%Q.

Lemma stamp_bounds t : (t - eps <= stamp t /\ stamp t <= t + eps)%Q.
Proof.
  pose proof (stamp_close t) as H. apply Qabs_Qle_condition in H. split; lra.
Qed.

Lemma fl_bounds x : (x - delta <= fl x /\ fl x <= x + delta)%Q.
Proof.
  pose proof (fl_close x) as H. apply Qabs_Qle_condition in H. split; lra.
Qed.

Lemma eps_nonneg : (0 <= eps)%Q.
Proof. pose proof (stamp_bounds 0). lra. Qed.

Lemma delta_nonneg : (0 <= delta)%Q.
Proof. pose proof (fl_bounds 0). lra. Qed.

Lemma acquire_stamped_run w :
  acquire_stamped stamp fl w = (Ok tt, after_acquire_stamped stamp fl w).
Proof.
  unfold acquire_stamped, after_acquire_stamped, bind, time_time_stamped,
    asyncio_sleep, ret, emit.
  cbn. destruct (Qltb _ _); reflexivity.
Qed.

Lemma after_acquire_stamped_interval w :
  min_interval (limiter (after_acquire_stamped stamp fl w)) = min_interval (limiter w).
Proof. reflexivity. Qed.

Lemma after_acquire_stamped_stamp w :
  last_call (limiter (after_acquire_stamped stamp fl w))
  = stamp (clock (after_acquire_stamped stamp fl w)).
Proof. reflexivity. Qed.

Lemma after_acquire_stamped_trace w :
  trace (after_acquire_stamped stamp fl w)
  = EvAcquire (last_call (limiter (after_acquire_stamped stamp fl w))) :: trace w.
Proof. unfold after_acquire_stamped. cbn. destruct (Qltb _ _); reflexivity. Qed.

Lemma after_acquire_stamped_delays_ok w :
  delays_ok w -> delays_ok (after_acquire_stamped stamp fl w).
Proof.
  intros H. unfold after_acquire_stamped.
  destruct (Qltb _ _); unfold delays_ok; cbn;
    repeat apply Forall_tl; exact H.
Qed.

(** One call: the clock does not go back, and the call returns no sooner
    than one interval, less the tolerance, after the instant of the grant
    before it. *)
Lemma after_acquire_stamped_spacing w :
  delays_ok w ->
  (clock w <= clock (after_acquire_stamped stamp fl w))%Q
  /\ forall r0, last_call (limiter w) = stamp r0 ->
       (r0 + (min_interval (limiter w) - (2 * eps + 2 * delta))
        <= clock (after_acquire_stamped stamp fl w))%Q.
Proof.
  intros H. unfold after_acquire_stamped.
  pose proof (next_delay_nonneg w H) as H1.
  set (w1 := advance w 0%Q).
  assert (Hw1 : delays_ok w1) by (apply advance_delays_ok; exact H).
  pose proof (next_delay_nonneg w1 Hw1) as H2.
  assert (Hc1 : (clock w <= clock w1)%Q) by (cbn; lra).
  pose proof eps_nonneg as Heps. pose proof delta_nonneg as Hdelta.
  set (elapsed := fl (stamp (clock w1) - last_call (limiter w))).
  destruct (fl_bounds (stamp (clock w1) - last_call (limiter w))) as [El Eu].
  fold elapsed in El, Eu.
  destruct (stamp_bounds (clock w1)) as [Sl Su].
  destruct (Qltb elapsed (min_interval (limiter w))) eqn:E.
  - apply Qltb_true in E.
    set (s := fl (min_interval (limiter w) - elapsed)).
    destruct (fl_bounds (min_interval (limiter w) - elapsed)) as [Fl Fu].
    fold s in Fl, Fu.
    set (d := (if Qltb 0 s then s else 0%Q)).
    assert (Hd : (s <= d /\ 0 <= d)%Q).
    { unfold d. destruct (Qltb 0 s) eqn:E'.
      - apply Qltb_true in E'. lra.
      - apply Qltb_false in E'. lra. }
    pose proof (next_delay_nonneg (advance w1 d) (advance_delays_ok _ _ Hw1)) as H3.
    split.
    + cbn in *. lra.
    + intros r0 Hr0. rewrite Hr0 in El, Eu.
      destruct (stamp_bounds r0) as [Rl Ru]. cbn in *. lra.
  - apply Qltb_false in E. split.
    + cbn in *. lra.
    + intros r0 Hr0. rewrite Hr0 in El, Eu.
      destruct (stamp_bounds r0) as [Rl Ru]. cbn in *. lra.
Qed.

Lemma acquires_stamped_S n w :
  acquires_stamped stamp fl (S n) w
  = ((clock (after_acquire_stamped stamp fl w),
      last_call (limiter (after_acquire_stamped stamp fl w)))
       :: fst (acquires_stamped stamp fl n (after_acquire_stamped stamp fl w)),
     snd (acquires_stamped stamp fl n (after_acquire_stamped stamp fl w))).
Proof.
  cbn [acquires_stamped]. rewrite acquire_stamped_run. cbn [snd].
  destruct (acquires_stamped stamp fl n (after_acquire_stamped stamp fl w)); reflexivity.
Qed.

Lemma acquires_stamped_length n :
  forall w, length (fst (acquires_stamped stamp fl n w)) = n.
Proof.
  induction n as [|n IH]; intros w; [reflexivity|].
  rewrite acquires_stamped_S. cbn [fst length]. now rewrite IH.
Qed.

Lemma acquires_stamped_spaced n :
  forall w r0, delays_ok w -> last_call (limiter w) = stamp r0 ->
    spaced_from (min_interval (limiter w) - (2 * eps + 2 * delta)) r0
                (map fst (fst (acquires_stamped stamp fl n w))).
Proof.
  induction n as [|n IH]; intros w r0 H Hr0; [exact I|].
  rewrite acquires_stamped_S. cbn [fst map spaced_from]. split.
  - exact (proj2 (after_acquire_stamped_spacing w H) r0 Hr0).
  - rewrite <- (after_acquire_stamped_interval w).
    apply IH; [now apply after_acquire_stamped_delays_ok | reflexivity].
Qed.

(** Every call returns between the start of the run and its end, and the
    stamp kept for it is the reading of the clock at its return. *)
Lemma acquires_stamped_within n :
  forall w i a, delays_ok w ->
    nth_error (fst (acquires_stamped stamp fl n w)) i = Some a ->
    snd a = stamp (fst a)
    /\ (clock w <= fst a)%Q
    /\ (fst a <= clock (snd (acquires_stamped stamp fl n w)))%Q.
Proof.
  induction n as [|n IH]; intros w i a H Ha; [destruct i; discriminate|].
  rewrite acquires_stamped_S in Ha |- *. cbn [fst snd] in *.
  pose proof (proj1 (after_acquire_stamped_spacing w H)) as Hstep.
  pose proof (after_acquire_stamped_delays_ok w H) as H'.
  assert (Hend : forall m w', delays_ok w' ->
                   (clock w' <= clock (snd (acquires_stamped stamp fl m w')))%Q).
  { induction m as [|m IHm]; intros w' Hw'; [cbn; lra|].
    rewrite acquires_stamped_S. cbn [snd].
    pose proof (proj1 (after_acquire_stamped_spacing w' Hw')).
    pose proof (IHm _ (after_acquire_stamped_delays_ok w' Hw')). lra. }
  destruct i as [|i].
  - cbn in Ha. injection Ha as <-. cbn [fst snd].
    split; [apply after_acquire_stamped_stamp|]. split; [exact Hstep|].
    exact (Hend n _ H').
  - cbn in Ha. destruct (IH _ i a H' Ha) as (Hs & Hl & Hu).
    split; [exact Hs|]. split; [lra | exact Hu].
Qed.

(** C3, as the code has it.  The limiter compares and keeps doubles: the
    stamp read at an instant is within [eps] of it and a rounded
    difference within [delta].  Under a clock that does not run backwards
    and a sleep that lasts at least what was asked, [n] calls of [acquire]
    in a row return at instants of the clock that are each at least
    [1 / calls_per_second], less the tolerance [2 eps + 3 delta], after
    the one before, so that the last is at least [n - 1] such intervals
    after the first; the stamps kept are the readings at those instants,
    and are spaced likewise, less [2 eps] more.  With nothing rounded the
    tolerance is zero. *)
Theorem acquire_spacing (cps : Z) (rl : RateLimiter) (w : World) (n : nat) :
  RateLimiter_init_stamped fl cps = Ok rl -> limiter w = rl -> delays_ok w ->
  let served := fst (acquires_stamped stamp fl n w) in
  let interval := (1 / inject_Z cps - (2 * eps + 3 * delta))%Q in
  length served = n
  /\ (forall i a, nth_error served i = Some a ->
        snd a = stamp (fst a)
        /\ (clock w <= fst a)%Q
        /\ (fst a <= clock (snd (acquires_stamped stamp fl n w)))%Q)
  /\ (forall i a b,
        nth_error served i = Some a -> nth_error served (S i) = Some b ->
        (fst a + interval <= fst b)%Q /\ (snd a + (interval - 2 * eps) <= snd b)%Q)
  /\ (forall first final,
        nth_error served 0 = Some first ->
        nth_error served (n - 1) = Some final ->
        (inject_Z (Z.of_nat n - 1) * interval <= fst final - fst first)%Q).
Proof.
  intros Hinit Hrl Hok served interval.
  assert (Hint : min_interval (limiter w) = fl (1 / inject_Z cps)%Q).
  { unfold RateLimiter_init_stamped in Hinit. destruct (cps =? 0); [discriminate|].
    injection Hinit as <-. now rewrite Hrl. }
  destruct (fl_bounds (1 / inject_Z cps)%Q) as [Ml _].
  pose proof eps_nonneg as Heps. pose proof delta_nonneg as Hdelta.
  set (m := (1 / inject_Z cps)%Q) in *.
  assert (Hsp : forall l prev,
            spaced_from (min_interval (limiter w) - (2 * eps + 2 * delta)) prev l ->
            spaced_from interval prev l).
  { induction l as [|g l IH]; intros prev Hs; [exact I|].
    destruct Hs as [Hg Hs]. split; [|now apply IH].
    rewrite Hint in Hg. unfold interval. lra. }
  assert (Hrest : forall first rest, served = first :: rest ->
            spaced_from interval (fst first) (map fst rest)).
  { intros first rest Hserved. destruct n as [|n]; [discriminate|].
    unfold served in Hserved. rewrite acquires_stamped_S in Hserved.
    cbn [fst] in Hserved. injection Hserved as <- <-. cbn [fst].
    apply Hsp. rewrite <- (after_acquire_stamped_interval w).
    apply acquires_stamped_spaced;
      [now apply after_acquire_stamped_delays_ok | reflexivity]. }
  assert (Hwithin := fun i a => acquires_stamped_within n w i a Hok).
  fold served in Hwithin.
  split; [apply acquires_stamped_length|]. split; [exact Hwithin|].
  assert (Hcons : forall i a b,
            nth_error served i = Some a -> nth_error served (S i) = Some b ->
            (fst a + interval <= fst b)%Q).
  { intros i a b Ha Hb. destruct served as [|first rest] eqn:Es; [destruct i; discriminate|].
    pose proof (Hrest first rest eq_refl) as Hs.
    destruct i as [|i].
    - cbn in Ha. injection Ha as <-. destruct rest as [|b' rest]; [discriminate|].
      cbn in Hb. injection Hb as <-. exact (proj1 Hs).
    - change (nth_error rest i = Some a) in Ha.
      change (nth_error rest (S i) = Some b) in Hb.
      apply (spaced_from_consecutive interval (map fst rest) (fst first) i).
      + exact Hs.
      + now rewrite nth_error_map, Ha.
      + now rewrite nth_error_map, Hb. }
  split.
  - intros i a b Ha Hb. split; [exact (Hcons i a b Ha Hb)|].
    destruct (Hwithin _ _ Ha) as (-> & _). destruct (Hwithin _ _ Hb) as (-> & _).
    pose proof (Hcons i a b Ha Hb).
    destruct (stamp_bounds (fst a)), (stamp_bounds (fst b)). lra.
  - intros first final Hfirst Hfinal.
    destruct served as [|g l] eqn:Eg; [discriminate|].
    cbn in Hfirst. injection Hfirst as ->.
    pose proof (Hrest first l eq_refl) as Hs.
    assert (Hn : n = S (length l)).
    { pose proof (acquires_stamped_length n w) as Hl. fold served in Hl.
      rewrite Eg in Hl. cbn in Hl. lia. }
    subst n. cbn [Nat.sub] in Hfinal. rewrite Nat.sub_0_r in Hfinal.
    destruct (length l) as [|k] eqn:El.
    + cbn in Hfinal. injection Hfinal as ->.
      change (inject_Z (Z.of_nat 1 - 1)) with 0%Q. lra.
    + cbn in Hfinal.
      assert (Hf : nth_error (map fst l) k = Some (fst final))
        by now rewrite nth_error_map, Hfinal.
      pose proof (spaced_from_span _ (map fst l) (fst first) k (fst final) Hs Hf) as Hspan.
      replace (Z.of_nat (S (S k)) - 1) with (Z.of_nat (S k)) by lia. lra.
Qed.
End StampedSpacing.

Lemma stamp_near_close t : (Qabs (stamp_near t - t) <= 1 # 8388608)%Q.
Proof.
  apply Qabs_Qle_condition. unfold stamp_near.
  change (inject_Z (2 ^ 22)) with 4194304%Q.
  pose proof (Qfloor_le (t * 4194304 + (1 # 2))) as Hle.
  pose proof (Qlt_floor (t * 4194304 + (1 # 2))) as Hlt.
  rewrite inject_Z_plus in Hlt. change (inject_Z 1) with 1%Q in Hlt.
  set (f := inject_Z (Qfloor (t * 4194304 + (1 # 2)))) in *.
  assert (Hd : (f / 4194304 == f * (1 # 4194304))%Q) by field.
  rewrite Hd. split; lra.
Qed.

Lemma exact_close x : (Qabs (exact x - x) <= 0)%Q.
Proof. apply Qabs_Qle_condition. unfold exact. split; lra. Qed.

Lemma world_busy_delays_ok : delays_ok world_busy.
Proof.
  unfold delays_ok, world_busy. cbn. repeat constructor; unfold Qle; cbn; lia.
Qed.

Lemma acquire_spacing_witness :
  let served := fst (acquires_stamped stamp_near exact 3 world_busy) in
  let interval := (1 / inject_Z 10 - (2 * (1 # 8388608) + 3 * 0))%Q in
  length served = 3%nat
  /\ (forall i a, nth_error served i = Some a ->
        snd a = stamp_near (fst a)
        /\ (clock world_busy <= fst a)%Q
        /\ (fst a <= clock (snd (acquires_stamped stamp_near exact 3 world_busy)))%Q)
  /\ (forall i a b,
        nth_error served i = Some a -> nth_error served (S i) = Some b ->
        (fst a + interval <= fst b)%Q
        /\ (snd a + (interval - 2 * (1 # 8388608)) <= snd b)%Q)
  /\ (forall first final,
        nth_error served 0 = Some first ->
        nth_error served (3 - 1) = Some final ->
        (inject_Z (Z.of_nat 3 - 1) * interval <= fst final - fst first)%Q).
Proof.
  apply (acquire_spacing stamp_near exact (1 # 8388608) 0 stamp_near_close exact_close
           10 (limiter world_busy) world_busy 3).
  - reflexivity.
  - reflexivity.
  - exact world_busy_delays_ok.
Defined.

(** The claim without tolerance and on any clock does not hold.  On the
    doubles of these years and with no delay at all, two grants in a row
    are stamped less than a tenth of a second apart; and in exact
    arithmetic, a clock set back while a call sleeps brings two calls in a
    row less than a tenth of a second apart. *)
Lemma grants_closer_than_interval :
  (exists a b,
     nth_error (fst (acquires_stamped stamp_near exact 3 world_now)) 1 = Some a
     /\ nth_error (fst (acquires_stamped stamp_near exact 3 world_now)) 2 = Some b
     /\ (snd b - snd a < 1 / inject_Z 10)%Q)
  /\ (exists a b,
        nth_error (fst (acquires_stamped exact exact 2 world_set_back)) 0 = Some a
        /\ nth_error (fst (acquires_stamped exact exact 2 world_set_back)) 1 = Some b
        /\ (fst b - fst a < 1 / inject_Z 10)%Q
        /\ (snd b - snd a < 1 / inject_Z 10)%Q).
Proof.
  split.
  - eexists _, _. split; [vm_compute; reflexivity|].
    split; [vm_compute; reflexivity|]. vm_compute. reflexivity.
  - eexists _, _. split; [vm_compute; reflexivity|].
    split; [vm_compute; reflexivity|]. split; vm_compute; reflexivity.
Qed.

(** ** FetchOrchestrator *)

(** Running a sequence: the second part starts where the first ends. *)
Lemma bind_run {A B} (c : M A) (f : A -> M B) w a w' :
  c w = (Ok a, w') -> bind c f w = f a w'.
Proof. intros H. unfold bind. now rewrite H. Qed.

Lemma bind_raise {A B} (c : M A) (f : A -> M B) w e w' :
  c w = (Raise e, w') -> bind c f w = (Raise e, w').
Proof. intros H. unfold bind. now rewrite H. Qed.

Lemma try_except_ok {A} (body : M A) handler w a w' :
  body w = (Ok a, w') -> try_except body handler w = (Ok a, w').
Proof. intros H. unfold try_except. now rewrite H. Qed.

Lemma try_except_raise {A} (body : M A) handler w e w' :
  body w = (Raise e, w') -> try_except body handler w = handler e w'.
Proof. intros H. unfold try_except. now rewrite H. Qed.

Lemma for_each_results (v : json) (d : pydict) (locations : list Location) w :
  dict_get d "sunset_time" = Some v ->
  for_each (fun loc =>
              sunset <- lift (py_getitem (JObj d) "sunset_time") ;;
              ret (mk_FetchResult (loc_zip_code loc) sunset
                                  (loc_timezone_offset loc)))
           locations w
  = (Ok (results_for v locations), w).
Proof.
  intros Hv. induction locations as [|loc l IH]; [reflexivity|].
  cbn [for_each].
  erewrite bind_run; cycle 1.
  { erewrite bind_run; [reflexivity|].
    unfold lift, py_getitem. rewrite Hv. reflexivity. }
  erewrite bind_run by exact IH. reflexivity.
Qed.

(** Looking a cell up leaves the world as it is. *)
Lemma get_cached_result_run grid_lat grid_lon w :
  get_cached_result grid_lat grid_lon w = (Ok (cached_at w grid_lat grid_lon), w).
Proof.
  unfold get_cached_result, redis_get, cached_at.
  destruct (redis w !! get_cache_key grid_lat grid_lon) as [[value expires]|];
    [|reflexivity].
  destruct (Qltb (clock w) expires); reflexivity.
Qed.

(** The hit path, written out. *)
Lemma fetch_hit session grid_lat grid_lon locations w v :
  cache_hit w grid_lat grid_lon v ->
  fetch_grid_sunset session grid_lat grid_lon locations w
  = (Ok (results_for v locations), record w (EvProgress (len locations))).
Proof.
  intros (d & Hd & Hv).
  unfold fetch_grid_sunset. apply try_except_ok.
  erewrite bind_run by apply get_cached_result_run. rewrite Hd.
  destruct d as [|kv d]; [discriminate|].
  erewrite bind_run by (apply (for_each_results v (kv :: d)); exact Hv).
  reflexivity.
Qed.

(** Case analysis on the tests the code makes on a JSON value. *)
Ltac python_case :=
  match goal with
  | |- context [match ?l with [] => _ | _ :: _ => _ end] => is_var l; destruct l
  | |- context [if negb ?b then _ else _] => destruct b eqn:?
  | |- context [match dict_get ?d ?k with _ => _ end] =>
      destruct (dict_get d k) as [[]|] eqn:?
  end.

Lemma answer_at_eq session w grid_lat grid_lon :
  answer_at session w grid_lat grid_lon
  = session (clock (after_acquire w)) (center grid_lat) (center grid_lon).
Proof. unfold answer_at. now rewrite acquire_run. Qed.

(** The miss path, written out: one pass through the limiter, one
    request, and then either the answer's sunset text for every location
    and a cache entry, or nothing at all. *)
Lemma fetch_miss session grid_lat grid_lon locations w :
  cached_at w grid_lat grid_lon = None \/ cached_at w grid_lat grid_lon = Some [] ->
  fetch_grid_sunset session grid_lat grid_lon locations w
  = match response_sunset (answer_at session w grid_lat grid_lon) with
    | Some v =>
        (Ok (results_for v locations),
         record (after_store w grid_lat grid_lon v) (EvProgress (len locations)))
    | None =>
        (Ok [],
         record (record (after_request w grid_lat grid_lon) EvPrint)
                (EvProgress (len locations)))
    end.
Proof.
  intros Hmiss. rewrite answer_at_eq.
  unfold fetch_grid_sunset, try_except.
  erewrite bind_run by apply get_cached_result_run.
  assert (Hmiss' : match cached_at w grid_lat grid_lon with
                   | Some (_ :: _) => False
                   | _ => True
                   end) by (destruct Hmiss as [-> | ->]; exact I).
  clear Hmiss.
  destruct (cached_at w grid_lat grid_lon) as [[|kv d]|]; [|contradiction|].
  all: erewrite bind_run by apply acquire_run.
  all: erewrite bind_run by reflexivity.
  all: fold (center grid_lat) (center grid_lon).
  all: fold (after_request w grid_lat grid_lon).
  all: unfold response_sunset, body_sunset.
  all: destruct (session _ _ _) as [e|status [data|e]]; try reflexivity.
  all: destruct (status =? 200) eqn:Es; try reflexivity.
  all: cbn [negb].
  all: destruct data as [|b|q|s|l|d]; try reflexivity.
  all: repeat (cbn [truthy negb py_in py_getitem rbind bind lift]; python_case).
  all: first [reflexivity | discriminate].
Qed.

Lemma fetch_fails_no_sunset o : fetch_fails o -> response_sunset o = None.
Proof.
  intros [e | status body Hs | status body Hb]; cbn.
  - reflexivity.
  - destruct (Z.eqb_spec status 200); [contradiction | reflexivity].
  - rewrite Hb. now destruct (status =? 200).
Qed.

Lemma no_sunset_fetch_fails o : response_sunset o = None -> fetch_fails o.
Proof.
  destruct o as [e | status body]; cbn; [constructor|].
  destruct (Z.eqb_spec status 200) as [->|Hne]; intros H.
  - now apply fails_malformed.
  - now apply fails_status.
Qed.

Lemma results_for_length v locations :
  length (results_for v locations) = length locations.
Proof. unfold results_for. apply length_map. Qed.

Lemma results_for_nth v locations i loc :
  nth_error locations i = Some loc ->
  nth_error (results_for v locations) i
  = Some (mk_FetchResult (loc_zip_code loc) v (loc_timezone_offset loc)).
Proof. intros H. unfold results_for. now rewrite nth_error_map, H. Qed.

Lemma results_for_sunset v locations r :
  In r (results_for v locations) -> sunset_time r = v.
Proof.
  unfold results_for. rewrite in_map_iff. now intros (loc & <- & _).
Qed.

(** C1. A cell that is served, from the cache or by a successful call,
    gives exactly one result per location, in order and under the
    location's identifier, and all of them carry the same sunset text. *)
Theorem one_result_per_location session grid_lat grid_lon locations w v :
  cache_hit w grid_lat grid_lon v
  \/ (cache_miss w grid_lat grid_lon
      /\ response_sunset (answer_at session w grid_lat grid_lon) = Some v) ->
  exists results,
    fst (fetch_grid_sunset session grid_lat grid_lon locations w) = Ok results
    /\ length results = length locations
    /\ (forall i loc, nth_error locations i = Some loc ->
          exists r, nth_error results i = Some r
                    /\ zip_code r = loc_zip_code loc
                    /\ timezone_offset r = loc_timezone_offset loc)
    /\ (forall r1 r2, In r1 results -> In r2 results ->
          sunset_time r1 = sunset_time r2)
    /\ (forall r, In r results -> sunset_time r = v).
Proof.
  intros Hserved. exists (results_for v locations).
  split; [|split; [|split; [|split]]].
  - destruct Hserved as [Hhit | [Hmiss Hok]].
    + now rewrite (fetch_hit session grid_lat grid_lon locations w v Hhit).
    + rewrite fetch_miss by (left; exact Hmiss). now rewrite Hok.
  - apply results_for_length.
  - intros i loc Hloc. eexists. split; [apply results_for_nth; exact Hloc|].
    split; reflexivity.
  - intros r1 r2 H1 H2.
    now rewrite (results_for_sunset v locations r1 H1),
                (results_for_sunset v locations r2 H2).
  - apply results_for_sunset.
Qed.

(** C2. On a cache hit the fetch asks nothing of the limiter or of the
    API: the limiter is as it was, no acquire and no request is added to
    the history, and the results are made from the cached text. *)
Theorem cache_hit_leaves_limiter session grid_lat grid_lon locations w v :
  cache_hit w grid_lat grid_lon v ->
  let '(r, w') := fetch_grid_sunset session grid_lat grid_lon locations w in
  r = Ok (results_for v locations)
  /\ limiter w' = limiter w
  /\ count_events is_acquire w' = count_events is_acquire w
  /\ count_events is_request w' = count_events is_request w
  /\ trace w' = EvProgress (len locations) :: trace w
  /\ redis w' = redis w
  /\ clock w' = clock w.
Proof.
  intros Hhit.
  rewrite (fetch_hit session grid_lat grid_lon locations w v Hhit).
  repeat split; reflexivity.
Qed.

Lemma after_request_redis w grid_lat grid_lon :
  redis (after_request w grid_lat grid_lon) = redis w.
Proof. unfold after_request. cbn [advance record redis]. apply after_acquire_redis. Qed.

Lemma after_request_trace w grid_lat grid_lon :
  trace (after_request w grid_lat grid_lon)
  = EvRequest (center grid_lat) (center grid_lon)
    :: EvAcquire (last_call (limiter (after_acquire w))) :: trace w.
Proof.
  unfold after_request. cbn [advance record trace]. now rewrite after_acquire_trace.
Qed.

(** C7. A cell whose fetch fails, in any of the three ways, gives no
    result; the cache is as it was; the limiter was passed once and one
    request was made, no second one; and the run goes on with the cells
    that follow. *)
Theorem failed_fetch_drops_cell session grid_lat grid_lon locations rest w :
  cache_miss w grid_lat grid_lon ->
  fetch_fails (answer_at session w grid_lat grid_lon) ->
  let '(r, w') := fetch_grid_sunset session grid_lat grid_lon locations w in
  r = Ok []
  /\ redis w' = redis w
  /\ count_events is_acquire w' = S (count_events is_acquire w)
  /\ count_events is_request w' = S (count_events is_request w)
  /\ process_cells session (((grid_lat, grid_lon), locations) :: rest) w
     = process_cells session rest w'.
Proof.
  intros Hmiss Hfail.
  pose proof (fetch_miss session grid_lat grid_lon locations w (or_introl Hmiss)) as E.
  rewrite (fetch_fails_no_sunset _ Hfail) in E.
  cbn [process_cells fetch_cell]. rewrite E.
  unfold count_events. cbn [record trace redis].
  rewrite after_request_redis, after_request_trace.
  split; [reflexivity|]. split; [reflexivity|].
  split; [reflexivity|]. split; [reflexivity|].
  erewrite bind_run by exact E.
  unfold bind, ret. destruct (process_cells session rest _) as [[results|e] w2];
    reflexivity.
Qed.

Lemma one_result_per_location_witness :
  exists results,
    fst (fetch_grid_sunset session_ok 40 (-75) five_locations world_0) = Ok results
    /\ length results = length five_locations
    /\ (forall i loc, nth_error five_locations i = Some loc ->
          exists r, nth_error results i = Some r
                    /\ zip_code r = loc_zip_code loc
                    /\ timezone_offset r = loc_timezone_offset loc)
    /\ (forall r1 r2, In r1 results -> In r2 results ->
          sunset_time r1 = sunset_time r2)
    /\ (forall r, In r results -> sunset_time r = sunset_730).
Proof.
  apply (one_result_per_location session_ok 40 (-75) five_locations world_0
                                 sunset_730).
  right. split; vm_compute; reflexivity.
Defined.

Lemma world_hit_is_hit : cache_hit world_hit 40 (-75) sunset_730.
Proof.
  exists [("sunset_time", sunset_730)]. split; vm_compute; reflexivity.
Defined.

Lemma cache_hit_leaves_limiter_witness :
  let '(r, w') := fetch_grid_sunset session_ok 40 (-75) five_locations world_hit in
  r = Ok (results_for sunset_730 five_locations)
  /\ limiter w' = limiter world_hit
  /\ count_events is_acquire w' = count_events is_acquire world_hit
  /\ count_events is_request w' = count_events is_request world_hit
  /\ trace w' = EvProgress (len five_locations) :: trace world_hit
  /\ redis w' = redis world_hit
  /\ clock w' = clock world_hit.
Proof.
  apply (cache_hit_leaves_limiter session_ok 40 (-75) five_locations world_hit
                                  sunset_730).
  exact world_hit_is_hit.
Defined.

Lemma failed_fetch_drops_cell_witness :
  let '(r, w') := fetch_grid_sunset session_timeout 40 (-75) five_locations world_0 in
  r = Ok []
  /\ redis w' = redis world_0
  /\ count_events is_acquire w' = S (count_events is_acquire world_0)
  /\ count_events is_request w' = S (count_events is_request world_0)
  /\ process_cells session_timeout [((40%Q, (-75)%Q), five_locations)] world_0
     = process_cells session_timeout [] w'.
Proof.
  apply (failed_fetch_drops_cell session_timeout 40 (-75) five_locations [] world_0).
  - vm_compute. reflexivity.
  - exact (fails_io ClientError).
Defined.

(** A fetch that has just stored its answer is a hit the next time: the
    second fetch of the cell goes through [cache_hit_leaves_limiter]. *)
Lemma fetched_cell_is_cached session grid_lat grid_lon locations w v :
  cache_miss w grid_lat grid_lon ->
  response_sunset (answer_at session w grid_lat grid_lon) = Some v ->
  cache_hit (snd (fetch_grid_sunset session grid_lat grid_lon locations w))
            grid_lat grid_lon v.
Proof.
  intros Hmiss Hok. rewrite fetch_miss by (left; exact Hmiss). rewrite Hok.
  cbn [snd]. exists [("sunset_time", v)]. split; [|reflexivity].
  unfold cached_at, after_store. cbn [record set_redis redis clock].
  rewrite lookup_insert_eq.
  replace (Qltb _ _) with true; [reflexivity|].
  symmetry. apply Qltb_true. unfold REDIS_EXPIRY. lra.
Qed.

(** ** The run: batches and cells *)

(** Gathering a batch and joining its results is the run over its cells. *)
Lemma gather_concat session batch :
  forall w,
    (batch_results <- gather session batch ;; ret (concat batch_results)) w
    = process_cells session batch w.
Proof.
  unfold gather. induction batch as [|item batch IH]; intros w; [reflexivity|].
  cbn [for_each process_cells]. unfold bind.
  destruct (fetch_cell session item w) as [[y|e] w1]; [|reflexivity].
  rewrite <- IH. unfold bind.
  destruct (for_each (fetch_cell session) batch w1) as [[ys|e] w2]; reflexivity.
Qed.

Lemma process_cells_app session l1 l2 :
  forall w,
    process_cells session (l1 ++ l2)%list w
    = (r1 <- process_cells session l1 ;;
       r2 <- process_cells session l2 ;;
       ret (r1 ++ r2)%list) w.
Proof.
  induction l1 as [|item l1 IH]; intros w.
  - cbn [app process_cells]. unfold bind, ret.
    destruct (process_cells session l2 w) as [[r2|e] w1]; reflexivity.
  - cbn [app process_cells]. unfold bind.
    destruct (fetch_cell session item w) as [[y|e] w1]; [|reflexivity].
    rewrite IH. unfold bind.
    destruct (process_cells session l1 w1) as [[r1|e] w2]; [|reflexivity].
    unfold ret. cbv beta iota.
    destruct (process_cells session l2 w2) as [[r2|e] w3]; [|reflexivity].
    now rewrite app_assoc.
Qed.

Lemma process_batches_cells session todo :
  forall results w,
    process_batches session todo results w
    = (rs <- process_cells session (concat todo) ;; ret (results ++ rs)%list) w.
Proof.
  induction todo as [|batch todo IH]; intros results w.
  - cbn [process_batches concat process_cells]. unfold bind, ret.
    now rewrite app_nil_r.
  - cbn [process_batches concat]. unfold bind. rewrite process_cells_app.
    unfold bind. rewrite <- gather_concat. unfold bind.
    destruct (gather session batch w) as [[rs|e] w1]; [|reflexivity].
    unfold ret at 1. cbv beta iota. rewrite IH. unfold bind.
    destruct (process_cells session (concat todo) w1) as [[r2|e] w2]; [|reflexivity].
    unfold ret. now rewrite app_assoc.
Qed.

Lemma concat_batches {A} (fuel : nat) :
  forall grid_items : list A,
    (length grid_items <= fuel)%nat -> concat (batches fuel grid_items) = grid_items.
Proof.
  induction fuel as [|fuel IH]; intros [|x l] Hlen; try reflexivity.
  - cbn in Hlen. lia.
  - cbn [batches concat]. rewrite IH; [apply firstn_skipn|].
    rewrite length_skipn. unfold BATCH_SIZE. cbn [length] in *. lia.
Qed.

(** Under the sequential schedule the batched run is the run cell by
    cell, whatever the batch size. *)
Lemma process_batches_sequential session grid_items w :
  process_batches session (batches (length grid_items) grid_items) [] w
  = process_cells session grid_items w.
Proof.
  rewrite process_batches_cells, concat_batches by lia.
  unfold bind, ret.
  destruct (process_cells session grid_items w) as [[rs|e] w1]; reflexivity.
Qed.

(** The store keeps its shape: the program only ever adds entries that
    carry a sunset text. *)
Lemma fetch_preserves_cache_wf session grid_lat grid_lon locations w :
  cache_wf w ->
  cache_wf (snd (fetch_grid_sunset session grid_lat grid_lon locations w)).
Proof.
  intros Hwf.
  destruct (cached_at w grid_lat grid_lon) as [d|] eqn:Ec.
  - assert (Hd : exists v, dict_get d "sunset_time" = Some v).
    { unfold cached_at in Ec.
      destruct (redis w !! get_cache_key grid_lat grid_lon) as [[d' ex]|] eqn:El;
        [|discriminate].
      destruct (Qltb (clock w) ex); [|discriminate].
      injection Ec as <-. exact (Hwf _ _ _ El). }
    destruct Hd as [v Hv].
    rewrite (fetch_hit session grid_lat grid_lon locations w v)
      by (exists d; split; assumption).
    exact Hwf.
  - rewrite fetch_miss by (left; exact Ec).
    destruct (response_sunset _) as [v|]; cbn [snd]; intros key d0 ex.
    + unfold after_store. cbn [record set_redis redis].
      destruct (decide (get_cache_key grid_lat grid_lon = key)) as [<-|Hne].
      * rewrite lookup_insert_eq. intros [= <- _]. now exists v.
      * rewrite lookup_insert_ne by exact Hne.
        rewrite after_request_redis. apply Hwf.
    + cbn [record redis]. rewrite after_request_redis. apply Hwf.
Qed.

(** In a store of that shape a fetch is all or nothing: no result, or one
    result per location under a single sunset text. *)
Lemma fetch_all_or_nothing session grid_lat grid_lon locations w :
  cache_wf w ->
  fst (fetch_grid_sunset session grid_lat grid_lon locations w) = Ok []
  \/ exists v,
       fst (fetch_grid_sunset session grid_lat grid_lon locations w)
       = Ok (results_for v locations).
Proof.
  intros Hwf.
  destruct (cached_at w grid_lat grid_lon) as [d|] eqn:Ec.
  - unfold cached_at in Ec.
    destruct (redis w !! get_cache_key grid_lat grid_lon) as [[d' ex]|] eqn:El;
      [|discriminate].
    destruct (Hwf _ _ _ El) as [v Hv].
    right. exists v. rewrite (fetch_hit session grid_lat grid_lon locations w v);
      [reflexivity|].
    exists d'. split; [|exact Hv]. unfold cached_at. rewrite El.
    destruct (Qltb (clock w) ex); [reflexivity | discriminate].
  - rewrite fetch_miss by (left; exact Ec).
    destruct (response_sunset _) as [v|]; [right; now exists v | now left].
Qed.

(** ** GeographicBatcher *)

Lemma placed_grid_append cell loc grid_map x :
  In x (placed (grid_append cell loc grid_map)) <-> x = loc \/ In x (placed grid_map).
Proof.
  unfold placed. induction grid_map as [|[cell' locs] gm IH]; cbn.
  - intuition.
  - destruct (cell_eqb cell' cell); cbn; rewrite !in_app_iff.
    + cbn. intuition.
    + rewrite IH. intuition.
Qed.

Section BatcherProperties.
Variable zipcodes_matching : string -> result (list ZipRecord).
Variable timezone_at : Q -> Q -> option string.
Variable utc_offset_hours : string -> result Q.

Lemma locate_of_failure z :
  resolution_fails zipcodes_matching timezone_at z = true ->
  locate zipcodes_matching timezone_at utc_offset_hours z = Ok None.
Proof.
  unfold resolution_fails, locate.
  destruct (zipcodes_matching z) as [[|location records]|e]; cbn; try discriminate.
  - reflexivity.
  - destruct (_is_contiguous_us location); cbn; [|reflexivity].
    destruct (timezone_at _ _) as [tz|]; [|reflexivity].
    now intros ->.
Qed.

Lemma locate_of_success z loc :
  locate zipcodes_matching timezone_at utc_offset_hours z = Ok (Some loc) ->
  loc_zip_code loc = z /\ resolution_fails zipcodes_matching timezone_at z = false.
Proof.
  unfold resolution_fails, locate.
  destruct (zipcodes_matching z) as [[|location records]|e]; cbn; try discriminate.
  destruct (_is_contiguous_us location); cbn; [|discriminate].
  destruct (timezone_at _ _) as [tz|]; [|discriminate].
  destruct (String.eqb tz EmptyString); [discriminate|].
  destruct (utc_offset_hours tz) as [off|e]; cbn; [|discriminate].
  intros [= <-]. split; reflexivity.
Qed.

(** What the loop leaves in the grid map: what was there, and the
    locations of the codes that resolved. *)
Lemma prepare_from_placed codes :
  forall gm gm',
    prepare_from zipcodes_matching timezone_at utc_offset_hours codes gm = Ok gm' ->
    forall x,
      In x (placed gm') <->
      In x (placed gm)
      \/ exists z, In z codes
                   /\ locate zipcodes_matching timezone_at utc_offset_hours z
                      = Ok (Some x).
Proof.
  induction codes as [|z codes IH]; intros gm gm' Hrun x.
  - cbn in Hrun. injection Hrun as <-. split; [now left|].
    intros [H | (z & [] & _)]. exact H.
  - cbn [prepare_from] in Hrun.
    destruct (locate zipcodes_matching timezone_at utc_offset_hours z)
      as [[loc|]|e] eqn:Ez; cbn [rbind] in Hrun; [| |discriminate].
    + rewrite (IH _ _ Hrun x), placed_grid_append. split.
      * intros [[-> | H] | (z' & Hz' & Hl)].
        -- right. exists z. split; [now left | exact Ez].
        -- now left.
        -- right. exists z'. split; [now right | exact Hl].
      * intros [H | (z' & [<- | Hz'] & Hl)].
        -- left. now right.
        -- left. left. congruence.
        -- right. now exists z'.
    + rewrite (IH _ _ Hrun x). split.
      * intros [H | (z' & Hz' & Hl)]; [now left|].
        right. exists z'. split; [now right | exact Hl].
      * intros [H | (z' & [<- | Hz'] & Hl)]; [now left | congruence |].
        right. now exists z'.
Qed.

(** C9, as the code has it. A code whose resolution fails stops nothing:
    its turn of the loop ends without a location, no location of the grid
    map carries it, and every code that resolves has its location in the
    map.  The batcher keeps the codes and the map, and no count. *)
Theorem failed_resolutions_are_dropped (codes : list string) (b : GeographicBatcher) :
  prepare_batches zipcodes_matching timezone_at utc_offset_hours
                  (GeographicBatcher_init codes) = Ok b ->
  zip_codes b = codes
  /\ (forall z, resolution_fails zipcodes_matching timezone_at z = true ->
         locate zipcodes_matching timezone_at utc_offset_hours z = Ok None
         /\ forall loc, In loc (placed (grid_map b)) -> loc_zip_code loc <> z)
  /\ (forall z loc, In z codes ->
         locate zipcodes_matching timezone_at utc_offset_hours z = Ok (Some loc) ->
         In loc (placed (grid_map b))).
Proof.
  unfold prepare_batches, GeographicBatcher_init. cbn [zip_codes grid_map].
  destruct (prepare_from zipcodes_matching timezone_at utc_offset_hours codes [])
    as [gm|e] eqn:Hrun; cbn [rbind]; [|discriminate].
  intros [= <-]. cbn [zip_codes grid_map].
  pose proof (prepare_from_placed codes [] gm Hrun) as Hplaced.
  split; [reflexivity|]. split.
  - intros z Hfail. split; [apply locate_of_failure; exact Hfail|].
    intros loc Hin Hz. apply Hplaced in Hin.
    destruct Hin as [[] | (z' & _ & Hl)].
    destruct (locate_of_success z' loc Hl) as [Hzip Hok]. congruence.
  - intros z loc Hz Hl. apply Hplaced. right. now exists z.
Qed.
End BatcherProperties.

(** C9, as the claim has it, fails: the batcher records no count of the
    failed resolutions.  A code that is unknown and a code that is in an
    excluded region leave the same batcher behind, with one failure in
    the first run and none in the second. *)
Lemma drops_are_not_counted :
  ~ (exists recorded : GeographicBatcher -> nat,
       forall (zipcodes_matching : string -> result (list ZipRecord))
              (timezone_at : Q -> Q -> option string)
              (utc_offset_hours : string -> result Q)
              (codes : list string) (b : GeographicBatcher),
         prepare_batches zipcodes_matching timezone_at utc_offset_hours
                         (GeographicBatcher_init codes) = Ok b ->
         recorded b
         = length (filter (resolution_fails zipcodes_matching timezone_at) codes)).
Proof.
  intros [recorded Hrec].
  pose proof (Hrec db_unknown tz_eastern offset_minus_4 ["99501"]
                   (mk_GeographicBatcher ["99501"] []) eq_refl) as H1.
  pose proof (Hrec db_alaska tz_eastern offset_minus_4 ["99501"]
                   (mk_GeographicBatcher ["99501"] []) eq_refl) as H0.
  vm_compute in H1, H0. congruence.
Qed.

Lemma failed_resolutions_are_dropped_witness :
  zip_codes (mk_GeographicBatcher ["19101"; "00000"]
               [((39%Q, (-76)%Q),
                 [mk_Location "19101" (3995 # 100) (-7516 # 100) (-4 # 1)])])
  = ["19101"; "00000"]
  /\ (forall z, resolution_fails db_philadelphia tz_eastern z = true ->
         locate db_philadelphia tz_eastern offset_minus_4 z = Ok None
         /\ forall loc,
              In loc (placed (grid_map (mk_GeographicBatcher ["19101"; "00000"]
                 [((39%Q, (-76)%Q),
                   [mk_Location "19101" (3995 # 100) (-7516 # 100) (-4 # 1)])]))) ->
              loc_zip_code loc <> z)
  /\ (forall z loc, In z ["19101"; "00000"] ->
         locate db_philadelphia tz_eastern offset_minus_4 z = Ok (Some loc) ->
         In loc (placed (grid_map (mk_GeographicBatcher ["19101"; "00000"]
                 [((39%Q, (-76)%Q),
                   [mk_Location "19101" (3995 # 100) (-7516 # 100) (-4 # 1)])])))).
Proof.
  apply (failed_resolutions_are_dropped db_philadelphia tz_eastern offset_minus_4
           ["19101"; "00000"]).
  vm_compute. reflexivity.
Defined.

(** ** StatsEngine *)

Section StatsProperties.
Variable fromisoformat : string -> result time_obj.
Variable fmt_sqrt_minutes_2f : surd -> string.
Variable percentile_seconds : list Z -> Z -> Z.
Variable fmt_percentage : Z -> Z -> string.

Lemma scenario_seconds :
  rmap (fun r => time_to_seconds fromisoformat (sunset_time r)) scenario
  = Ok [68400; 70200; 72000].
Proof. reflexivity. Qed.

Lemma scenario_average st :
  calculate_statistics fromisoformat fmt_sqrt_minutes_2f percentile_seconds
                       fmt_percentage scenario = Ok (Some st) ->
  average_sunset (summary_statistics st) = "19:30:00"
  /\ median_sunset (summary_statistics st) = "19:30:00".
Proof. intros [= <-]. split; reflexivity. Qed.

(** C5, as the code has it. On the scenario the mean and the median are
    70200 seconds, "19:30:00"; the earliest result is A (19:00:00), the
    latest is C (20:00:00), the range is 60 minutes, the group of offset
    -4 has two results and the group of offset -5 has one, with "N/A" for
    its standard deviation. *)
Theorem scenario_statistics :
  mean [68400; 70200; 72000] = Ok (inject_Z 70200)
  /\ median [68400; 70200; 72000] = Ok (inject_Z 70200)
  /\ exists st sd4,
       calculate_statistics fromisoformat fmt_sqrt_minutes_2f percentile_seconds
                            fmt_percentage scenario = Ok (Some st)
       /\ average_sunset (summary_statistics st) = "19:30:00"
       /\ median_sunset (summary_statistics st) = "19:30:00"
       /\ total_locations (summary_statistics st) = 3
       /\ entry_zip_code (earliest_sunset (range_analysis st)) = "A"
       /\ time_to_seconds fromisoformat
            (entry_time (earliest_sunset (range_analysis st))) = Ok 68400
       /\ seconds_to_time 68400 = "19:00:00"
       /\ entry_zip_code (latest_sunset (range_analysis st)) = "C"
       /\ time_to_seconds fromisoformat
            (entry_time (latest_sunset (range_analysis st))) = Ok 72000
       /\ seconds_to_time 72000 = "20:00:00"
       /\ time_range_minutes (range_analysis st) = "60.00"
       /\ timezone_analysis st
          = [ ((-4 # 1)%Q, mk_TimezoneStats 2 "19:15:00" sd4);
              ((-5 # 1)%Q, mk_TimezoneStats 1 "20:00:00" "N/A") ].
Proof.
  split; [reflexivity|]. split; [reflexivity|].
  eexists _, _. split; [reflexivity|].
  repeat split; reflexivity.
Qed.

(** C8 fails on a single result: the standard deviation of the whole run
    is taken without the guard that the groups have, and it raises. *)
Theorem single_result_raises :
  calculate_statistics fromisoformat fmt_sqrt_minutes_2f percentile_seconds
                       fmt_percentage
                       [mk_FetchResult "19101" (JStr "7:30:00 PM") (-4 # 1)]
  = Raise StatisticsError.
Proof. unfold calculate_statistics. reflexivity. Qed.

(** So it is for every single result whose text parses. *)
Lemma any_single_result_raises (r : FetchResult) (s : Z) :
  time_to_seconds fromisoformat (sunset_time r) = Ok s ->
  calculate_statistics fromisoformat fmt_sqrt_minutes_2f percentile_seconds
                       fmt_percentage [r]
  = Raise StatisticsError.
Proof.
  intros Hs. unfold calculate_statistics. cbn [rmap]. rewrite Hs. reflexivity.
Qed.

(** The run reaches it: one code, resolved, fetched with success, and the
    statistics of its single result raise. *)
Example single_location_run_raises :
  fst (process_all_zips db_philadelphia tz_eastern offset_minus_4
                        fromisoformat fmt_sqrt_minutes_2f percentile_seconds
                        fmt_percentage ["19101"] session_ok world_0)
  = Raise StatisticsError.
Proof. vm_compute. reflexivity. Qed.

(** The guarded sibling: a group of one has "N/A". *)
Lemma group_of_one_has_no_deviation (offset : Q) (s : Z) :
  exists avg,
    timezone_entry fmt_sqrt_minutes_2f (offset, [s])
    = Ok (offset, mk_TimezoneStats 1 avg "N/A").
Proof. eexists. reflexivity. Qed.

(** No results: the empty summary, without failing. *)
Lemma no_results_no_statistics :
  calculate_statistics fromisoformat fmt_sqrt_minutes_2f percentile_seconds
                       fmt_percentage []
  = Ok None.
Proof. reflexivity. Qed.
End StatsProperties.

(** C5, as the claim has it, fails: whatever the floating-point
    renderings, the summary of the scenario does not have "19:20:00"
    (69600 seconds) as its average. *)
Lemma scenario_mean_is_not_69600 :
  ~ (exists fromisoformat fmt_sqrt_minutes_2f percentile_seconds fmt_percentage st,
       calculate_statistics fromisoformat fmt_sqrt_minutes_2f percentile_seconds
                            fmt_percentage scenario = Ok (Some st)
       /\ average_sunset (summary_statistics st) = "19:20:00").
Proof.
  intros (iso & sq & pc & fp & st & Hst & Havg).
  destruct (scenario_average iso sq pc fp st Hst) as [Havg' _].
  rewrite Havg in Havg'. discriminate.
Qed.

(** ** More on the TimeCodec *)

(** The three fields of [seconds_to_time], for any integer. *)
Lemma seconds_to_time_fields_mod s :
  exists h m c,
    0 <= h < 24 /\ 0 <= m < 60 /\ 0 <= c < 60
    /\ s mod 86400 = h * 3600 + m * 60 + c
    /\ seconds_to_time s = fmt_0d 2 h +:+ tail_24h m c.
Proof.
  exists ((s / 3600) mod 24), ((s mod 3600) / 60), (s mod 60).
  assert (Hh : 0 <= (s / 3600) mod 24 < 24) by (apply Z.mod_pos_bound; lia).
  assert (Hr : 0 <= s mod 3600 < 3600) by (apply Z.mod_pos_bound; lia).
  assert (Hm : 0 <= (s mod 3600) / 60 < 60)
    by (split; [apply Z.div_pos | apply Z.div_lt_upper_bound]; lia).
  assert (Hc : 0 <= s mod 60 < 60) by (apply Z.mod_pos_bound; lia).
  repeat split; try lia.
  - pose proof (Z.div_mod s 3600 ltac:(lia)) as E1.
    pose proof (Z.div_mod (s / 3600) 24 ltac:(lia)) as E2.
    pose proof (Z.div_mod (s mod 3600) 60 ltac:(lia)) as E3.
    assert (E4 : (s mod 3600) mod 60 = s mod 60)
      by (apply Z.mod_mod_divide; exists 60; lia).
    symmetry. apply (Z.mod_unique_pos s 86400 (s / 3600 / 24)); lia.
  - unfold seconds_to_time, tail_24h. now rewrite append_empty_r.
Qed.

Lemma fmt_0d_2_length : forall n, 0 <= n < 60 -> String.length (fmt_0d 2 n) = 2%nat.
Proof. enumerate_below 60%nat; reflexivity. Qed.

Lemma length_append (s t : string) :
  String.length (s +:+ t) = (String.length s + String.length t)%nat.
Proof.
  induction s as [|a s IH]; [reflexivity|].
  change (String a s +:+ t) with (String a (s +:+ t)). cbn [String.length].
  now rewrite IH.
Qed.

Section TimeCodecMore.
Variable fromisoformat : string -> result time_obj.

(** X1. For every integer, also a negative one or one past a day,
    [seconds_to_time] gives eight characters, and reading them back with
    [time_to_seconds] gives the seconds modulo one day. *)
Theorem seconds_to_time_wraps (s : Z) :
  String.length (seconds_to_time s) = 8%nat
  /\ time_to_seconds fromisoformat (JStr (seconds_to_time s)) = Ok (s mod 86400).
Proof.
  destruct (seconds_to_time_fields_mod s) as (h & m & c & Hh & Hm & Hc & Hs & ->).
  split.
  - unfold tail_24h. rewrite length_append. cbn [String.length].
    rewrite length_append. cbn [String.length]. rewrite append_empty_r.
    rewrite !fmt_0d_2_length by lia. reflexivity.
  - unfold time_to_seconds.
    rewrite strptime_12h_of_fields by assumption.
    destruct (strptime_24h_of_fields h m c Hh Hm Hc) as (t & -> & Ht).
    now rewrite Ht, Hs.
Qed.
End TimeCodecMore.

(** The hour group of the 12-hour format on an hour written without a
    leading zero and followed by a colon. *)
Lemma group_I_matches :
  forall h, 0 <= h < 13 -> 1 <= h ->
    forall k rest caps r,
      k (String ":" rest) = Some (caps, r) ->
      try_alts k "I" (alts_of "I") (str_int h +:+ String ":" rest)
      = Some (("I"%char, str_int h) :: caps, r).
Proof.
  enumerate_below 13%nat; intros H1 k rest caps r Hk; try lia;
    vm_compute; vm_compute in Hk; rewrite Hk; reflexivity.
Qed.

Lemma int_of_str_int : forall h, 0 <= h < 13 -> int_of_digits (str_int h) = h.
Proof. enumerate_below 13%nat; reflexivity. Qed.

Lemma strptime_12h_text (pm : bool) h m c :
  1 <= h <= 12 -> 0 <= m < 60 -> 0 <= c < 60 ->
  exists t,
    strptime (text_12h h m c (if pm then "PM" else "AM")) "%I:%M:%S %p" = Ok t
    /\ seconds_of t = (h mod 12 + (if pm then 12 else 0)) * 3600 + m * 60 + c.
Proof.
  intros Hh Hm Hc.
  assert (Hmatch :
    re_match [IGroup "I" (alts_of "I"); ILit ":"; IGroup "M" (alts_of "M");
              ILit ":"; IGroup "S" (alts_of "S"); IWs; IGroup "p" (alts_of "p")]
             (text_12h h m c (if pm then "PM" else "AM"))
    = Some ([("I"%char, str_int h); ("M"%char, fmt_0d 2 m); ("S"%char, fmt_0d 2 c);
             ("p"%char, if pm then "PM" else "AM")], EmptyString)).
  { unfold text_12h. rewrite re_match_group.
    apply group_I_matches; [lia | lia |].
    rewrite re_match_colon, re_match_group.
    apply two_digit_matches; [apply group_M_shape; exact Hm|].
    rewrite re_match_colon, re_match_group.
    apply two_digit_matches; [apply group_S_shape; exact Hc|].
    destruct pm; reflexivity. }
  unfold strptime.
  change (pattern "%I:%M:%S %p")
    with (Some [IGroup "I" (alts_of "I"); ILit ":"; IGroup "M" (alts_of "M");
                ILit ":"; IGroup "S" (alts_of "S"); IWs; IGroup "p" (alts_of "p")]).
  cbv beta match. rewrite Hmatch.
  unfold found_hour, found_field. cbn [found_get Ascii.eqb Bool.eqb].
  rewrite int_of_str_int by lia. rewrite !int_of_fmt_0d_2 by lia.
  assert (Hhour :
    (let ampm := lower_str (if pm then "PM" else "AM") in
     if String.eqb ampm EmptyString || String.eqb ampm "am"
     then (if h =? 12 then 0 else h)
     else if String.eqb ampm "pm" then (if h =? 12 then h else h + 12) else h)
    = h mod 12 + (if pm then 12 else 0)).
  { cbv zeta. destruct pm.
    - change (lower_str "PM") with "pm".
      change (String.eqb "pm" EmptyString || String.eqb "pm" "am") with false.
      change (String.eqb "pm" "pm") with true. cbv beta iota zeta.
      destruct (Z.eqb_spec h 12) as [->|Hne]; [reflexivity|].
      now rewrite Z.mod_small by lia.
    - change (lower_str "AM") with "am".
      change (String.eqb "am" EmptyString || String.eqb "am" "am") with true.
      cbv beta iota zeta.
      destruct (Z.eqb_spec h 12) as [->|Hne]; [reflexivity|].
      rewrite Z.mod_small by lia. lia. }
  cbv zeta in Hhour. rewrite Hhour.
  destruct (datetime_new_ok (h mod 12 + (if pm then 12 else 0)) m c)
    as (t & -> & Eh & Em & Ec).
  - unfold time_fields_ok.
    assert (0 <= h mod 12 < 12) by (apply Z.mod_pos_bound; lia).
    destruct pm; repeat (apply andb_true_intro; split); lia.
  - exists t. split; [reflexivity|]. unfold seconds_of. now rewrite Eh, Em, Ec.
Qed.

Section TwelveHour.
Variable fromisoformat : string -> result time_obj.

(** X2. A 12-hour text as the API gives it, hour 1 to 12 without leading
    zero, then minutes, seconds and AM or PM, is read as the seconds of
    that time of day: 12 AM is hour 0, 12 PM is hour 12, any other PM
    hour is 12 more. *)
Theorem time_to_seconds_12h (pm : bool) (h m c : Z) :
  1 <= h <= 12 -> 0 <= m < 60 -> 0 <= c < 60 ->
  time_to_seconds fromisoformat (JStr (text_12h h m c (if pm then "PM" else "AM")))
  = Ok ((h mod 12 + (if pm then 12 else 0)) * 3600 + m * 60 + c).
Proof.
  intros Hh Hm Hc. unfold time_to_seconds.
  destruct (strptime_12h_text pm h m c Hh Hm Hc) as (t & -> & Ht).
  now rewrite Ht.
Qed.
End TwelveHour.

Lemma time_to_seconds_12h_witness :
  time_to_seconds (fun _ => Raise ValueError) (JStr (text_12h 7 3 48 "PM"))
  = Ok ((7 mod 12 + 12) * 3600 + 3 * 60 + 48).
Proof.
  apply (time_to_seconds_12h (fun _ => Raise ValueError) true 7 3 48); lia.
Defined.

(** ** More on the GridCache *)

Lemma str_int_inj a b : str_int a = str_int b -> a = b.
Proof.
  unfold str_int. intros H.
  assert (Hnn : forall z, Z.to_int z <> Decimal.Pos Decimal.Nil
                          /\ Z.to_int z <> Decimal.Neg Decimal.Nil).
  { intros [|p|p]; cbn; split; try discriminate;
      intros [= E]; exact (Unsigned.to_uint_nonnil p E). }
  pose proof (NilZero.isi (Z.to_int a) (proj1 (Hnn a)) (proj2 (Hnn a))) as Ea.
  pose proof (NilZero.isi (Z.to_int b) (proj1 (Hnn b)) (proj2 (Hnn b))) as Eb.
  rewrite H, Eb in Ea. injection Ea as Ea.
  rewrite <- (DecimalZ.of_to a), <- (DecimalZ.of_to b). now rewrite Ea.
Qed.

Lemma uint_no_colon d : has_char ":" (NilEmpty.string_of_uint d) = false.
Proof. induction d; cbn [NilEmpty.string_of_uint has_char]; try exact IHd; reflexivity. Qed.

Lemma nz_uint_no_colon d : has_char ":" (NilZero.string_of_uint d) = false.
Proof.
  destruct d;
    first [ reflexivity
          | match goal with
            | |- has_char _ (NilZero.string_of_uint ?x) = _ => exact (uint_no_colon x)
            end ].
Qed.

Lemma str_int_no_colon a : has_char ":" (str_int a) = false.
Proof.
  unfold str_int, NilZero.string_of_int.
  destruct (Z.to_int a) as [d|d]; [apply nz_uint_no_colon|].
  cbn [has_char]. apply nz_uint_no_colon.
Qed.

Lemma has_char_append c s t :
  has_char c (s +:+ t) = has_char c s || has_char c t.
Proof.
  induction s as [|a s IH]; [reflexivity|].
  change (String a s +:+ t) with (String a (s +:+ t)). cbn [has_char].
  now rewrite IH, orb_assoc.
Qed.

(** Two texts cut at their first colon agree part by part. *)
Lemma split_at_colon s s' t t' :
  has_char ":" s = false -> has_char ":" s' = false ->
  s +:+ String ":" t = s' +:+ String ":" t' -> s = s' /\ t = t'.
Proof.
  revert s'. induction s as [|a s IH]; intros [|a' s'] Hs Hs' E.
  - injection E as <-. now split.
  - change (String ":" t = String a' (s' +:+ String ":" t')) in E.
    injection E as <- _. discriminate.
  - change (String a (s +:+ String ":" t) = String ":" t') in E.
    injection E as -> _. discriminate.
  - change (String a (s +:+ String ":" t) = String a' (s' +:+ String ":" t')) in E.
    injection E as <- E. cbn [has_char] in Hs, Hs'.
    apply orb_false_elim in Hs as [_ Hs]. apply orb_false_elim in Hs' as [_ Hs'].
    destruct (IH s' Hs Hs' E) as [-> ->]. now split.
Qed.

Lemma append_inj_r (s s' t : string) : s +:+ t = s' +:+ t -> s = s'.
Proof.
  intros E.
  assert (Hlen : String.length s = String.length s').
  { apply (f_equal String.length) in E. rewrite !length_append in E. lia. }
  revert s' E Hlen. induction s as [|a s IH]; intros [|a' s'] E Hlen;
    try discriminate; [reflexivity|].
  change (String a (s +:+ t) = String a' (s' +:+ t)) in E.
  injection E as <- E. f_equal. apply IH; [exact E|]. cbn in Hlen. lia.
Qed.

Lemma round_half_even_comp x y : (x == y)%Q -> round_half_even x = round_half_even y.
Proof.
  intros E. unfold round_half_even. rewrite (Qfloor_comp x y E).
  assert (E' : (x - inject_Z (Qfloor y) == y - inject_Z (Qfloor y))%Q) by now rewrite E.
  now rewrite (Qcompare_comp _ _ E' (1 # 2)%Q (1 # 2)%Q (Qeq_refl _)).
Qed.

Lemma fmt_1f_comp x y : (x == y)%Q -> fmt_1f x = fmt_1f y.
Proof.
  intros E. unfold fmt_1f.
  assert (E1 : (Qabs x * 10 == Qabs y * 10)%Q) by now rewrite E.
  rewrite (round_half_even_comp _ _ E1).
  now rewrite (Qleb_comp 0%Q 0%Q (Qeq_refl _) x y E).
Qed.

(** On a whole number the key part is the number and ".0". *)
Lemma fmt_1f_whole (a : Z) : fmt_1f (inject_Z a) = str_int a +:+ ".0".
Proof.
  unfold fmt_1f.
  assert (E : (Qabs (inject_Z a) * 10 == inject_Z (Z.abs a * 10))%Q).
  { unfold inject_Z, Qabs, Qmult, Qeq. cbn. lia. }
  rewrite (round_half_even_comp _ _ E).
  assert (Hr : round_half_even (inject_Z (Z.abs a * 10)) = Z.abs a * 10).
  { unfold round_half_even. rewrite Qfloor_Z.
    replace (inject_Z (Z.abs a * 10) - inject_Z (Z.abs a * 10) ?= 1 # 2)%Q with Lt;
      [reflexivity|].
    symmetry. apply (proj1 (Qlt_alt _ _)). lra. }
  rewrite Hr, Z.div_mul, Z.mod_mul by lia.
  destruct a as [|p|p]; reflexivity.
Qed.

Lemma get_cache_key_comp x y x' y' :
  (x == x')%Q -> (y == y')%Q -> get_cache_key x y = get_cache_key x' y'.
Proof.
  intros Ex Ey. unfold get_cache_key.
  now rewrite (fmt_1f_comp x x' Ex), (fmt_1f_comp y y' Ey).
Qed.

Lemma get_cache_key_whole_inj a b a' b' :
  get_cache_key (inject_Z a) (inject_Z b) = get_cache_key (inject_Z a') (inject_Z b') ->
  a = a' /\ b = b'.
Proof.
  unfold get_cache_key. rewrite !fmt_1f_whole. intros E.
  apply (inj (String.append "sunset:grid:")) in E.
  change (":" +:+ (str_int b +:+ ".0")) with (String ":" (str_int b +:+ ".0")) in E.
  change (":" +:+ (str_int b' +:+ ".0")) with (String ":" (str_int b' +:+ ".0")) in E.
  assert (Hnc : forall z, has_char ":" (str_int z +:+ ".0") = false).
  { intros z. rewrite has_char_append, str_int_no_colon. reflexivity. }
  destruct (split_at_colon _ _ _ _ (Hnc a) (Hnc a') E) as [Ea Eb].
  apply append_inj_r in Ea, Eb. split; now apply str_int_inj.
Qed.

Lemma grid_coordinate_whole x :
  (np_floor (x / GRID_SIZE) * GRID_SIZE == inject_Z (Qfloor (x / GRID_SIZE)))%Q.
Proof. unfold np_floor, GRID_SIZE. ring. Qed.

(** The cell of a point, as a pair of whole numbers. *)
Lemma cell_key_whole lat lon :
  get_cache_key (fst (_get_grid_coordinates lat lon))
                (snd (_get_grid_coordinates lat lon))
  = get_cache_key (inject_Z (Qfloor (lat / GRID_SIZE)))
                  (inject_Z (Qfloor (lon / GRID_SIZE))).
Proof.
  unfold _get_grid_coordinates. cbn [fst snd].
  apply get_cache_key_comp; apply grid_coordinate_whole.
Qed.

Lemma cell_eqb_whole lat lon lat' lon' :
  cell_eqb (_get_grid_coordinates lat lon) (_get_grid_coordinates lat' lon')
  = (Qfloor (lat / GRID_SIZE) =? Qfloor (lat' / GRID_SIZE))
    && (Qfloor (lon / GRID_SIZE) =? Qfloor (lon' / GRID_SIZE)).
Proof.
  unfold cell_eqb, _get_grid_coordinates. cbn [fst snd].
  assert (H : forall x y,
            Qeq_bool (np_floor (x / GRID_SIZE) * GRID_SIZE)
                     (np_floor (y / GRID_SIZE) * GRID_SIZE)
            = (Qfloor (x / GRID_SIZE) =? Qfloor (y / GRID_SIZE))).
  { intros x y. destruct (Z.eqb_spec (Qfloor (x / GRID_SIZE)) (Qfloor (y / GRID_SIZE)))
      as [E|Hne].
    - apply Qeq_bool_iff. rewrite !grid_coordinate_whole. now rewrite E.
    - destruct (Qeq_bool _ _) eqn:Eb; [|reflexivity].
      apply Qeq_bool_iff in Eb. rewrite !grid_coordinate_whole in Eb.
      exfalso. apply Hne. now apply inject_Z_injective. }
  now rewrite !H.
Qed.

(** X3. Two points whose cells have the same cache key are in the same
    cell: no two grid cells share a cache entry. *)
Theorem cache_key_separates_cells (lat lon lat' lon' : Q) :
  get_cache_key (fst (_get_grid_coordinates lat lon))
                (snd (_get_grid_coordinates lat lon))
  = get_cache_key (fst (_get_grid_coordinates lat' lon'))
                  (snd (_get_grid_coordinates lat' lon')) ->
  cell_eqb (_get_grid_coordinates lat lon) (_get_grid_coordinates lat' lon') = true.
Proof.
  rewrite !cell_key_whole, cell_eqb_whole. intros E.
  destruct (get_cache_key_whole_inj _ _ _ _ E) as [-> ->].
  now rewrite !Z.eqb_refl.
Qed.

Lemma cache_key_separates_cells_witness :
  cell_eqb (_get_grid_coordinates (407 # 10) (-7401 # 100))
           (_get_grid_coordinates (402 # 10) (-745 # 10)) = true.
Proof.
  apply (cache_key_separates_cells (407 # 10) (-7401 # 100) (402 # 10) (-745 # 10)).
  vm_compute. reflexivity.
Defined.

(** X4. What [set_cached_result] stores for a cell, [get_cached_result]
    gives back for the same cell at any instant less than [REDIS_EXPIRY]
    seconds after the store, and no longer from that instant on. *)
Theorem cache_round_trip (lat_grid lon_grid : Q) (data : pydict) (w w2 : World) :
  redis w2 = redis (snd (set_cached_result lat_grid lon_grid data w)) ->
  ((clock w2 < clock w + REDIS_EXPIRY)%Q ->
   fst (get_cached_result lat_grid lon_grid w2) = Ok (Some data))
  /\ ((clock w + REDIS_EXPIRY <= clock w2)%Q ->
      fst (get_cached_result lat_grid lon_grid w2) = Ok None).
Proof.
  intros Hstore. rewrite get_cached_result_run. cbn [fst].
  unfold cached_at. rewrite Hstore.
  unfold set_cached_result, redis_setex. cbn [snd set_redis redis].
  rewrite lookup_insert_eq. split; intros Hclock.
  - apply Qltb_true in Hclock. now rewrite Hclock.
  - apply Qltb_false in Hclock. now rewrite Hclock.
Qed.

Lemma cache_round_trip_witness :
  fst (get_cached_result 40 (-75)
         (at_clock (snd (set_cached_result 40 (-75) [("sunset_time", sunset_730)]
                                           world_0)) 5000))
  = Ok (Some [("sunset_time", sunset_730)])
  /\ fst (get_cached_result 40 (-75)
            (at_clock (snd (set_cached_result 40 (-75) [("sunset_time", sunset_730)]
                                              world_0)) 90000))
     = Ok None.
Proof.
  split.
  - apply (cache_round_trip 40 (-75) [("sunset_time", sunset_730)] world_0);
      [reflexivity | vm_compute; reflexivity].
  - apply (cache_round_trip 40 (-75) [("sunset_time", sunset_730)] world_0);
      [reflexivity | vm_compute; discriminate].
Defined.

(** X5. Storing a result for one cell leaves the answer for every other
    cell as it was. *)
Theorem cache_store_is_local (lat lon lat' lon' : Q) (data : pydict) (w : World) :
  cell_eqb (_get_grid_coordinates lat lon) (_get_grid_coordinates lat' lon') = false ->
  fst (get_cached_result (fst (_get_grid_coordinates lat' lon'))
                         (snd (_get_grid_coordinates lat' lon'))
         (snd (set_cached_result (fst (_get_grid_coordinates lat lon))
                                 (snd (_get_grid_coordinates lat lon)) data w)))
  = fst (get_cached_result (fst (_get_grid_coordinates lat' lon'))
                           (snd (_get_grid_coordinates lat' lon')) w).
Proof.
  intros Hne. rewrite !get_cached_result_run. cbn [fst].
  unfold cached_at, set_cached_result, redis_setex. cbn [snd set_redis redis clock].
  rewrite lookup_insert_ne; [reflexivity|].
  rewrite !cell_key_whole. intros E.
  destruct (get_cache_key_whole_inj _ _ _ _ E) as [E1 E2].
  rewrite cell_eqb_whole, E1, E2, !Z.eqb_refl in Hne. discriminate.
Qed.

Lemma cache_store_is_local_witness :
  fst (get_cached_result (fst (_get_grid_coordinates (412 # 10) (-74)))
                         (snd (_get_grid_coordinates (412 # 10) (-74)))
         (snd (set_cached_result (fst (_get_grid_coordinates (407 # 10) (-74)))
                                 (snd (_get_grid_coordinates (407 # 10) (-74)))
                                 [("sunset_time", sunset_730)] world_0)))
  = fst (get_cached_result (fst (_get_grid_coordinates (412 # 10) (-74)))
                           (snd (_get_grid_coordinates (412 # 10) (-74))) world_0).
Proof.
  apply (cache_store_is_local (407 # 10) (-74) (412 # 10) (-74)).
  vm_compute. reflexivity.
Defined.

(** ** More on the fetch *)

(** A cached dict without the field: nothing is asked of the API, and
    nothing comes back. *)
Lemma fetch_poisoned session grid_lat grid_lon locations w d :
  cached_at w grid_lat grid_lon = Some d -> d <> [] ->
  dict_get d "sunset_time" = None ->
  fetch_grid_sunset session grid_lat grid_lon locations w
  = (Ok [],
     match locations with
     | [] => record w (EvProgress 0)
     | _ :: _ => record (record w EvPrint) (EvProgress (len locations))
     end).
Proof.
  intros Hd Hne Hkey. unfold fetch_grid_sunset, try_except.
  erewrite bind_run by apply get_cached_result_run. rewrite Hd.
  destruct d as [|kv d]; [contradiction|].
  destruct locations as [|loc l].
  - reflexivity.
  - cbn [for_each]. unfold bind at 1 2 3. unfold lift, py_getitem.
    rewrite Hkey. reflexivity.
Qed.

Lemma cached_at_cases w grid_lat grid_lon :
  cache_miss w grid_lat grid_lon
  \/ cached_at w grid_lat grid_lon = Some []
  \/ (exists v, cache_hit w grid_lat grid_lon v)
  \/ (exists d, cached_at w grid_lat grid_lon = Some d /\ d <> []
                /\ dict_get d "sunset_time" = None).
Proof.
  unfold cache_miss, cache_hit.
  destruct (cached_at w grid_lat grid_lon) as [[|kv d]|] eqn:E; auto.
  destruct (dict_get (kv :: d) "sunset_time") as [v|] eqn:Ev.
  - right. right. left. exists v, (kv :: d). now split.
  - right. right. right. exists (kv :: d). repeat split; [discriminate | exact Ev].
Qed.

Lemma progress_total_record w e :
  progress_total (record w e) = progress_of e + progress_total w.
Proof. reflexivity. Qed.

Lemma progress_total_after_request w grid_lat grid_lon :
  progress_total (after_request w grid_lat grid_lon) = progress_total w.
Proof.
  unfold progress_total. rewrite after_request_trace. reflexivity.
Qed.

Lemma progress_total_after_store w grid_lat grid_lon v :
  progress_total (after_store w grid_lat grid_lon v) = progress_total w.
Proof.
  unfold progress_total, after_store. cbn [set_redis trace].
  rewrite after_request_trace. reflexivity.
Qed.

(** Every fetch, whatever its path: it returns; what it returns is
    nothing or one result per location under one sunset text; the
    progress bar moves by the number of locations; and there is a request
    exactly when the limiter was passed. *)
Lemma fetch_summary session grid_lat grid_lon locations w :
  exists results w',
    fetch_grid_sunset session grid_lat grid_lon locations w = (Ok results, w')
    /\ (results = [] \/ exists v, results = results_for v locations)
    /\ progress_total w' = progress_total w + len locations
    /\ ((count_events is_acquire w' = count_events is_acquire w
         /\ count_events is_request w' = count_events is_request w)
        \/ (count_events is_acquire w' = S (count_events is_acquire w)
            /\ count_events is_request w' = S (count_events is_request w))).
Proof.
  destruct (cached_at_cases w grid_lat grid_lon)
    as [Hmiss | [Hempty | [[v Hhit] | (d & Hd & Hne & Hkey)]]].
  - rewrite fetch_miss by (left; exact Hmiss).
    destruct (response_sunset _) as [v|]; eexists _, _; (split; [reflexivity|]).
    + split; [right; now exists v|]. split.
      * rewrite progress_total_record, progress_total_after_store.
        cbn [progress_of]. lia.
      * right. unfold count_events, after_store. cbn [record set_redis trace].
        rewrite after_request_trace. split; reflexivity.
    + split; [now left|]. split.
      * rewrite !progress_total_record, progress_total_after_request.
        cbn [progress_of]. lia.
      * right. unfold count_events. cbn [record trace].
        rewrite after_request_trace. split; reflexivity.
  - rewrite fetch_miss by (right; exact Hempty).
    destruct (response_sunset _) as [v|]; eexists _, _; (split; [reflexivity|]).
    + split; [right; now exists v|]. split.
      * rewrite progress_total_record, progress_total_after_store.
        cbn [progress_of]. lia.
      * right. unfold count_events, after_store. cbn [record set_redis trace].
        rewrite after_request_trace. split; reflexivity.
    + split; [now left|]. split.
      * rewrite !progress_total_record, progress_total_after_request.
        cbn [progress_of]. lia.
      * right. unfold count_events. cbn [record trace].
        rewrite after_request_trace. split; reflexivity.
  - rewrite (fetch_hit session grid_lat grid_lon locations w v Hhit).
    eexists _, _. split; [reflexivity|]. split; [right; now exists v|].
    split; [rewrite progress_total_record; cbn [progress_of]; lia|].
    left. split; reflexivity.
  - rewrite (fetch_poisoned session grid_lat grid_lon locations w d Hd Hne Hkey).
    eexists _, _. split; [reflexivity|]. split; [now left|].
    destruct locations as [|loc l].
    + split; [rewrite progress_total_record; change (len (@nil Location)) with 0;
              cbn [progress_of]; lia|].
      left. split; reflexivity.
    + split; [rewrite !progress_total_record; cbn [progress_of]; lia|].
      left. split; reflexivity.
Qed.

(** X6. [fetch_grid_sunset] never raises, in any world and whatever the
    session answers: it returns no result, or one result per location,
    all under one sunset text. *)
Theorem fetch_returns_all_or_nothing session grid_lat grid_lon locations w :
  exists results,
    fst (fetch_grid_sunset session grid_lat grid_lon locations w) = Ok results
    /\ (results = [] \/ exists v, results = results_for v locations).
Proof.
  destruct (fetch_summary session grid_lat grid_lon locations w)
    as (results & w' & E & Hshape & _).
  exists results. rewrite E. split; [reflexivity | exact Hshape].
Qed.

(** X7. Whichever way a fetch ends, hit, success, failure or exception,
    it advances the progress bar by the number of the cell's locations,
    once. *)
Theorem fetch_counts_progress session grid_lat grid_lon locations w :
  progress_total (snd (fetch_grid_sunset session grid_lat grid_lon locations w))
  = progress_total w + len locations.
Proof.
  destruct (fetch_summary session grid_lat grid_lon locations w)
    as (results & w' & E & _ & Hprogress & _).
  now rewrite E.
Qed.

(** X8. A cached entry that is a non-empty dict without [sunset_time]
    blocks its cell: the fetch gives no result for the cell's locations,
    and it neither passes the limiter, nor asks the API, nor repairs the
    entry. *)
Theorem malformed_entry_blocks_cell session grid_lat grid_lon locations w d :
  cached_at w grid_lat grid_lon = Some d -> d <> [] ->
  dict_get d "sunset_time" = None -> locations <> [] ->
  let '(r, w') := fetch_grid_sunset session grid_lat grid_lon locations w in
  r = Ok []
  /\ redis w' = redis w
  /\ limiter w' = limiter w
  /\ count_events is_acquire w' = count_events is_acquire w
  /\ count_events is_request w' = count_events is_request w.
Proof.
  intros Hd Hne Hkey Hlocs.
  rewrite (fetch_poisoned session grid_lat grid_lon locations w d Hd Hne Hkey).
  destruct locations as [|loc l]; [contradiction|].
  repeat split; reflexivity.
Qed.

Lemma malformed_entry_blocks_cell_witness :
  let '(r, w') := fetch_grid_sunset session_ok 40 (-75) five_locations world_poisoned in
  r = Ok []
  /\ redis w' = redis world_poisoned
  /\ limiter w' = limiter world_poisoned
  /\ count_events is_acquire w' = count_events is_acquire world_poisoned
  /\ count_events is_request w' = count_events is_request world_poisoned.
Proof.
  apply (malformed_entry_blocks_cell session_ok 40 (-75) five_locations world_poisoned
                                     [("sunset", sunset_730)]).
  - vm_compute. reflexivity.
  - discriminate.
  - reflexivity.
  - discriminate.
Defined.

Lemma clock_after_successful_fetch session grid_lat grid_lon locations w v :
  cache_miss w grid_lat grid_lon ->
  response_sunset (answer_at session w grid_lat grid_lon) = Some v ->
  snd (fetch_grid_sunset session grid_lat grid_lon locations w)
  = record (after_store w grid_lat grid_lon v) (EvProgress (len locations)).
Proof.
  intros Hmiss Hok. rewrite fetch_miss by (left; exact Hmiss). now rewrite Hok.
Qed.

Lemma cached_after_store w grid_lat grid_lon v (locations : list Location) w2 :
  redis w2 = redis (record (after_store w grid_lat grid_lon v)
                           (EvProgress (len locations))) ->
  cached_at w2 grid_lat grid_lon
  = if Qltb (clock w2) (clock (after_request w grid_lat grid_lon) + REDIS_EXPIRY)%Q
    then Some [("sunset_time", v)] else None.
Proof.
  intros Hstore. unfold cached_at. rewrite Hstore.
  unfold after_store. cbn [record set_redis redis]. now rewrite lookup_insert_eq.
Qed.

(** X9. After a fetch that succeeded through the API, any later fetch of
    the same cell that starts with the same store, less than
    [REDIS_EXPIRY] seconds after the first one ended, is served from the
    cache: the same sunset text for each of its locations, with no pass
    through the limiter and no request. *)
Theorem second_fetch_within_ttl session grid_lat grid_lon locations w v
                                session' locations' w2 :
  cache_miss w grid_lat grid_lon ->
  response_sunset (answer_at session w grid_lat grid_lon) = Some v ->
  redis w2 = redis (snd (fetch_grid_sunset session grid_lat grid_lon locations w)) ->
  (clock w2 < clock (snd (fetch_grid_sunset session grid_lat grid_lon locations w))
              + REDIS_EXPIRY)%Q ->
  fetch_grid_sunset session' grid_lat grid_lon locations' w2
  = (Ok (results_for v locations'), record w2 (EvProgress (len locations'))).
Proof.
  intros Hmiss Hok.
  rewrite (clock_after_successful_fetch session grid_lat grid_lon locations w v Hmiss Hok).
  intros Hstore Hclock. apply fetch_hit.
  exists [("sunset_time", v)]. split; [|reflexivity].
  rewrite (cached_after_store w grid_lat grid_lon v locations w2 Hstore).
  cbn [record clock] in Hclock. unfold after_store in Hclock.
  cbn [set_redis clock] in Hclock. apply Qltb_true in Hclock. now rewrite Hclock.
Qed.

(** X10. Once [REDIS_EXPIRY] seconds have passed since that fetch ended,
    the entry counts for nothing: the next fetch of the cell passes the
    limiter and asks the API again. *)
Theorem fetch_after_ttl_asks_again session grid_lat grid_lon locations w v
                                   session' locations' w2 :
  cache_miss w grid_lat grid_lon ->
  response_sunset (answer_at session w grid_lat grid_lon) = Some v ->
  redis w2 = redis (snd (fetch_grid_sunset session grid_lat grid_lon locations w)) ->
  (clock (snd (fetch_grid_sunset session grid_lat grid_lon locations w))
   + REDIS_EXPIRY <= clock w2)%Q ->
  let w3 := snd (fetch_grid_sunset session' grid_lat grid_lon locations' w2) in
  count_events is_acquire w3 = S (count_events is_acquire w2)
  /\ count_events is_request w3 = S (count_events is_request w2).
Proof.
  intros Hmiss Hok.
  rewrite (clock_after_successful_fetch session grid_lat grid_lon locations w v Hmiss Hok).
  intros Hstore Hclock w3. subst w3.
  assert (Hmiss2 : cache_miss w2 grid_lat grid_lon).
  { unfold cache_miss.
    rewrite (cached_after_store w grid_lat grid_lon v locations w2 Hstore).
    cbn [record clock] in Hclock. unfold after_store in Hclock.
    cbn [set_redis clock] in Hclock. apply Qltb_false in Hclock. now rewrite Hclock. }
  rewrite fetch_miss by (left; exact Hmiss2).
  unfold count_events.
  destruct (response_sunset (answer_at session' w2 grid_lat grid_lon)) as [v'|];
    cbn [snd record trace]; unfold after_store; cbn [set_redis trace];
    rewrite after_request_trace; split; reflexivity.
Qed.

Lemma redis_at_clock w t : redis (at_clock w t) = redis w.
Proof. reflexivity. Qed.

Lemma second_fetch_within_ttl_witness :
  fetch_grid_sunset session_timeout 40 (-75) five_locations world_fetched
  = (Ok (results_for sunset_730 five_locations),
     record world_fetched (EvProgress (len five_locations))).
Proof.
  apply (second_fetch_within_ttl session_ok 40 (-75) five_locations world_0 sunset_730
                                 session_timeout five_locations world_fetched).
  - vm_compute. reflexivity.
  - vm_compute. reflexivity.
  - reflexivity.
  - vm_compute. reflexivity.
Defined.

Lemma fetch_after_ttl_asks_again_witness :
  let w3 := snd (fetch_grid_sunset session_timeout 40 (-75) five_locations
                                   (at_clock world_fetched 90000)) in
  count_events is_acquire w3 = S (count_events is_acquire (at_clock world_fetched 90000))
  /\ count_events is_request w3
     = S (count_events is_request (at_clock world_fetched 90000)).
Proof.
  apply (fetch_after_ttl_asks_again session_ok 40 (-75) five_locations world_0
           sunset_730 session_timeout five_locations (at_clock world_fetched 90000)).
  - vm_compute. reflexivity.
  - vm_compute. reflexivity.
  - exact (redis_at_clock world_fetched 90000).
  - vm_compute. discriminate.
Defined.

Section NonTextSunset.
Variable fromisoformat : string -> result time_obj.
Variable fmt_sqrt_minutes_2f : surd -> string.
Variable percentile_seconds : list Z -> Z -> Z.
Variable fmt_percentage : Z -> Z -> string.

(** X11. An answer with status 200 whose [sunset] is not a string (null,
    a number, ...) passes the fetch as a success: it is cached and given
    to every location.  The statistics of any results that start with it
    raise [TypeError]. *)
Theorem non_text_sunset_breaks_statistics session grid_lat grid_lon locations w v :
  cache_miss w grid_lat grid_lon ->
  response_sunset (answer_at session w grid_lat grid_lon) = Some v ->
  is_text v = false -> locations <> [] ->
  let '(r, w') := fetch_grid_sunset session grid_lat grid_lon locations w in
  r = Ok (results_for v locations)
  /\ cache_hit w' grid_lat grid_lon v
  /\ forall more,
       calculate_statistics fromisoformat fmt_sqrt_minutes_2f percentile_seconds
                            fmt_percentage (results_for v locations ++ more)%list
       = Raise TypeError.
Proof.
  intros Hmiss Hok Htext Hlocs.
  pose proof (fetched_cell_is_cached session grid_lat grid_lon locations w v Hmiss Hok)
    as Hcached.
  rewrite fetch_miss in * by (left; exact Hmiss). rewrite Hok in *.
  split; [reflexivity|]. split; [exact Hcached|].
  intros more. destruct locations as [|loc l]; [contradiction|].
  unfold calculate_statistics. cbn [results_for map app rmap sunset_time].
  destruct v; try discriminate; reflexivity.
Qed.
End NonTextSunset.

Lemma non_text_sunset_breaks_statistics_witness :
  let '(r, w') := fetch_grid_sunset session_null 40 (-75) five_locations world_0 in
  r = Ok (results_for JNull five_locations)
  /\ cache_hit w' 40 (-75) JNull
  /\ forall more,
       calculate_statistics (fun _ => Raise ValueError) (fun _ => EmptyString)
                            (fun _ _ => 0) (fun _ _ => EmptyString)
                            (results_for JNull five_locations ++ more)%list
       = Raise TypeError.
Proof.
  apply (non_text_sunset_breaks_statistics
           (fun _ => Raise ValueError) (fun _ => EmptyString)
           (fun _ _ => 0) (fun _ _ => EmptyString)
           session_null 40 (-75) five_locations world_0 JNull).
  - vm_compute. reflexivity.
  - vm_compute. reflexivity.
  - reflexivity.
  - discriminate.
Defined.

(** ** More on the GeographicBatcher *)

Lemma cell_eqb_refl c : cell_eqb c c = true.
Proof.
  unfold cell_eqb. apply andb_true_intro. split; apply Qeq_bool_iff; reflexivity.
Qed.

Lemma cell_eqb_sym a b : cell_eqb a b = cell_eqb b a.
Proof.
  unfold cell_eqb.
  assert (H : forall x y, Qeq_bool x y = Qeq_bool y x).
  { intros x y. destruct (Qeq_bool x y) eqn:E, (Qeq_bool y x) eqn:E'; try reflexivity.
    - apply Qeq_bool_iff in E. symmetry in E. apply Qeq_bool_iff in E. congruence.
    - apply Qeq_bool_iff in E'. symmetry in E'. apply Qeq_bool_iff in E'. congruence. }
  now rewrite (H (fst a)), (H (snd a)).
Qed.

Lemma cell_eqb_trans a b c :
  cell_eqb a b = true -> cell_eqb b c = true -> cell_eqb a c = true.
Proof.
  unfold cell_eqb. intros H1 H2.
  apply andb_prop in H1 as [H1 H1'], H2 as [H2 H2'].
  apply Qeq_bool_iff in H1, H1', H2, H2'.
  apply andb_true_intro. split; apply Qeq_bool_iff.
  - now rewrite H1. - now rewrite H1'.
Qed.

(** Where an entry of the map after [grid_append] comes from. *)
Lemma grid_append_entries cell loc gm :
  keys_distinct gm ->
  forall c ls, In (c, ls) (grid_append cell loc gm) ->
    (In (c, ls) gm /\ cell_eqb c cell = false)
    \/ (exists ls0, In (c, ls0) gm /\ cell_eqb c cell = true /\ ls = (ls0 ++ [loc])%list)
    \/ (c = cell /\ ls = [loc]
        /\ forall c' l', In (c', l') gm -> cell_eqb c' cell = false).
Proof.
  induction gm as [|[c' l'] gm IH]; intros Hd c ls Hin.
  - cbn in Hin. destruct Hin as [[= <- <-]|[]]. right. right. repeat split. intros ? ? [].
  - destruct Hd as [Hhead Hd]. cbn [grid_append] in Hin.
    destruct (cell_eqb c' cell) eqn:Ec.
    + destruct Hin as [[= <- <-]|Hin].
      * right. left. exists l'. repeat split; [now left | exact Ec].
      * left. split; [now right|].
        destruct (cell_eqb c cell) eqn:Ec2; [|reflexivity].
        rewrite cell_eqb_sym in Ec2.
        pose proof (cell_eqb_trans _ _ _ Ec Ec2) as Et.
        specialize (Hhead c ls Hin). congruence.
    + destruct Hin as [[= <- <-]|Hin].
      * left. split; [now left | exact Ec].
      * destruct (IH Hd c ls Hin) as [[H1 H2] | [(ls0 & H1 & H2 & H3) | (H1 & H2 & H3)]].
        -- left. split; [now right | exact H2].
        -- right. left. exists ls0. repeat split; [now right | exact H2 | exact H3].
        -- right. right. repeat split; [exact H1 | exact H2 |].
           intros c2 l2 [[= <- <-]|Hin2]; [exact Ec | exact (H3 c2 l2 Hin2)].
Qed.

(** Every entry keeps its place under [grid_append], and the cell added
    to has an entry afterwards. *)
Lemma grid_append_keeps cell loc gm c ls :
  In (c, ls) gm -> exists ls', In (c, ls') (grid_append cell loc gm).
Proof.
  induction gm as [|[c' l'] gm IH]; intros Hin; [destruct Hin|].
  cbn [grid_append]. destruct (cell_eqb c' cell) eqn:Ec.
  - destruct Hin as [[= <- <-]|Hin].
    + eexists. now left.
    + eexists. right. exact Hin.
  - destruct Hin as [[= <- <-]|Hin].
    + eexists. now left.
    + destruct (IH Hin) as [ls' H]. exists ls'. now right.
Qed.

Lemma grid_append_has_cell cell loc gm :
  exists c ls, In (c, ls) (grid_append cell loc gm) /\ cell_eqb c cell = true.
Proof.
  induction gm as [|[c' l'] gm IH].
  - exists cell, [loc]. split; [now left | apply cell_eqb_refl].
  - cbn [grid_append]. destruct (cell_eqb c' cell) eqn:Ec.
    + eexists c', _. split; [now left | exact Ec].
    + destruct IH as (c & ls & H1 & H2). exists c, ls. split; [now right | exact H2].
Qed.

Lemma grid_append_distinct cell loc gm :
  keys_distinct gm -> keys_distinct (grid_append cell loc gm).
Proof.
  induction gm as [|[c' l'] gm IH]; intros Hd.
  - cbn. split; [intros ? ? [] | exact I].
  - destruct Hd as [Hhead Hd]. cbn [grid_append].
    destruct (cell_eqb c' cell) eqn:Ec; cbn [keys_distinct].
    + split; assumption.
    + split; [|exact (IH Hd)].
      intros c2 l2 Hin.
      destruct (grid_append_entries cell loc gm Hd c2 l2 Hin)
        as [[H1 _] | [(ls0 & H1 & _) | (-> & _ & _)]].
      * exact (Hhead c2 l2 H1).
      * exact (Hhead c2 ls0 H1).
      * exact Ec.
Qed.

Lemma filter_none {A} (p : A -> bool) (l : list A) :
  (forall x, In x l -> p x = false) -> List.filter p l = [].
Proof.
  induction l as [|x l IH]; intros H; [reflexivity|].
  cbn. rewrite (H x (or_introl eq_refl)). apply IH. intros y Hy. apply H. now right.
Qed.

(** Adding a location keeps the map sorted by cell. *)
Lemma grid_append_sorts gm added loc :
  sorts_by_cell gm added ->
  sorts_by_cell (grid_append (cell_of loc) loc gm) (added ++ [loc])%list.
Proof.
  intros (Hd & Hcontent & Hcover). split; [|split].
  - now apply grid_append_distinct.
  - intros c ls Hin. rewrite List.filter_app. cbn [List.filter].
    assert (E : in_cell c loc = cell_eqb c (cell_of loc)) by reflexivity.
    destruct (grid_append_entries (cell_of loc) loc gm Hd c ls Hin)
      as [[H1 H2] | [(ls0 & H1 & H2 & ->) | (-> & -> & H3)]].
    + destruct (Hcontent c ls H1) as [Hne Hls]. rewrite E, H2.
      rewrite app_nil_r. now split.
    + destruct (Hcontent c ls0 H1) as [Hne Hls]. rewrite E, H2.
      split; [now destruct ls0 | now rewrite <- Hls].
    + rewrite E, cell_eqb_refl. split; [discriminate|].
      rewrite filter_none; [reflexivity|].
      intros l Hl. destruct (in_cell (cell_of loc) l) eqn:El; [|reflexivity].
      destruct (Hcover l Hl) as (c0 & ls0 & Hin0 & Hc0).
      unfold in_cell in El, Hc0. rewrite cell_eqb_sym in El.
      pose proof (cell_eqb_trans _ _ _ Hc0 El) as Et.
      specialize (H3 c0 ls0 Hin0). congruence.
  - intros l Hl. apply in_app_or in Hl as [Hl | [-> | []]].
    + destruct (Hcover l Hl) as (c & ls & Hin & Hc).
      destruct (grid_append_keeps (cell_of loc) loc gm c ls Hin) as [ls' Hin'].
      now exists c, ls'.
    + destruct (grid_append_has_cell (cell_of l) l gm) as (c & ls & Hin & Hc).
      now exists c, ls.
Qed.

Lemma sorts_by_cell_empty : sorts_by_cell [] [].
Proof. split; [exact I|]. split; [intros ? ? [] | intros ? []]. Qed.

Lemma placed_grid_append_length cell loc gm :
  length (placed (grid_append cell loc gm)) = S (length (placed gm)).
Proof.
  unfold placed. induction gm as [|[c' l'] gm IH]; [reflexivity|].
  cbn [grid_append]. destruct (cell_eqb c' cell); cbn [map snd concat].
  - rewrite !length_app. cbn [length]. lia.
  - rewrite !length_app, IH. lia.
Qed.

Lemma keys_distinct_nth gm :
  keys_distinct gm ->
  forall i j ci li cj lj,
    nth_error gm i = Some (ci, li) -> nth_error gm j = Some (cj, lj) ->
    i <> j -> cell_eqb ci cj = false.
Proof.
  induction gm as [|[c l] gm IH]; intros Hd i j ci li cj lj Hi Hj Hne.
  - destruct i; discriminate.
  - destruct Hd as [Hhead Hd]. destruct i as [|i], j as [|j]; cbn in Hi, Hj.
    + contradiction.
    + injection Hi as <- <-. exact (Hhead cj lj (nth_error_In _ _ Hj)).
    + injection Hj as <- <-. rewrite cell_eqb_sym.
      exact (Hhead ci li (nth_error_In _ _ Hi)).
    + apply (IH Hd i j ci li cj lj Hi Hj). congruence.
Qed.

Lemma center_half x : (center x == x + (1 # 2))%Q.
Proof. unfold center, GRID_SIZE. field. Qed.

Section BatcherMore.
Variable zipcodes_matching : string -> result (list ZipRecord).
Variable timezone_at : Q -> Q -> option string.
Variable utc_offset_hours : string -> result Q.

Lemma prepare_from_sorts codes :
  forall gm gm' added,
    sorts_by_cell gm added ->
    prepare_from zipcodes_matching timezone_at utc_offset_hours codes gm = Ok gm' ->
    sorts_by_cell gm' (added ++ resolved zipcodes_matching timezone_at
                                         utc_offset_hours codes)%list.
Proof.
  induction codes as [|z codes IH]; intros gm gm' added Hs Hrun.
  - cbn in Hrun. injection Hrun as <-. cbn [resolved]. now rewrite app_nil_r.
  - cbn [prepare_from resolved] in *.
    destruct (locate zipcodes_matching timezone_at utc_offset_hours z)
      as [[loc|]|e]; cbn [rbind] in Hrun; [| |discriminate].
    + replace (added ++ loc :: resolved zipcodes_matching timezone_at
                                        utc_offset_hours codes)%list
        with ((added ++ [loc]) ++ resolved zipcodes_matching timezone_at
                                           utc_offset_hours codes)%list
        by (now rewrite <- app_assoc).
      apply (IH _ _ _ (grid_append_sorts gm added loc Hs) Hrun).
    + exact (IH _ _ _ Hs Hrun).
Qed.

Lemma prepare_from_length codes :
  forall gm gm',
    prepare_from zipcodes_matching timezone_at utc_offset_hours codes gm = Ok gm' ->
    length (placed gm')
    = (length (placed gm)
       + length (resolved zipcodes_matching timezone_at utc_offset_hours codes))%nat.
Proof.
  induction codes as [|z codes IH]; intros gm gm' Hrun.
  - cbn in Hrun. injection Hrun as <-. cbn. lia.
  - cbn [prepare_from resolved] in *.
    destruct (locate zipcodes_matching timezone_at utc_offset_hours z)
      as [[loc|]|e]; cbn [rbind] in Hrun; [| |discriminate].
    + rewrite (IH _ _ Hrun), placed_grid_append_length. cbn [length]. lia.
    + exact (IH _ _ Hrun).
Qed.

Lemma resolved_length codes :
  (length (resolved zipcodes_matching timezone_at utc_offset_hours codes)
   <= length codes)%nat.
Proof.
  induction codes as [|z codes IH]; [reflexivity|]. cbn [resolved length].
  destruct (locate zipcodes_matching timezone_at utc_offset_hours z) as [[loc|]|e];
    cbn [length]; lia.
Qed.

(** A list of codes that went through once goes through from any map. *)
Lemma prepare_from_again codes :
  forall gm gm',
    prepare_from zipcodes_matching timezone_at utc_offset_hours codes gm = Ok gm' ->
    forall gm2, exists gm2',
      prepare_from zipcodes_matching timezone_at utc_offset_hours codes gm2 = Ok gm2'.
Proof.
  induction codes as [|z codes IH]; intros gm gm' Hrun gm2.
  - now exists gm2.
  - cbn [prepare_from] in *.
    destruct (locate zipcodes_matching timezone_at utc_offset_hours z)
      as [[loc|]|e]; cbn [rbind] in *; [| |discriminate];
      exact (IH _ _ Hrun _).
Qed.

Lemma prepare_batches_init codes b :
  prepare_batches zipcodes_matching timezone_at utc_offset_hours
                  (GeographicBatcher_init codes) = Ok b ->
  zip_codes b = codes
  /\ prepare_from zipcodes_matching timezone_at utc_offset_hours codes []
     = Ok (grid_map b).
Proof.
  unfold prepare_batches, GeographicBatcher_init. cbn [zip_codes grid_map].
  destruct (prepare_from zipcodes_matching timezone_at utc_offset_hours codes [])
    as [gm|e]; cbn [rbind]; [|discriminate].
  intros [= <-]. split; reflexivity.
Qed.

(** X12. In the grid map of [prepare_batches] every cell has at least one
    location, and holds exactly the resolved locations that fall in it,
    in the order of their codes. *)
Theorem grid_map_sorted_by_cell (codes : list string) (b : GeographicBatcher) :
  prepare_batches zipcodes_matching timezone_at utc_offset_hours
                  (GeographicBatcher_init codes) = Ok b ->
  forall cell locs, In (cell, locs) (grid_map b) ->
    locs <> []
    /\ locs = List.filter (in_cell cell)
                (resolved zipcodes_matching timezone_at utc_offset_hours codes).
Proof.
  intros Hb. destruct (prepare_batches_init codes b Hb) as [_ Hrun].
  exact (proj1 (proj2 (prepare_from_sorts codes [] (grid_map b) []
                         sorts_by_cell_empty Hrun))).
Qed.

(** X13. No two entries of the grid map are for the same cell. *)
Theorem grid_map_cells_distinct (codes : list string) (b : GeographicBatcher) :
  prepare_batches zipcodes_matching timezone_at utc_offset_hours
                  (GeographicBatcher_init codes) = Ok b ->
  forall i j ci li cj lj,
    nth_error (grid_map b) i = Some (ci, li) ->
    nth_error (grid_map b) j = Some (cj, lj) ->
    i <> j -> cell_eqb ci cj = false.
Proof.
  intros Hb. destruct (prepare_batches_init codes b Hb) as [_ Hrun].
  apply keys_distinct_nth.
  exact (proj1 (prepare_from_sorts codes [] (grid_map b) [] sorts_by_cell_empty Hrun)).
Qed.

(** X14. Every location of the grid map lies in the cell it is filed
    under, so the point the API is asked about, the centre of the cell,
    is at most half a degree from it in latitude and in longitude. *)
Theorem location_near_request_point (codes : list string) (b : GeographicBatcher) :
  prepare_batches zipcodes_matching timezone_at utc_offset_hours
                  (GeographicBatcher_init codes) = Ok b ->
  forall cell locs loc, In (cell, locs) (grid_map b) -> In loc locs ->
    (fst cell <= loc_lat loc < fst cell + GRID_SIZE
     /\ snd cell <= loc_lon loc < snd cell + GRID_SIZE
     /\ center (fst cell) - (1 # 2) <= loc_lat loc <= center (fst cell) + (1 # 2)
     /\ center (snd cell) - (1 # 2) <= loc_lon loc <= center (snd cell) + (1 # 2))%Q.
Proof.
  intros Hb cell locs loc Hin Hloc. destruct (prepare_batches_init codes b Hb) as [_ Hrun].
  destruct (proj1 (proj2 (prepare_from_sorts codes [] (grid_map b) []
                            sorts_by_cell_empty Hrun)) cell locs Hin) as [_ Hlocs].
  rewrite Hlocs in Hloc. apply List.filter_In in Hloc as [_ Hcell].
  unfold in_cell, cell_eqb, cell_of, _get_grid_coordinates in Hcell. cbn [fst snd] in Hcell.
  apply andb_prop in Hcell as [Hlat Hlon]. apply Qeq_bool_iff in Hlat, Hlon.
  destruct (floor_cell_bounds (loc_lat loc)) as [? ?].
  destruct (floor_cell_bounds (loc_lon loc)) as [? ?].
  set (a := (np_floor (loc_lat loc / GRID_SIZE) * GRID_SIZE)%Q) in *.
  set (o := (np_floor (loc_lon loc / GRID_SIZE) * GRID_SIZE)%Q) in *.
  clearbody a o. destruct cell as [c1 c2]. cbn [fst snd] in *.
  rewrite !center_half. unfold GRID_SIZE in *. repeat split; lra.
Qed.

(** X15. The grid map holds one location for each code that resolved,
    and so no more locations than there are codes. *)
Theorem grid_map_counts_resolved (codes : list string) (b : GeographicBatcher) :
  prepare_batches zipcodes_matching timezone_at utc_offset_hours
                  (GeographicBatcher_init codes) = Ok b ->
  length (placed (grid_map b))
  = length (resolved zipcodes_matching timezone_at utc_offset_hours codes)
  /\ (length (placed (grid_map b)) <= length codes)%nat.
Proof.
  intros Hb. destruct (prepare_batches_init codes b Hb) as [_ Hrun].
  pose proof (prepare_from_length codes [] (grid_map b) Hrun) as Hlen.
  pose proof (resolved_length codes). cbn in Hlen. split; lia.
Qed.

(** X16. [prepare_batches] is not idempotent: the grid map stays in the
    batcher, and a second call files every location once more, so each
    cell then holds its locations twice over. *)
Theorem prepare_batches_twice (codes : list string) (b : GeographicBatcher) :
  prepare_batches zipcodes_matching timezone_at utc_offset_hours
                  (GeographicBatcher_init codes) = Ok b ->
  exists b2,
    prepare_batches zipcodes_matching timezone_at utc_offset_hours b = Ok b2
    /\ length (placed (grid_map b2)) = (2 * length (placed (grid_map b)))%nat
    /\ forall cell locs, In (cell, locs) (grid_map b2) ->
         let once := List.filter (in_cell cell)
                       (resolved zipcodes_matching timezone_at utc_offset_hours codes)
         in locs = (once ++ once)%list.
Proof.
  intros Hb. destruct (prepare_batches_init codes b Hb) as [Hcodes Hrun].
  destruct (prepare_from_again codes [] (grid_map b) Hrun (grid_map b)) as [gm2 Hrun2].
  exists (mk_GeographicBatcher codes gm2). unfold prepare_batches.
  rewrite Hcodes, Hrun2. cbn [rbind grid_map]. split; [reflexivity|]. split.
  - rewrite (prepare_from_length codes _ _ Hrun2).
    pose proof (prepare_from_length codes [] (grid_map b) Hrun) as Hlen.
    cbn in Hlen. lia.
  - intros cell locs Hin.
    pose proof (prepare_from_sorts codes [] (grid_map b) [] sorts_by_cell_empty Hrun)
      as Hs1.
    cbn [app] in Hs1.
    destruct (proj1 (proj2 (prepare_from_sorts codes _ gm2 _ Hs1 Hrun2)) cell locs Hin)
      as [_ ->].
    cbv zeta. now rewrite List.filter_app.
Qed.



Lemma prepare_from_raises pre z post e :
  (forall z', In z' pre ->
     exists r, locate zipcodes_matching timezone_at utc_offset_hours z' = Ok r) ->
  locate zipcodes_matching timezone_at utc_offset_hours z = Raise e ->
  forall gm,
    prepare_from zipcodes_matching timezone_at utc_offset_hours
                 (pre ++ z :: post)%list gm = Raise e.
Proof.
  intros Hpre Hz. induction pre as [|z' pre IH]; intros gm.
  - cbn [app prepare_from]. now rewrite Hz.
  - cbn [app prepare_from].
    destruct (Hpre z' (or_introl eq_refl)) as [[loc|] ->]; cbn [rbind];
      apply IH; intros z2 H2; apply Hpre; now right.
Qed.

(** X18. One code on which the lookup raises loses the whole batch:
    [prepare_batches] raises that error, the first in the order of the
    codes, and returns no grid map. *)
Theorem first_lookup_error_aborts (pre : list string) (z : string)
                                  (post : list string) (e : exn) :
  (forall z', In z' pre ->
     exists r, locate zipcodes_matching timezone_at utc_offset_hours z' = Ok r) ->
  locate zipcodes_matching timezone_at utc_offset_hours z = Raise e ->
  prepare_batches zipcodes_matching timezone_at utc_offset_hours
                  (GeographicBatcher_init (pre ++ z :: post)%list) = Raise e.
Proof.
  intros Hpre Hz. unfold prepare_batches, GeographicBatcher_init.
  cbn [zip_codes grid_map]. now rewrite (prepare_from_raises pre z post e Hpre Hz).
Qed.
End BatcherMore.

Lemma batcher_cities_prepared :
  prepare_batches db_cities tz_eastern offset_minus_4
                  (GeographicBatcher_init codes_cities) = Ok batcher_cities.
Proof. vm_compute. reflexivity. Defined.

Lemma grid_map_sorted_by_cell_witness :
  [new_york] <> []
  /\ [new_york] = List.filter (in_cell (40%Q, (-74)%Q))
                    (resolved db_cities tz_eastern offset_minus_4 codes_cities).
Proof.
  apply (grid_map_sorted_by_cell db_cities tz_eastern offset_minus_4
           codes_cities batcher_cities batcher_cities_prepared (40%Q, (-74)%Q)).
  right. left. reflexivity.
Defined.

Lemma grid_map_cells_distinct_witness :
  cell_eqb (39%Q, (-76)%Q) (40%Q, (-74)%Q) = false.
Proof.
  apply (grid_map_cells_distinct db_cities tz_eastern offset_minus_4
           codes_cities batcher_cities batcher_cities_prepared
           0%nat 1%nat _ [philadelphia] _ [new_york]).
  - reflexivity.
  - reflexivity.
  - discriminate.
Defined.

Lemma location_near_request_point_witness :
  (fst (40%Q, (-74)%Q) <= loc_lat new_york < fst (40%Q, (-74)%Q) + GRID_SIZE
   /\ snd (40%Q, (-74)%Q) <= loc_lon new_york < snd (40%Q, (-74)%Q) + GRID_SIZE
   /\ center (fst (40%Q, (-74)%Q)) - (1 # 2) <= loc_lat new_york
      <= center (fst (40%Q, (-74)%Q)) + (1 # 2)
   /\ center (snd (40%Q, (-74)%Q)) - (1 # 2) <= loc_lon new_york
      <= center (snd (40%Q, (-74)%Q)) + (1 # 2))%Q.
Proof.
  apply (location_near_request_point db_cities tz_eastern offset_minus_4
           codes_cities batcher_cities batcher_cities_prepared
           (40%Q, (-74)%Q) [new_york] new_york).
  - right. left. reflexivity.
  - left. reflexivity.
Defined.

Lemma grid_map_counts_resolved_witness :
  length (placed (grid_map batcher_cities))
  = length (resolved db_cities tz_eastern offset_minus_4 codes_cities)
  /\ (length (placed (grid_map batcher_cities)) <= length codes_cities)%nat.
Proof.
  exact (grid_map_counts_resolved db_cities tz_eastern offset_minus_4
           codes_cities batcher_cities batcher_cities_prepared).
Defined.

Lemma prepare_batches_twice_witness :
  exists b2,
    prepare_batches db_cities tz_eastern offset_minus_4 batcher_cities = Ok b2
    /\ length (placed (grid_map b2))
       = (2 * length (placed (grid_map batcher_cities)))%nat
    /\ forall cell locs, In (cell, locs) (grid_map b2) ->
         let once := List.filter (in_cell cell)
                       (resolved db_cities tz_eastern offset_minus_4 codes_cities)
         in locs = (once ++ once)%list.
Proof.
  exact (prepare_batches_twice db_cities tz_eastern offset_minus_4
           codes_cities batcher_cities batcher_cities_prepared).
Defined.


Lemma first_lookup_error_aborts_witness :
  prepare_batches db_strict tz_eastern offset_minus_4
                  (GeographicBatcher_init (["19101"] ++ "1910" :: ["00000"])%list)
  = Raise ValueError.
Proof.
  apply (first_lookup_error_aborts db_strict tz_eastern offset_minus_4
           ["19101"] "1910" ["00000"] ValueError).
  - intros z' [<- | []]. eexists. vm_compute. reflexivity.
  - vm_compute. reflexivity.
Defined.

(** ** RateLimiter: the schedule of back-to-back calls *)

Section StampedSchedule.
Variable stamp : Q -> Q.
Variable fl : Q -> Q.
Variable eps : Q.
Variable delta : Q.
Hypothesis stamp_close : forall t, (Qabs (stamp t - t) <= eps)%Q.
Hypothesis fl_close : forall x, (Qabs (fl x - x) <= delta)%Q.

Lemma quiet_delays_ok w : future w = [] -> delays_ok w.
Proof. intros H. unfold delays_ok. rewrite H. constructor. Qed.

(** One call with no delay from the environment: it returns at once when
    the limiter finds its interval elapsed, and no later than one
    interval, plus the tolerance, after a grant it has just made. *)
Lemma after_acquire_stamped_quiet w :
  future w = [] -> (0 <= min_interval (limiter w))%Q ->
  future (after_acquire_stamped stamp fl w) = []
  /\ ((min_interval (limiter w)
       <= fl (stamp (clock (advance w 0%Q)) - last_call (limiter w)))%Q ->
      (clock (after_acquire_stamped stamp fl w) == clock w)%Q)
  /\ (last_call (limiter w) = stamp (clock w) ->
      (clock (after_acquire_stamped stamp fl w)
       <= clock w + (min_interval (limiter w) + (2 * eps + 2 * delta)))%Q).
Proof.
  intros Hf Hm. unfold after_acquire_stamped.
  pose proof (eps_nonneg stamp eps stamp_close) as Heps.
  pose proof (delta_nonneg fl delta fl_close) as Hdelta.
  set (w1 := advance w 0%Q).
  assert (Hc1 : (clock w1 == clock w)%Q) by (unfold w1, advance; cbn; rewrite Hf; cbn; lra).
  assert (Hf1 : future w1 = []) by (unfold w1, advance; cbn; now rewrite Hf).
  clearbody w1.
  set (elapsed := fl (stamp (clock w1) - last_call (limiter w))).
  destruct (Qltb elapsed (min_interval (limiter w))) eqn:E.
  - apply Qltb_true in E.
    set (s := fl (min_interval (limiter w) - elapsed)).
    destruct (fl_bounds fl delta fl_close (min_interval (limiter w) - elapsed)) as [_ Fu].
    fold s in Fu.
    set (d := (if Qltb 0 s then s else 0%Q)).
    assert (Hd : (d <= s \/ d == 0)%Q).
    { unfold d. destruct (Qltb 0 s); [left; lra | right; lra]. }
    clearbody d.
    split; [cbn; rewrite Hf1; reflexivity|]. split.
    + intros Hidle. lra.
    + intros Hlast.
      destruct (fl_bounds fl delta fl_close (stamp (clock w1) - last_call (limiter w)))
        as [El _]. fold elapsed in El. rewrite Hlast in El.
      destruct (stamp_bounds stamp eps stamp_close (clock w1)) as [Sl _].
      destruct (stamp_bounds stamp eps stamp_close (clock w)) as [_ Su].
      cbn. rewrite Hf1. cbn. destruct Hd as [Hd | Hd]; lra.
  - split; [cbn; rewrite Hf1; reflexivity|]. split.
    + intros _. cbn. rewrite Hf1. cbn. lra.
    + intros _. cbn. rewrite Hf1. cbn. lra.
Qed.

Lemma acquires_stamped_quiet n :
  forall w k a,
    future w = [] -> (0 <= min_interval (limiter w))%Q ->
    last_call (limiter w) = stamp (clock w) ->
    nth_error (fst (acquires_stamped stamp fl n w)) k = Some a ->
    (clock w + inject_Z (Z.of_nat (S k))
               * (min_interval (limiter w) - (2 * eps + 2 * delta)) <= fst a)%Q
    /\ (fst a <= clock w + inject_Z (Z.of_nat (S k))
                           * (min_interval (limiter w) + (2 * eps + 2 * delta)))%Q.
Proof.
  induction n as [|n IH]; intros w k a Hf Hm Hlast Ha; [destruct k; discriminate|].
  rewrite (acquires_stamped_S stamp fl) in Ha. cbn [fst] in Ha.
  destruct (after_acquire_stamped_quiet w Hf Hm) as (Hf1 & _ & Hup).
  specialize (Hup Hlast).
  pose proof (proj2 (after_acquire_stamped_spacing stamp fl eps delta stamp_close
                       fl_close w (quiet_delays_ok w Hf)) (clock w) Hlast) as Hlow.
  destruct k as [|k].
  - cbn [nth_error] in Ha.
    assert (Ea : a = (clock (after_acquire_stamped stamp fl w),
                      last_call (limiter (after_acquire_stamped stamp fl w))))
      by congruence.
    rewrite Ea. cbv beta iota delta [fst].
    change (inject_Z (Z.of_nat 1)) with 1%Q. split; lra.
  - change (nth_error (fst (acquires_stamped stamp fl n
                              (after_acquire_stamped stamp fl w))) k = Some a) in Ha.
    destruct (IH (after_acquire_stamped stamp fl w) k a Hf1 Hm eq_refl Ha) as [Il Iu].
    change (min_interval (limiter (after_acquire_stamped stamp fl w)))
      with (min_interval (limiter w)) in Il, Iu.
    rewrite (Nat2Z.inj_succ (S k)), <- Z.add_1_r, inject_Z_plus.
    change (inject_Z 1) with 1%Q. split; lra.
Qed.

(** X19. When the environment adds no delay and the limiter finds its
    interval elapsed, calls of [acquire] made back to back return on
    schedule: the first at once, and the one after [k] others [k]
    intervals later, to within [k] times the tolerance [2 eps + 2 delta]
    of the rounding of the stamps and of their differences.  With nothing
    rounded the schedule is exact. *)
Theorem acquires_on_schedule (n k : nat) (w : World) :
  future w = [] ->
  (0 <= min_interval (limiter w))%Q ->
  (min_interval (limiter w)
   <= fl (stamp (clock (advance w 0%Q)) - last_call (limiter w)))%Q ->
  (k < n)%nat ->
  exists a,
    nth_error (fst (acquires_stamped stamp fl n w)) k = Some a
    /\ snd a = stamp (fst a)
    /\ (clock w + inject_Z (Z.of_nat k)
                  * (min_interval (limiter w) - (2 * eps + 2 * delta)) <= fst a)%Q
    /\ (fst a <= clock w + inject_Z (Z.of_nat k)
                           * (min_interval (limiter w) + (2 * eps + 2 * delta)))%Q.
Proof.
  intros Hf Hm Hidle Hk.
  destruct (nth_error (fst (acquires_stamped stamp fl n w)) k) as [a|] eqn:Ha.
  2:{ apply nth_error_None in Ha. rewrite (acquires_stamped_length stamp fl) in Ha. lia. }
  exists a. split; [reflexivity|].
  destruct (acquires_stamped_within stamp fl eps delta stamp_close fl_close
              n w k a (quiet_delays_ok w Hf) Ha) as (Hs & _).
  split; [exact Hs|].
  destruct n as [|n]; [lia|].
  rewrite (acquires_stamped_S stamp fl) in Ha. cbn [fst] in Ha.
  destruct (after_acquire_stamped_quiet w Hf Hm) as (Hf1 & Hat_once & _).
  specialize (Hat_once Hidle).
  destruct k as [|k].
  - cbn [nth_error] in Ha.
    assert (Ea : a = (clock (after_acquire_stamped stamp fl w),
                      last_call (limiter (after_acquire_stamped stamp fl w))))
      by congruence.
    rewrite Ea. cbv beta iota delta [fst].
    change (inject_Z (Z.of_nat 0)) with 0%Q. split; lra.
  - change (nth_error (fst (acquires_stamped stamp fl n
                              (after_acquire_stamped stamp fl w))) k = Some a) in Ha.
    destruct (acquires_stamped_quiet n (after_acquire_stamped stamp fl w) k a
                Hf1 Hm eq_refl Ha) as [Il Iu].
    change (min_interval (limiter (after_acquire_stamped stamp fl w)))
      with (min_interval (limiter w)) in Il, Iu.
    split; lra.
Qed.
End StampedSchedule.

Lemma acquires_on_schedule_witness :
  exists a,
    nth_error (fst (acquires_stamped stamp_near exact 3 world_idle)) 2 = Some a
    /\ snd a = stamp_near (fst a)
    /\ (clock world_idle
        + inject_Z (Z.of_nat 2)
          * (min_interval (limiter world_idle) - (2 * (1 # 8388608) + 2 * 0)) <= fst a)%Q
    /\ (fst a <= clock world_idle
                 + inject_Z (Z.of_nat 2)
                   * (min_interval (limiter world_idle) + (2 * (1 # 8388608) + 2 * 0)))%Q.
Proof.
  apply (acquires_on_schedule stamp_near exact (1 # 8388608) 0
           stamp_near_close exact_close 3 2 world_idle).
  - reflexivity.
  - vm_compute. discriminate.
  - vm_compute. discriminate.
  - lia.
Defined.

(** ** The run: what the loop over the cells adds up to *)

Lemma process_cells_summary session items :
  forall w, exists results w' n,
    process_cells session items w = (Ok results, w')
    /\ progress_total w' = progress_total w + total_in items
    /\ (length results <= length (placed items))%nat
    /\ (forall r, In r results ->
          exists loc, In loc (placed items)
                      /\ zip_code r = loc_zip_code loc
                      /\ timezone_offset r = loc_timezone_offset loc)
    /\ (n <= length items)%nat
    /\ count_events is_acquire w' = (n + count_events is_acquire w)%nat
    /\ count_events is_request w' = (n + count_events is_request w)%nat.
Proof.
  induction items as [|[[grid_lat grid_lon] locations] rest IH]; intros w.
  - exists [], w, 0%nat. cbn. repeat split; try lia; try (intros r []).
  - destruct (fetch_summary session grid_lat grid_lon locations w)
      as (rs & w1 & Hrun & Hshape & Hprog & Hcount).
    destruct (IH w1) as (rs' & w2 & n & Hrest & Hprog' & Hlen & Hfrom & Hn & Ha & Hr).
    assert (Hstep : process_cells session (((grid_lat, grid_lon), locations) :: rest) w
                    = (Ok (rs ++ rs')%list, w2)).
    { cbn [process_cells fetch_cell].
      rewrite (bind_run _ _ _ _ _ Hrun), (bind_run _ _ _ _ _ Hrest). reflexivity. }
    assert (Hrs : (length rs <= length locations)%nat
                  /\ forall r, In r rs ->
                       exists loc, In loc locations
                                   /\ zip_code r = loc_zip_code loc
                                   /\ timezone_offset r = loc_timezone_offset loc).
    { destruct Hshape as [-> | [v ->]].
      - split; [cbn; lia | intros r []].
      - split; [rewrite results_for_length; lia|].
        unfold results_for. intros r Hin. apply in_map_iff in Hin.
        destruct Hin as (loc & <- & Hloc). now exists loc. }
    destruct Hrs as [Hlen1 Hfrom1].
    assert (Hplaced : placed (((grid_lat, grid_lon), locations) :: rest)
                      = (locations ++ placed rest)%list) by reflexivity.
    assert (Hgoal : forall m, (m <= S n)%nat ->
              count_events is_acquire w1 = (m - n + count_events is_acquire w)%nat ->
              count_events is_request w1 = (m - n + count_events is_request w)%nat ->
              (n <= m)%nat ->
              exists results w' k,
                process_cells session (((grid_lat, grid_lon), locations) :: rest) w
                = (Ok results, w')
                /\ progress_total w'
                   = progress_total w + total_in (((grid_lat, grid_lon), locations) :: rest)
                /\ (length results
                    <= length (placed (((grid_lat, grid_lon), locations) :: rest)))%nat
                /\ (forall r, In r results ->
                      exists loc,
                        In loc (placed (((grid_lat, grid_lon), locations) :: rest))
                        /\ zip_code r = loc_zip_code loc
                        /\ timezone_offset r = loc_timezone_offset loc)
                /\ (k <= length (((grid_lat, grid_lon), locations) :: rest))%nat
                /\ count_events is_acquire w' = (k + count_events is_acquire w)%nat
                /\ count_events is_request w' = (k + count_events is_request w)%nat).
    { intros m Hm Ha1 Hr1 Hnm. exists (rs ++ rs')%list, w2, m.
      split; [exact Hstep|]. split.
      { rewrite Hprog', Hprog.
        change (total_in (((grid_lat, grid_lon), locations) :: rest))
          with (len locations + total_in rest). lia. }
      split; [rewrite Hplaced, !length_app; lia|]. split.
      { intros r Hin. rewrite Hplaced. apply in_app_or in Hin.
        destruct Hin as [Hin | Hin].
        - destruct (Hfrom1 r Hin) as (loc & Hloc & Hz & Ht).
          exists loc. split; [apply in_or_app; now left | now split].
        - destruct (Hfrom r Hin) as (loc & Hloc & Hz & Ht).
          exists loc. split; [apply in_or_app; now right | now split]. }
      cbn [length]. split; [lia|]. split; lia. }
    destruct Hcount as [[Ha1 Hr1] | [Ha1 Hr1]].
    + apply (Hgoal n); lia.
    + apply (Hgoal (S n)); lia.
Qed.

(** X20. Whatever the cells come to, the loop of [process_all_zips] over
    the grid map brings the progress bar exactly to the total it was
    created with, the number of locations of the map. *)
Theorem progress_bar_reaches_total session
        (grid_items : list ((Q * Q) * list Location)) (w : World) :
  progress_total
    (snd (process_batches session (batches (length grid_items) grid_items) [] w))
  = progress_total w + total_in grid_items.
Proof.
  rewrite process_batches_sequential.
  destruct (process_cells_summary session grid_items w)
    as (rs & w' & n & -> & Hprog & _). exact Hprog.
Qed.

(** X21. In a whole run the limiter is passed once for each request made,
    no more and no less, and there is at most one request per cell of the
    grid map. *)
Theorem one_limiter_pass_per_request session
        (grid_items : list ((Q * Q) * list Location)) (w : World) :
  let w' := snd (process_batches session
                   (batches (length grid_items) grid_items) [] w) in
  exists n,
    (n <= length grid_items)%nat
    /\ count_events is_acquire w' = (n + count_events is_acquire w)%nat
    /\ count_events is_request w' = (n + count_events is_request w)%nat.
Proof.
  cbv zeta. rewrite process_batches_sequential.
  destruct (process_cells_summary session grid_items w)
    as (rs & w' & n & -> & _ & _ & _ & Hn & Ha & Hr).
  exists n. cbn [snd]. now repeat split.
Qed.

(** X22. The loop never raises, whatever the session does, and it invents
    no result: every result carries the code and the time-zone offset of a
    location of the grid map, and there are no more results than
    locations. *)
Theorem run_results_come_from_grid session
        (grid_items : list ((Q * Q) * list Location)) (w : World) :
  exists results,
    fst (process_batches session (batches (length grid_items) grid_items) [] w)
    = Ok results
    /\ (length results <= length (placed grid_items))%nat
    /\ forall r, In r results ->
         exists loc, In loc (placed grid_items)
                     /\ zip_code r = loc_zip_code loc
                     /\ timezone_offset r = loc_timezone_offset loc.
Proof.
  rewrite process_batches_sequential.
  destruct (process_cells_summary session grid_items w)
    as (rs & w' & n & -> & _ & Hlen & Hfrom & _).
  exists rs. now repeat split.
Qed.

(** ** calculate_statistics: when it returns, and what it returns *)

Lemma rmap_Forall2 {A B} (f : A -> result B) (l : list A) :
  forall ys, rmap f l = Ok ys -> Forall2 (fun x y => f x = Ok y) l ys.
Proof.
  induction l as [|x l IH]; intros ys H; cbn in H.
  - injection H as <-. constructor.
  - destruct (f x) as [y|e] eqn:Hx; cbn in H; [|discriminate].
    destruct (rmap f l) as [ys'|e]; cbn in H; [|discriminate].
    injection H as <-. constructor; [exact Hx | now apply IH].
Qed.

Lemma rmap_total {A B} (f : A -> result B) (l : list A) :
  (forall x, In x l -> exists y, f x = Ok y) -> exists ys, rmap f l = Ok ys.
Proof.
  induction l as [|x l IH]; intros H; [now exists []|].
  destruct (H x (or_introl eq_refl)) as [y Hy].
  destruct IH as [ys Hys]; [intros x' Hx'; apply H; now right|].
  exists (y :: ys). cbn. rewrite Hy. cbn. now rewrite Hys.
Qed.

Lemma rmap_first_error {A B} (f : A -> result B) (pre : list A) x post e :
  (forall p, In p pre -> exists y, f p = Ok y) -> f x = Raise e ->
  rmap f (pre ++ x :: post)%list = Raise e.
Proof.
  intros Hpre Hx. induction pre as [|p pre IH]; cbn.
  - now rewrite Hx.
  - destruct (Hpre p (or_introl eq_refl)) as [y ->]. cbn.
    rewrite IH; [reflexivity|]. intros p' Hp'. apply Hpre. now right.
Qed.

Lemma fold_min_le (l : list Z) : forall a, fold_left Z.min l a <= a.
Proof.
  induction l as [|x l IH]; intros a; cbn; [lia|].
  specialize (IH (Z.min a x)). lia.
Qed.

Lemma fold_min_lower (l : list Z) :
  forall a x, In x l -> fold_left Z.min l a <= x.
Proof.
  induction l as [|y l IH]; intros a x []; cbn.
  - subst y. pose proof (fold_min_le l (Z.min a x)). lia.
  - now apply IH.
Qed.

Lemma fold_min_in (l : list Z) :
  forall a, fold_left Z.min l a = a \/ In (fold_left Z.min l a) l.
Proof.
  induction l as [|y l IH]; intros a; cbn; [now left|].
  destruct (IH (Z.min a y)) as [H | H]; [|now right; right].
  rewrite H. destruct (Z.min_spec a y) as [[_ ->] | [_ ->]]; [now left | right; now left].
Qed.

Lemma fold_max_ge (l : list Z) : forall a, a <= fold_left Z.max l a.
Proof.
  induction l as [|x l IH]; intros a; cbn; [lia|].
  specialize (IH (Z.max a x)). lia.
Qed.

Lemma fold_max_upper (l : list Z) :
  forall a x, In x l -> x <= fold_left Z.max l a.
Proof.
  induction l as [|y l IH]; intros a x []; cbn.
  - subst y. pose proof (fold_max_ge l (Z.max a x)). lia.
  - now apply IH.
Qed.

Lemma fold_max_in (l : list Z) :
  forall a, fold_left Z.max l a = a \/ In (fold_left Z.max l a) l.
Proof.
  induction l as [|y l IH]; intros a; cbn; [now left|].
  destruct (IH (Z.max a y)) as [H | H]; [|now right; right].
  rewrite H. destruct (Z.max_spec a y) as [[_ ->] | [_ ->]]; [right; now left | now left].
Qed.

Lemma list_min_spec (data : list Z) :
  data <> [] ->
  In (list_min data) data /\ forall x, In x data -> list_min data <= x.
Proof.
  destruct data as [|a l]; [congruence|]. intros _. cbn [list_min]. split.
  - destruct (fold_min_in l a) as [-> | H]; [now left | now right].
  - intros x [<- | H]; [apply fold_min_le | now apply fold_min_lower].
Qed.

Lemma list_max_spec (data : list Z) :
  data <> [] ->
  In (list_max data) data /\ forall x, In x data -> x <= list_max data.
Proof.
  destruct data as [|a l]; [congruence|]. intros _. cbn [list_max]. split.
  - destruct (fold_max_in l a) as [-> | H]; [now left | now right].
  - intros x [<- | H]; [apply fold_max_ge | now apply fold_max_upper].
Qed.

(** [list.index]: the first position of a member, and nothing equal
    before it. *)
Lemma index_of_spec (x : Z) (data : list Z) :
  In x data ->
  nth_error data (index_of x data) = Some x
  /\ forall j y, (j < index_of x data)%nat -> nth_error data j = Some y -> y <> x.
Proof.
  induction data as [|y l IH]; [intros []|]. intros Hin. cbn [index_of].
  destruct (y =? x) eqn:E.
  - apply Z.eqb_eq in E. subst y. split; [reflexivity | intros j y Hj; lia].
  - apply Z.eqb_neq in E. destruct Hin as [-> | Hin]; [congruence|].
    destruct (IH Hin) as [Hnth Hbefore]. split; [exact Hnth|].
    intros [|j] y' Hj Hy'; cbn in Hy'.
    + injection Hy' as <-. exact E.
    + apply (Hbefore j y'); [lia | exact Hy'].
Qed.

Lemma Forall2_nth_error {A B} (R : A -> B -> Prop) l ys :
  Forall2 R l ys ->
  forall i y, nth_error ys i = Some y -> exists x, nth_error l i = Some x /\ R x y.
Proof.
  induction 1 as [|x y l ys Hxy _ IH]; intros [|i] y' Hy'; cbn in Hy'; try discriminate.
  - injection Hy' as <-. now exists x.
  - now apply IH.
Qed.

Lemma Forall2_In_l {A B} (R : A -> B -> Prop) l ys :
  Forall2 R l ys -> forall x, In x l -> exists y, In y ys /\ R x y.
Proof.
  induction 1 as [|x y l ys Hxy _ IH]; intros x' []; [subst x'|].
  - exists y. split; [now left | exact Hxy].
  - destruct (IH x' H) as (y' & Hy' & HR). exists y'. split; [now right | exact HR].
Qed.

Lemma sorted_length (data : list Z) : length (sorted data) = length data.
Proof.
  assert (Hins : forall x l, length (insert_sorted x l) = S (length l)).
  { intros x l. induction l as [|y l IH]; [reflexivity|]. cbn.
    destruct (x <=? y); cbn; [reflexivity | now rewrite IH]. }
  induction data as [|x l IH]; [reflexivity|]. unfold sorted in *. cbn.
  now rewrite Hins, IH.
Qed.

Lemma mean_ok (data : list Z) : data <> [] -> exists avg, mean data = Ok avg.
Proof. destruct data; [congruence|]. intros _. eexists. reflexivity. Qed.

Lemma median_ok (data : list Z) : data <> [] -> exists m, median data = Ok m.
Proof.
  intros H. unfold median. rewrite sorted_length.
  destruct data as [|x l]; [congruence|]. cbn [length].
  destruct (Nat.odd (S (length l))); eexists; reflexivity.
Qed.

Lemma stdev_ok (data : list Z) :
  (2 <= length data)%nat -> exists sd, stdev data = Ok sd.
Proof.
  intros H. unfold stdev, variance.
  destruct (length data <? 2)%nat eqn:E; [apply Nat.ltb_lt in E; lia|].
  eexists. reflexivity.
Qed.

Lemma stdev_needs_two (data : list Z) sd :
  stdev data = Ok sd -> (2 <= length data)%nat.
Proof.
  unfold stdev, variance.
  destruct (length data <? 2)%nat eqn:E; [discriminate|].
  apply Nat.ltb_ge in E. intros _. exact E.
Qed.

Lemma sum_Z_cons x l : sum_Z (x :: l) = x + sum_Z l.
Proof. reflexivity. Qed.

Lemma count_insert_total h :
  forall counts, sum_Z (map snd (count_insert h counts)) = 1 + sum_Z (map snd counts).
Proof.
  induction counts as [|[h' n] counts IH]; [reflexivity|]. cbn [count_insert].
  destruct (h =? h'); [cbn; lia|].
  destruct (h <? h'); [cbn; lia|].
  cbn [map snd]. rewrite !sum_Z_cons, IH. lia.
Qed.

Lemma hours_total (seconds_list : list Z) :
  forall acc,
    sum_Z (map snd (fold_left (fun acc seconds => count_insert (seconds / 3600) acc)
                              seconds_list acc))
    = len seconds_list + sum_Z (map snd acc).
Proof.
  induction seconds_list as [|s l IH]; intros acc; [reflexivity|].
  cbn [fold_left]. rewrite IH, count_insert_total. unfold len. cbn [length]. lia.
Qed.

Lemma group_append_nonempty k v :
  forall groups, Forall (fun g : Q * list Z => snd g <> []) groups ->
                 Forall (fun g : Q * list Z => snd g <> []) (group_append k v groups).
Proof.
  induction groups as [|[k' vs] groups IH]; intros H; cbn [group_append].
  - constructor; [discriminate | constructor].
  - inversion H as [|? ? Hg Hrest]; subst. destruct (Qeq_bool k' k).
    + constructor; [|exact Hrest]. cbn. now destruct vs.
    + constructor; [exact Hg | now apply IH].
Qed.

Lemma group_append_total k v :
  forall groups : list (Q * list Z),
    sum_Z (map (fun g => len (snd g)) (group_append k v groups))
    = 1 + sum_Z (map (fun g => len (snd g)) groups).
Proof.
  induction groups as [|[k' vs] groups IH]; [reflexivity|]. cbn [group_append].
  destruct (Qeq_bool k' k); cbn [map snd]; rewrite !sum_Z_cons.
  - unfold len. rewrite length_app. cbn [length]. lia.
  - rewrite IH. lia.
Qed.

Lemma groups_fold (keyed : list (Q * Z)) :
  forall acc,
    Forall (fun g : Q * list Z => snd g <> []) acc ->
    let groups := fold_left (fun acc kt => group_append (fst kt) (snd kt) acc)
                            keyed acc in
    Forall (fun g : Q * list Z => snd g <> []) groups
    /\ sum_Z (map (fun g => len (snd g)) groups)
       = len keyed + sum_Z (map (fun g => len (snd g)) acc).
Proof.
  induction keyed as [|[k v] keyed IH]; intros acc Hacc; cbn zeta.
  - split; [exact Hacc | reflexivity].
  - cbn [fold_left fst snd].
    destruct (IH (group_append k v acc) (group_append_nonempty k v acc Hacc))
      as [Hne Hsum].
    split; [exact Hne|]. rewrite Hsum, group_append_total.
    unfold len. cbn [length]. lia.
Qed.

Section StatsMore.
Variable fromisoformat : string -> result time_obj.
Variable fmt_sqrt_minutes_2f : surd -> string.
Variable percentile_seconds : list Z -> Z -> Z.
Variable fmt_percentage : Z -> Z -> string.

Lemma timezone_entries_ok (groups : list (Q * list Z)) :
  Forall (fun g : Q * list Z => snd g <> []) groups ->
  exists timezone_stats,
    rmap (timezone_entry fmt_sqrt_minutes_2f) groups = Ok timezone_stats
    /\ sum_Z (map (fun g => tz_count (snd g)) timezone_stats)
       = sum_Z (map (fun g => len (snd g)) groups).
Proof.
  induction 1 as [|[offset times] groups Hne _ (stats & Hstats & Hsum)].
  - exists []. now split.
  - cbn [snd] in Hne. destruct (mean_ok times Hne) as [avg Havg].
    assert (Hsd : exists sd,
               (if (1 <? length times)%nat
                then rbind (stdev times) (fun sd => Ok (fmt_sqrt_minutes_2f sd))
                else Ok "N/A") = Ok sd).
    { destruct (1 <? length times)%nat eqn:E; [|eexists; reflexivity].
      apply Nat.ltb_lt in E. destruct (stdev_ok times) as [sd ->]; [lia|].
      eexists. reflexivity. }
    destruct Hsd as [sd Hsd].
    eexists. cbn [rmap]. unfold timezone_entry at 1. rewrite Havg. cbn [rbind].
    rewrite Hsd. cbn [rbind]. rewrite Hstats. cbn [rbind]. split; [reflexivity|].
    cbn [map snd tz_count]. rewrite !sum_Z_cons, Hsum. reflexivity.
Qed.

Lemma keyed_ok (results : list FetchResult) :
  forall seconds_list,
    rmap (fun r => time_to_seconds fromisoformat (sunset_time r)) results
    = Ok seconds_list ->
    rmap (fun r => rbind (time_to_seconds fromisoformat (sunset_time r))
                         (fun t => Ok (timezone_offset r, t))) results
    = Ok (combine (map timezone_offset results) seconds_list).
Proof.
  induction results as [|r l IH]; intros ss H; cbn in H.
  - injection H as <-. reflexivity.
  - destruct (time_to_seconds fromisoformat (sunset_time r)) as [s|e] eqn:Hs;
      cbn in H; [|discriminate].
    destruct (rmap _ l) as [ss'|e] eqn:Hl; cbn in H; [|discriminate].
    injection H as <-. cbn [rmap]. rewrite Hs. cbn [rbind].
    rewrite (IH ss' eq_refl). reflexivity.
Qed.

Lemma statistics_shape (results : list FetchResult) (seconds_list : list Z) :
  rmap (fun r => time_to_seconds fromisoformat (sunset_time r)) results
  = Ok seconds_list ->
  (2 <= length results)%nat ->
  exists st r_min r_max,
    calculate_statistics fromisoformat fmt_sqrt_minutes_2f percentile_seconds
                         fmt_percentage results = Ok (Some st)
    /\ total_locations (summary_statistics st) = len results
    /\ hour_total st = len results
    /\ timezone_total st = len results
    /\ nth_error results (index_of (list_min seconds_list) seconds_list) = Some r_min
    /\ nth_error results (index_of (list_max seconds_list) seconds_list) = Some r_max
    /\ earliest_sunset (range_analysis st) = entry_of r_min
    /\ latest_sunset (range_analysis st) = entry_of r_max
    /\ time_range_minutes (range_analysis st)
       = fmt_minutes_2f (list_max seconds_list - list_min seconds_list).
Proof.
  intros Hss Hlen. pose proof (rmap_Forall2 _ _ _ Hss) as HF.
  pose proof (@List.Forall2_length _ _ _ _ _ HF) as Hlen2.
  assert (Hne : seconds_list <> []) by (destruct seconds_list; cbn in Hlen2; [lia | discriminate]).
  destruct (mean_ok seconds_list Hne) as [avg Havg].
  destruct (median_ok seconds_list Hne) as [med Hmed].
  destruct (stdev_ok seconds_list) as [sd Hsd]; [lia|].
  destruct (list_min_spec seconds_list Hne) as [Hmin _].
  destruct (list_max_spec seconds_list Hne) as [Hmax _].
  destruct (index_of_spec _ _ Hmin) as [Himin _].
  destruct (index_of_spec _ _ Hmax) as [Himax _].
  destruct (Forall2_nth_error _ _ _ HF _ _ Himin) as (r_min & Hrmin & _).
  destruct (Forall2_nth_error _ _ _ HF _ _ Himax) as (r_max & Hrmax & _).
  pose proof (keyed_ok results seconds_list Hss) as Hkeyed.
  set (keyed := combine (map timezone_offset results) seconds_list) in *.
  destruct (groups_fold keyed [] (List.Forall_nil _)) as [Hgne Hgsum].
  destruct (timezone_entries_ok _ Hgne) as (tzs & Htzs & Htzsum).
  destruct results as [|first rest]; [cbn in Hlen; lia|].
  eexists _, r_min, r_max. split.
  { unfold calculate_statistics. rewrite Hss. cbn [rbind].
    rewrite Havg. cbn [rbind]. rewrite Hmed. cbn [rbind]. rewrite Hsd. cbn [rbind].
    cbv zeta. rewrite Hkeyed. cbn [rbind]. rewrite Htzs. cbn [rbind]. reflexivity. }
  cbn [summary_statistics total_locations range_analysis earliest_sunset
       latest_sunset time_range_minutes].
  split; [reflexivity|]. split.
  { unfold hour_total. cbn [hour_distribution]. rewrite map_map. cbn [snd hour_count].
    change (fun x : Z * Z => snd x) with (@snd Z Z).
    rewrite (hours_total seconds_list []). cbn [map sum_Z fold_right].
    unfold len. rewrite Hlen2. lia. }
  split.
  { unfold timezone_total. cbn [timezone_analysis]. rewrite Htzsum, Hgsum.
    cbn [map sum_Z fold_right]. unfold len, keyed.
    rewrite length_combine, length_map. lia. }
  split; [exact Hrmin|]. split; [exact Hrmax|].
  rewrite (nth_error_nth _ _ first Hrmin), (nth_error_nth _ _ first Hrmax).
  repeat split; reflexivity.
Qed.

Lemma statistics_inv (results : list FetchResult) (st : Statistics) :
  calculate_statistics fromisoformat fmt_sqrt_minutes_2f percentile_seconds
                       fmt_percentage results = Ok (Some st) ->
  exists seconds_list,
    rmap (fun r => time_to_seconds fromisoformat (sunset_time r)) results
    = Ok seconds_list
    /\ (2 <= length results)%nat.
Proof.
  destruct results as [|first rest]; [discriminate|].
  unfold calculate_statistics.
  destruct (rmap (fun r => time_to_seconds fromisoformat (sunset_time r))
                 (first :: rest)) as [ss|e] eqn:Hss; cbn [rbind]; [|discriminate].
  destruct (mean ss); cbn [rbind]; [|discriminate].
  destruct (median ss); cbn [rbind]; [|discriminate].
  destruct (stdev ss) as [sd|e] eqn:Hsd; cbn [rbind]; [|discriminate].
  intros _. exists ss. split; [reflexivity|].
  rewrite (@List.Forall2_length _ _ _ _ _ (rmap_Forall2 _ _ _ Hss)).
  exact (stdev_needs_two ss sd Hsd).
Qed.

(** X23. With two results or more, all of whose sunset texts are read by
    [time_to_seconds], [calculate_statistics] raises nothing and returns
    a summary, whose [total_locations] is the number of results. *)
Theorem statistics_are_returned (results : list FetchResult) :
  (2 <= length results)%nat ->
  (forall r, In r results ->
     exists s, time_to_seconds fromisoformat (sunset_time r) = Ok s) ->
  exists st,
    calculate_statistics fromisoformat fmt_sqrt_minutes_2f percentile_seconds
                         fmt_percentage results = Ok (Some st)
    /\ total_locations (summary_statistics st) = len results.
Proof.
  intros Hlen Hall. destruct (rmap_total _ results Hall) as [ss Hss].
  destruct (statistics_shape results ss Hss Hlen) as (st & _ & _ & Hst & Htotal & _).
  now exists st.
Qed.

(** X24. In a summary the counts of the hours add up to the number of
    results, and so do the counts of the time-zone groups: every result
    is counted once in each. *)
Theorem statistics_counts_add_up (results : list FetchResult) (st : Statistics) :
  calculate_statistics fromisoformat fmt_sqrt_minutes_2f percentile_seconds
                       fmt_percentage results = Ok (Some st) ->
  hour_total st = len results
  /\ timezone_total st = len results
  /\ total_locations (summary_statistics st) = len results.
Proof.
  intros Hst. destruct (statistics_inv results st Hst) as (ss & Hss & Hlen).
  destruct (statistics_shape results ss Hss Hlen)
    as (st' & _ & _ & Hst' & Htotal & Hhours & Htz & _).
  rewrite Hst in Hst'. injection Hst' as <-. now repeat split.
Qed.

(** X25. The earliest sunset of a summary is a result whose time is the
    least of all, and the first such in the order of the results; the
    latest is the first result whose time is the greatest; the range is
    the difference of the two, in minutes. *)
Theorem earliest_and_latest (results : list FetchResult) (st : Statistics) :
  calculate_statistics fromisoformat fmt_sqrt_minutes_2f percentile_seconds
                       fmt_percentage results = Ok (Some st) ->
  exists i_min r_min s_min i_max r_max s_max,
    nth_error results i_min = Some r_min
    /\ earliest_sunset (range_analysis st) = entry_of r_min
    /\ time_to_seconds fromisoformat (sunset_time r_min) = Ok s_min
    /\ nth_error results i_max = Some r_max
    /\ latest_sunset (range_analysis st) = entry_of r_max
    /\ time_to_seconds fromisoformat (sunset_time r_max) = Ok s_max
    /\ (forall r s, In r results ->
          time_to_seconds fromisoformat (sunset_time r) = Ok s -> s_min <= s <= s_max)
    /\ (forall j r, (j < i_min)%nat -> nth_error results j = Some r ->
          time_to_seconds fromisoformat (sunset_time r) <> Ok s_min)
    /\ (forall j r, (j < i_max)%nat -> nth_error results j = Some r ->
          time_to_seconds fromisoformat (sunset_time r) <> Ok s_max)
    /\ time_range_minutes (range_analysis st) = fmt_minutes_2f (s_max - s_min).
Proof.
  intros Hst. destruct (statistics_inv results st Hst) as (ss & Hss & Hlen).
  destruct (statistics_shape results ss Hss Hlen)
    as (st' & r_min & r_max & Hst' & _ & _ & _ & Hrmin & Hrmax & He & Hl & Hrange).
  rewrite Hst in Hst'. injection Hst' as <-.
  pose proof (rmap_Forall2 _ _ _ Hss) as HF.
  assert (Hne : ss <> []).
  { pose proof (@List.Forall2_length _ _ _ _ _ HF) as Hlen2.
    destruct ss; cbn in Hlen2; [lia | discriminate]. }
  destruct (list_min_spec ss Hne) as [Hmin Hlower].
  destruct (list_max_spec ss Hne) as [Hmax Hupper].
  destruct (index_of_spec _ _ Hmin) as [Himin Hfirst_min].
  destruct (index_of_spec _ _ Hmax) as [Himax Hfirst_max].
  assert (Hnth : forall i r, nth_error results i = Some r ->
                 exists s, nth_error ss i = Some s
                           /\ time_to_seconds fromisoformat (sunset_time r) = Ok s).
  { clear - HF. induction HF as [|x y l ys Hxy _ IH]; intros [|i] r Hr; cbn in Hr;
      try discriminate.
    - injection Hr as <-. now exists y.
    - now apply IH. }
  destruct (Hnth _ _ Hrmin) as (s1 & Hs1 & Hsecs_min).
  destruct (Hnth _ _ Hrmax) as (s2 & Hs2 & Hsecs_max).
  rewrite Himin in Hs1. injection Hs1 as <-.
  rewrite Himax in Hs2. injection Hs2 as <-.
  exists (index_of (list_min ss) ss), r_min, (list_min ss),
         (index_of (list_max ss) ss), r_max, (list_max ss).
  repeat split; try assumption.
  - destruct (Forall2_In_l _ _ _ HF r H) as (y & Hy & Hry).
    rewrite Hry in H0. injection H0 as <-. now apply Hlower.
  - destruct (Forall2_In_l _ _ _ HF r H) as (y & Hy & Hry).
    rewrite Hry in H0. injection H0 as <-. now apply Hupper.
  - intros j r Hj Hr Hs. destruct (Hnth _ _ Hr) as (s & Hsj & Hsr).
    rewrite Hsr in Hs. injection Hs as ->. exact (Hfirst_min j _ Hj Hsj eq_refl).
  - intros j r Hj Hr Hs. destruct (Hnth _ _ Hr) as (s & Hsj & Hsr).
    rewrite Hsr in Hs. injection Hs as ->. exact (Hfirst_max j _ Hj Hsj eq_refl).
Qed.

(** X26. One result whose sunset text cannot be read is enough for the
    statistics of the whole run to be lost: [calculate_statistics] raises
    the error of the first such result. *)
Theorem unreadable_time_fails_statistics (pre : list FetchResult) (r : FetchResult)
                                         (post : list FetchResult) (e : exn) :
  (forall p, In p pre ->
     exists s, time_to_seconds fromisoformat (sunset_time p) = Ok s) ->
  time_to_seconds fromisoformat (sunset_time r) = Raise e ->
  calculate_statistics fromisoformat fmt_sqrt_minutes_2f percentile_seconds
                       fmt_percentage (pre ++ r :: post)%list = Raise e.
Proof.
  intros Hpre Hr.
  pose proof (rmap_first_error
                (fun r => time_to_seconds fromisoformat (sunset_time r))
                pre r post e Hpre Hr) as Hraise.
  destruct pre as [|p pre]; cbn [app] in *;
    unfold calculate_statistics; rewrite Hraise; reflexivity.
Qed.
End StatsMore.

Lemma statistics_are_returned_witness :
  exists st,
    calculate_statistics (fun _ => Raise ValueError) (fun _ => EmptyString)
                         (fun _ _ => 0) (fun _ _ => EmptyString) scenario
    = Ok (Some st)
    /\ total_locations (summary_statistics st) = len scenario.
Proof.
  apply (statistics_are_returned (fun _ => Raise ValueError) (fun _ => EmptyString)
           (fun _ _ => 0) (fun _ _ => EmptyString) scenario).
  - cbn. lia.
  - intros r [<- | [<- | [<- | []]]]; eexists; vm_compute; reflexivity.
Defined.

Lemma statistics_counts_add_up_witness :
  exists st,
    calculate_statistics (fun _ => Raise ValueError) (fun _ => EmptyString)
                         (fun _ _ => 0) (fun _ _ => EmptyString) scenario
    = Ok (Some st)
    /\ hour_total st = len scenario
    /\ timezone_total st = len scenario
    /\ total_locations (summary_statistics st) = len scenario.
Proof.
  eexists.
  refine ((fun H => conj H (statistics_counts_add_up
                              (fun _ => Raise ValueError) (fun _ => EmptyString)
                              (fun _ _ => 0) (fun _ _ => EmptyString)
                              scenario _ H)) _).
  reflexivity.
Defined.

Lemma earliest_and_latest_witness :
  exists st,
    calculate_statistics (fun _ => Raise ValueError) (fun _ => EmptyString)
                         (fun _ _ => 0) (fun _ _ => EmptyString) scenario
    = Ok (Some st)
    /\ exists i_min r_min s_min i_max r_max s_max,
         nth_error scenario i_min = Some r_min
         /\ earliest_sunset (range_analysis st) = entry_of r_min
         /\ time_to_seconds (fun _ => Raise ValueError) (sunset_time r_min) = Ok s_min
         /\ nth_error scenario i_max = Some r_max
         /\ latest_sunset (range_analysis st) = entry_of r_max
         /\ time_to_seconds (fun _ => Raise ValueError) (sunset_time r_max) = Ok s_max
         /\ (forall r s, In r scenario ->
               time_to_seconds (fun _ => Raise ValueError) (sunset_time r) = Ok s ->
               s_min <= s <= s_max)
         /\ (forall j r, (j < i_min)%nat -> nth_error scenario j = Some r ->
               time_to_seconds (fun _ => Raise ValueError) (sunset_time r) <> Ok s_min)
         /\ (forall j r, (j < i_max)%nat -> nth_error scenario j = Some r ->
               time_to_seconds (fun _ => Raise ValueError) (sunset_time r) <> Ok s_max)
         /\ time_range_minutes (range_analysis st) = fmt_minutes_2f (s_max - s_min).
Proof.
  eexists.
  refine ((fun H => conj H (earliest_and_latest
                              (fun _ => Raise ValueError) (fun _ => EmptyString)
                              (fun _ _ => 0) (fun _ _ => EmptyString)
                              scenario _ H)) _).
  reflexivity.
Defined.

Lemma unreadable_time_fails_statistics_witness :
  calculate_statistics (fun _ => Raise ValueError) (fun _ => EmptyString)
                       (fun _ _ => 0) (fun _ _ => EmptyString)
                       ([mk_FetchResult "A" (JStr "7:00:00 PM") (-4 # 1)]
                        ++ mk_FetchResult "B" (JStr "soon") (-4 # 1)
                        :: [mk_FetchResult "C" (JStr "8:00:00 PM") (-5 # 1)])%list
  = Raise ValueError.
Proof.
  apply (unreadable_time_fails_statistics
           (fun _ => Raise ValueError) (fun _ => EmptyString)
           (fun _ _ => 0) (fun _ _ => EmptyString)).
  - intros p [<- | []]. eexists. vm_compute. reflexivity.
  - vm_compute. reflexivity.
Defined.

(** ** process_all_zips as a whole *)

Section RunMore.
Variable zipcodes_matching : string -> result (list ZipRecord).
Variable timezone_at : Q -> Q -> option string.
Variable utc_offset_hours : string -> result Q.
Variable fromisoformat : string -> result time_obj.
Variable fmt_sqrt_minutes_2f : surd -> string.
Variable percentile_seconds : list Z -> Z -> Z.
Variable fmt_percentage : Z -> Z -> string.

Lemma statistics_of_some (results : list FetchResult) (stats : option Statistics) :
  results <> [] ->
  calculate_statistics fromisoformat fmt_sqrt_minutes_2f percentile_seconds
                       fmt_percentage results = Ok stats ->
  stats <> None.
Proof.
  destruct results as [|first rest]; [congruence|]. intros _.
  unfold calculate_statistics.
  repeat (match goal with
          | |- rbind ?x _ = _ -> _ => destruct x; cbn [rbind]; [|discriminate]
          end; cbv zeta).
  intros H. injection H as <-. discriminate.
Qed.

(** X27. When [process_all_zips] ends without an exception, it has no
    more results than there were codes to process, so the success rate it
    reports is at most 100%; and it has statistics exactly when it has
    a result. *)
Theorem results_never_exceed_codes (ZIP_CODES : list string) (session : Session)
        (w : World) (results : list FetchResult) (stats : option Statistics) :
  fst (process_all_zips zipcodes_matching timezone_at utc_offset_hours
                        fromisoformat fmt_sqrt_minutes_2f percentile_seconds
                        fmt_percentage ZIP_CODES session w)
  = Ok (results, stats) ->
  (length results <= length ZIP_CODES)%nat
  /\ (stats = None <-> results = []).
Proof.
  unfold process_all_zips.
  destruct (prepare_batches zipcodes_matching timezone_at utc_offset_hours
                            (GeographicBatcher_init ZIP_CODES)) as [b|e] eqn:Hb;
    [|discriminate].
  destruct (prepare_batches_init _ _ _ ZIP_CODES b Hb) as [_ Hfrom].
  pose proof (prepare_from_length _ _ _ ZIP_CODES [] (grid_map b) Hfrom) as Hplaced.
  pose proof (resolved_length zipcodes_matching timezone_at utc_offset_hours ZIP_CODES)
    as Hres.
  cbn [placed map concat length Nat.add] in Hplaced.
  unfold bind at 1, lift at 1. cbv zeta.
  unfold bind at 1, lift at 1. cbn [RateLimiter_init Z.eqb].
  unfold bind at 1.
  set (w0 := set_limiter w _).
  unfold bind at 1. rewrite process_batches_sequential.
  destruct (process_cells_summary session (grid_map b) w0)
    as (rs & w' & n & -> & _ & Hlen & _).
  destruct rs as [|r rs].
  - cbn. intros H. injection H as <- <-. split; [lia | tauto].
  - unfold bind at 1, lift at 1.
    destruct (calculate_statistics fromisoformat fmt_sqrt_minutes_2f
                percentile_seconds fmt_percentage (r :: rs)) as [st|e] eqn:Hst;
      [|discriminate].
    cbn. intros H. injection H as <- <-. split; [lia|].
    pose proof (statistics_of_some (r :: rs) st ltac:(discriminate) Hst).
    split; [congruence | discriminate].
Qed.
End RunMore.

Lemma results_never_exceed_codes_witness :
  exists results stats,
    fst (process_all_zips db_cities tz_eastern offset_minus_4
                          (fun _ => Raise ValueError) (fun _ => EmptyString)
                          (fun _ _ => 0) (fun _ _ => EmptyString)
                          codes_cities session_ok world_0)
    = Ok (results, stats)
    /\ (length results <= length codes_cities)%nat
    /\ (stats = None <-> results = []).
Proof.
  eexists _, _.
  refine ((fun H => conj H (results_never_exceed_codes
                              db_cities tz_eastern offset_minus_4
                              (fun _ => Raise ValueError) (fun _ => EmptyString)
                              (fun _ _ => 0) (fun _ _ => EmptyString)
                              codes_cities session_ok world_0 _ _ H)) _).
  vm_compute. reflexivity.
Defined.

(** ** The web application *)

Section AppProperties.
Variable zipcodes_matching : string -> result (list ZipRecord).
Variable timezone_at : Q -> Q -> option string.
Variable utc_offset_hours : string -> result Q.
Variable fromisoformat : string -> result time_obj.
Variable fmt_sqrt_minutes_2f : surd -> string.
Variable percentile_seconds : list Z -> Z -> Z.
Variable fmt_percentage : Z -> Z -> string.
Variable rendered : World -> list FetchResult -> option Statistics -> json * json * json.
Variable str_of_exception : exn -> string.

Lemma summary_is_truthy w results stats :
  truthy (summary_of rendered w results stats) = true
  /\ is_null (summary_of rendered w results stats) = false.
Proof. unfold summary_of. destruct (rendered w results stats) as [[? ?] ?]. now split. Qed.

(** X28. When no processing is under way and the run ends with results,
    [start_processing] answers 200 with the summary the run wrote;
    [get_results] then serves that same summary, and [get_status] reports
    no processing, no error and results at hand. *)
Theorem process_then_results (ZIP_CODES : list string) (session : Session) (s : Server)
        (results : list FetchResult) (stats : option Statistics) :
  processing (results_cache s) = false ->
  fst (process_all_zips zipcodes_matching timezone_at utc_offset_hours fromisoformat
                        fmt_sqrt_minutes_2f percentile_seconds fmt_percentage
                        ZIP_CODES session (world s)) = Ok (results, stats) ->
  results <> [] ->
  exists summary,
    fst (start_processing zipcodes_matching timezone_at utc_offset_hours fromisoformat
                        fmt_sqrt_minutes_2f percentile_seconds fmt_percentage
                        rendered str_of_exception ZIP_CODES session s) = mk_Reply (Data summary) 200
    /\ summary_file (snd (start_processing zipcodes_matching timezone_at utc_offset_hours fromisoformat
                        fmt_sqrt_minutes_2f percentile_seconds fmt_percentage
                        rendered str_of_exception ZIP_CODES session s)) = Some summary
    /\ get_results (snd (start_processing zipcodes_matching timezone_at utc_offset_hours fromisoformat
                        fmt_sqrt_minutes_2f percentile_seconds fmt_percentage
                        rendered str_of_exception ZIP_CODES session s)) = mk_Reply (Data summary) 200
    /\ get_status (snd (start_processing zipcodes_matching timezone_at utc_offset_hours fromisoformat
                        fmt_sqrt_minutes_2f percentile_seconds fmt_percentage
                        rendered str_of_exception ZIP_CODES session s))
       = mk_Reply (StatusReport false None true) 200.
Proof.
  intros Hidle Hrun Hne. unfold start_processing. rewrite Hidle.
  destruct (process_all_zips zipcodes_matching timezone_at utc_offset_hours fromisoformat
                        fmt_sqrt_minutes_2f percentile_seconds fmt_percentage
                        ZIP_CODES session (world s)) as [outcome w'].
  cbn [fst] in Hrun. subst outcome. destruct results as [|r results]; [congruence|].
  cbv zeta. cbn [fst snd summary_file results_cache].
  destruct (summary_is_truthy w' (r :: results) stats) as [Htrue Hnull].
  exists (summary_of rendered w' (r :: results) stats).
  unfold get_results, get_status. cbn [results_cache last_run processing error].
  rewrite Htrue, Hnull. now repeat split.
Qed.

(** X29. When the run raises, [start_processing] answers 500 with the
    text of the exception and records it; the flag is lowered again, the
    summary file and the results of the last good run are kept, and
    [get_results] answers as it did before. *)
Theorem failed_run_keeps_last_results (ZIP_CODES : list string) (session : Session)
        (s : Server) (e : exn) :
  processing (results_cache s) = false ->
  fst (process_all_zips zipcodes_matching timezone_at utc_offset_hours fromisoformat
                        fmt_sqrt_minutes_2f percentile_seconds fmt_percentage
                        ZIP_CODES session (world s)) = Raise e ->
  fst (start_processing zipcodes_matching timezone_at utc_offset_hours fromisoformat
                        fmt_sqrt_minutes_2f percentile_seconds fmt_percentage
                        rendered str_of_exception ZIP_CODES session s) = mk_Reply (Message "error" (str_of_exception e)) 500
  /\ results_cache (snd (start_processing zipcodes_matching timezone_at utc_offset_hours fromisoformat
                        fmt_sqrt_minutes_2f percentile_seconds fmt_percentage
                        rendered str_of_exception ZIP_CODES session s))
     = mk_ResultsCache false (last_run (results_cache s)) (Some (str_of_exception e))
  /\ summary_file (snd (start_processing zipcodes_matching timezone_at utc_offset_hours fromisoformat
                        fmt_sqrt_minutes_2f percentile_seconds fmt_percentage
                        rendered str_of_exception ZIP_CODES session s)) = summary_file s
  /\ get_results (snd (start_processing zipcodes_matching timezone_at utc_offset_hours fromisoformat
                        fmt_sqrt_minutes_2f percentile_seconds fmt_percentage
                        rendered str_of_exception ZIP_CODES session s)) = get_results s.
Proof.
  intros Hidle Hrun. unfold start_processing. rewrite Hidle.
  destruct (process_all_zips zipcodes_matching timezone_at utc_offset_hours fromisoformat
                        fmt_sqrt_minutes_2f percentile_seconds fmt_percentage
                        ZIP_CODES session (world s)) as [outcome w'].
  cbn [fst] in Hrun. subst outcome. now repeat split.
Qed.

(** X30. A run that collects no result writes no summary.
    [start_processing] then serves whatever summary file an earlier run
    left, with status 200, as the result of this run; with no such file it
    answers 500.  Either way the flag is lowered again. *)
Theorem empty_run_serves_old_summary (ZIP_CODES : list string) (session : Session)
        (s : Server) (stats : option Statistics) :
  processing (results_cache s) = false ->
  fst (process_all_zips zipcodes_matching timezone_at utc_offset_hours fromisoformat
                        fmt_sqrt_minutes_2f percentile_seconds fmt_percentage
                        ZIP_CODES session (world s)) = Ok ([], stats) ->
  processing (results_cache (snd (start_processing zipcodes_matching timezone_at utc_offset_hours fromisoformat
                        fmt_sqrt_minutes_2f percentile_seconds fmt_percentage
                        rendered str_of_exception ZIP_CODES session s))) = false
  /\ summary_file (snd (start_processing zipcodes_matching timezone_at utc_offset_hours fromisoformat
                        fmt_sqrt_minutes_2f percentile_seconds fmt_percentage
                        rendered str_of_exception ZIP_CODES session s)) = summary_file s
  /\ match summary_file s with
     | Some old =>
         fst (start_processing zipcodes_matching timezone_at utc_offset_hours fromisoformat
                        fmt_sqrt_minutes_2f percentile_seconds fmt_percentage
                        rendered str_of_exception ZIP_CODES session s) = mk_Reply (Data old) 200
         /\ last_run (results_cache (snd (start_processing zipcodes_matching timezone_at utc_offset_hours fromisoformat
                        fmt_sqrt_minutes_2f percentile_seconds fmt_percentage
                        rendered str_of_exception ZIP_CODES session s))) = old
     | None =>
         fst (start_processing zipcodes_matching timezone_at utc_offset_hours fromisoformat
                        fmt_sqrt_minutes_2f percentile_seconds fmt_percentage
                        rendered str_of_exception ZIP_CODES session s) = mk_Reply (Message "error" file_not_found) 500
         /\ last_run (results_cache (snd (start_processing zipcodes_matching timezone_at utc_offset_hours fromisoformat
                        fmt_sqrt_minutes_2f percentile_seconds fmt_percentage
                        rendered str_of_exception ZIP_CODES session s)))
            = last_run (results_cache s)
     end.
Proof.
  intros Hidle Hrun. unfold start_processing. rewrite Hidle.
  destruct (process_all_zips zipcodes_matching timezone_at utc_offset_hours fromisoformat
                        fmt_sqrt_minutes_2f percentile_seconds fmt_percentage
                        ZIP_CODES session (world s)) as [outcome w'].
  cbn [fst] in Hrun. subst outcome. cbv zeta.
  destruct (summary_file s) as [old|]; now repeat split.
Qed.
End AppProperties.

Lemma process_then_results_witness :
  exists summary,
    fst (start_processing db_cities tz_eastern offset_minus_4
                          (fun _ => Raise ValueError) (fun _ => EmptyString)
                          (fun _ _ => 0) (fun _ _ => EmptyString)
                          (fun _ _ _ => (JNull, JNull, JNull)) (fun _ => "failed")
                          codes_cities session_ok server_0)
    = mk_Reply (Data summary) 200
    /\ summary_file (snd (start_processing db_cities tz_eastern offset_minus_4
                            (fun _ => Raise ValueError) (fun _ => EmptyString)
                            (fun _ _ => 0) (fun _ _ => EmptyString)
                            (fun _ _ _ => (JNull, JNull, JNull)) (fun _ => "failed")
                            codes_cities session_ok server_0))
       = Some summary
    /\ get_results (snd (start_processing db_cities tz_eastern offset_minus_4
                            (fun _ => Raise ValueError) (fun _ => EmptyString)
                            (fun _ _ => 0) (fun _ _ => EmptyString)
                            (fun _ _ _ => (JNull, JNull, JNull)) (fun _ => "failed")
                            codes_cities session_ok server_0))
       = mk_Reply (Data summary) 200
    /\ get_status (snd (start_processing db_cities tz_eastern offset_minus_4
                           (fun _ => Raise ValueError) (fun _ => EmptyString)
                           (fun _ _ => 0) (fun _ _ => EmptyString)
                           (fun _ _ _ => (JNull, JNull, JNull)) (fun _ => "failed")
                           codes_cities session_ok server_0))
       = mk_Reply (StatusReport false None true) 200.
Proof.
  eapply (process_then_results db_cities tz_eastern offset_minus_4
            (fun _ => Raise ValueError) (fun _ => EmptyString)
            (fun _ _ => 0) (fun _ _ => EmptyString)
            (fun _ _ _ => (JNull, JNull, JNull)) (fun _ => "failed")
            codes_cities session_ok server_0).
  - reflexivity.
  - vm_compute. reflexivity.
  - discriminate.
Defined.

Lemma failed_run_keeps_last_results_witness :
  fst (start_processing db_philadelphia tz_eastern offset_minus_4
                        (fun _ => Raise ValueError) (fun _ => EmptyString)
                        (fun _ _ => 0) (fun _ _ => EmptyString)
                        (fun _ _ _ => (JNull, JNull, JNull)) (fun _ => "failed")
                        ["19101"] session_ok server_stale)
  = mk_Reply (Message "error" "failed") 500
  /\ results_cache (snd (start_processing db_philadelphia tz_eastern offset_minus_4
                            (fun _ => Raise ValueError) (fun _ => EmptyString)
                            (fun _ _ => 0) (fun _ _ => EmptyString)
                            (fun _ _ _ => (JNull, JNull, JNull)) (fun _ => "failed")
                            ["19101"] session_ok server_stale))
     = mk_ResultsCache false (last_run (results_cache server_stale)) (Some "failed")
  /\ summary_file (snd (start_processing db_philadelphia tz_eastern offset_minus_4
                           (fun _ => Raise ValueError) (fun _ => EmptyString)
                           (fun _ _ => 0) (fun _ _ => EmptyString)
                           (fun _ _ _ => (JNull, JNull, JNull)) (fun _ => "failed")
                           ["19101"] session_ok server_stale))
     = summary_file server_stale
  /\ get_results (snd (start_processing db_philadelphia tz_eastern offset_minus_4
                          (fun _ => Raise ValueError) (fun _ => EmptyString)
                          (fun _ _ => 0) (fun _ _ => EmptyString)
                          (fun _ _ _ => (JNull, JNull, JNull)) (fun _ => "failed")
                          ["19101"] session_ok server_stale))
     = get_results server_stale.
Proof.
  apply (failed_run_keeps_last_results db_philadelphia tz_eastern offset_minus_4
           (fun _ => Raise ValueError) (fun _ => EmptyString)
           (fun _ _ => 0) (fun _ _ => EmptyString)
           (fun _ _ _ => (JNull, JNull, JNull)) (fun _ => "failed")
           ["19101"] session_ok server_stale StatisticsError).
  - reflexivity.
  - vm_compute. reflexivity.
Defined.

Lemma empty_run_serves_old_summary_witness :
  processing (results_cache
                (snd (start_processing db_unknown tz_eastern offset_minus_4
                        (fun _ => Raise ValueError) (fun _ => EmptyString)
                        (fun _ _ => 0) (fun _ _ => EmptyString)
                        (fun _ _ _ => (JNull, JNull, JNull)) (fun _ => "failed")
                        ["00000"] session_ok server_stale))) = false
  /\ summary_file (snd (start_processing db_unknown tz_eastern offset_minus_4
                           (fun _ => Raise ValueError) (fun _ => EmptyString)
                           (fun _ _ => 0) (fun _ _ => EmptyString)
                           (fun _ _ _ => (JNull, JNull, JNull)) (fun _ => "failed")
                           ["00000"] session_ok server_stale))
     = summary_file server_stale
  /\ match summary_file server_stale with
     | Some old =>
         fst (start_processing db_unknown tz_eastern offset_minus_4
                (fun _ => Raise ValueError) (fun _ => EmptyString)
                (fun _ _ => 0) (fun _ _ => EmptyString)
                (fun _ _ _ => (JNull, JNull, JNull)) (fun _ => "failed")
                ["00000"] session_ok server_stale)
         = mk_Reply (Data old) 200
         /\ last_run (results_cache
                        (snd (start_processing db_unknown tz_eastern offset_minus_4
                                (fun _ => Raise ValueError) (fun _ => EmptyString)
                                (fun _ _ => 0) (fun _ _ => EmptyString)
                                (fun _ _ _ => (JNull, JNull, JNull)) (fun _ => "failed")
                                ["00000"] session_ok server_stale))) = old
     | None =>
         fst (start_processing db_unknown tz_eastern offset_minus_4
                (fun _ => Raise ValueError) (fun _ => EmptyString)
                (fun _ _ => 0) (fun _ _ => EmptyString)
                (fun _ _ _ => (JNull, JNull, JNull)) (fun _ => "failed")
                ["00000"] session_ok server_stale)
         = mk_Reply (Message "error" file_not_found) 500
         /\ last_run (results_cache
                        (snd (start_processing db_unknown tz_eastern offset_minus_4
                                (fun _ => Raise ValueError) (fun _ => EmptyString)
                                (fun _ _ => 0) (fun _ _ => EmptyString)
                                (fun _ _ _ => (JNull, JNull, JNull)) (fun _ => "failed")
                                ["00000"] session_ok server_stale)))
            = last_run (results_cache server_stale)
     end.
Proof.
  apply (empty_run_serves_old_summary db_unknown tz_eastern offset_minus_4
           (fun _ => Raise ValueError) (fun _ => EmptyString)
           (fun _ _ => 0) (fun _ _ => EmptyString)
           (fun _ _ _ => (JNull, JNull, JNull)) (fun _ => "failed")
           ["00000"] session_ok server_stale None).
  - reflexivity.
  - vm_compute. reflexivity.
Defined.
